(** * Swarm: the per-frame simulation and rendering loop of [SwarmApp]

    A shallow embedding of the canvas effect of [SwarmApp] (the functions
    [resizeCanvas], [initParticles] and [draw]), of the SVG path effect and
    of the React plumbing that decides when those effects run.

    JavaScript numbers are kept abstract behind the class [JsNumber], which
    lists exactly the operations the component applies to them.  Two
    instances are given: IEEE binary64 ([PrimFloat]), on which every
    definition evaluates, and the real numbers, the idealisation in which
    the geometric statements are proved. *)

From Stdlib Require Import Floats.
From Stdlib Require Import Reals Lra Lia List String Ascii ZArith Bool.
From stdpp Require Import base list.
Import ListNotations.

Set Implicit Arguments.

(** ** Numbers *)

Class JsNumber (num : Type) : Type := {
  n0 : num;                      (* 0 *)
  n1 : num;                      (* 1 *)
  n2 : num;                      (* 2 *)
  n4 : num;                      (* 4 *)
  n5 : num;                      (* 5 *)
  nhalf : num;                   (* 0.5 *)
  nPI : num;                     (* Math.PI *)
  nadd : num -> num -> num;
  nsub : num -> num -> num;
  nmul : num -> num -> num;
  ndiv : num -> num -> num;
  nopp : num -> num;             (* unary minus *)
  nltb : num -> num -> bool;     (* a < b *)
  hypot : num -> num -> num;     (* Math.hypot(a, b) *)
  nsame : num -> num -> bool;    (* Object.is(a, b) *)
  nattr : Z -> num -> num        (* an unsigned long attribute, assigned *)
}.

Declare Scope js_scope.
Delimit Scope js_scope with js.
Notation "a + b" := (nadd a b) : js_scope.
Notation "a - b" := (nsub a b) : js_scope.
Notation "a * b" := (nmul a b) : js_scope.
Notation "a / b" := (ndiv a b) : js_scope.
Notation "- a" := (nopp a) : js_scope.
Notation "a <? b" := (nltb a b) : js_scope.
Notation "a >? b" := (nltb b a) : js_scope.

(** *** Numbers stored in the DOM

    [canvas.width] and [canvas.height] are [unsigned long] attributes that
    reflect a content attribute with a default.  A number assigned to one
    is converted as Web IDL has it (NaN and the infinities to 0, otherwise
    the integer part, modulo [2 ^ 32]); the attribute then holds that
    integer if it is at most [2 ^ 31 - 1], and its default otherwise.
    [reflect_unsigned_long dflt t] is what it holds for the integer part
    [t]. *)
Definition reflect_unsigned_long (dflt t : Z) : Z :=
  let u := (t mod 2 ^ 32)%Z in
  if (u <=? 2147483647)%Z then u else dflt.

(** *** The real numbers *)

Definition Rltb (a b : R) : bool := if Rlt_dec a b then true else false.
Definition Reqb (a b : R) : bool := if Req_dec_T a b then true else false.
Definition Rhypot (a b : R) : R := sqrt (a * a + b * b)%R.

(** The integer part, towards zero. *)
Definition Rtrunc (v : R) : Z :=
  if Rlt_dec v 0 then (- Int_part (- v))%Z else Int_part v.

#[export] Instance RNumber : JsNumber R := {|
  n0 := 0%R; n1 := 1%R; n2 := 2%R; n4 := 4%R; n5 := 5%R;
  nhalf := (1 / 2)%R; nPI := PI;
  nadd := Rplus; nsub := Rminus; nmul := Rmult; ndiv := Rdiv; nopp := Ropp;
  nltb := Rltb; hypot := Rhypot; nsame := Reqb;
  nattr := fun dflt v => IZR (reflect_unsigned_long dflt (Rtrunc v))
|}.

(** *** IEEE binary64 *)

(** [Math.hypot]: +Infinity if an argument is infinite, NaN if one is NaN,
    otherwise the square root of the sum of squares (ECMAScript leaves the
    rounding of the last bits to the implementation; engines also scale
    the arguments so that the squares neither overflow nor underflow,
    which this definition does not). *)
Definition Fhypot (a b : float) : float :=
  if (is_infinity a || is_infinity b)%bool then infinity
  else PrimFloat.sqrt (a * a + b * b)%float.

(** [Object.is] on numbers: NaN is the same as NaN, +0 differs from -0. *)
Definition Fsame (a b : float) : bool :=
  if (is_nan a && is_nan b)%bool then true
  else (PrimFloat.eqb a b && PrimFloat.eqb (1 / a) (1 / b))%bool%float.

(** The integer part of a finite number, towards zero; 0 for NaN and the
    infinities. *)
Definition Ftrunc (v : float) : Z :=
  match Prim2SF v with
  | S754_finite s m e =>
      let a := if (0 <=? e)%Z then (Z.pos m * 2 ^ e)%Z
               else (Z.pos m / 2 ^ (- e))%Z in
      if s then (- a)%Z else a
  | _ => 0%Z
  end.

(** The binary64 number nearest to an integer. *)
Definition Fof_Z (z : Z) : float :=
  if (z <? 0)%Z then (- PrimFloat.of_uint63 (Uint63.of_Z (- z)))%float
  else PrimFloat.of_uint63 (Uint63.of_Z z).

#[export] Instance FNumber : JsNumber float := {|
  n0 := 0%float; n1 := 1%float; n2 := 2%float; n4 := 4%float; n5 := 5%float;
  nhalf := 0.5%float; nPI := 0x1.921fb54442d18p+1%float;
  nadd := PrimFloat.add; nsub := PrimFloat.sub; nmul := PrimFloat.mul;
  ndiv := PrimFloat.div; nopp := PrimFloat.opp;
  nltb := PrimFloat.ltb; hypot := Fhypot; nsame := Fsame;
  nattr := fun dflt v => Fof_Z (reflect_unsigned_long dflt (Ftrunc v))
|}.

(** ** Data model *)

(** An element of [particles.current]. *)
Record Particle (num : Type) : Type := mkParticle {
  x : num; y : num; vx : num; vy : num; rotation : num
}.
Arguments mkParticle {num}.
Arguments x {num}. Arguments y {num}. Arguments vx {num}.
Arguments vy {num}. Arguments rotation {num}.

Inductive Shape : Type := circle | square | line | customSVG.

(** The type [Settings]: the thirteen pieces of component state that the
    effects close over.  [particleCount] is held as the length
    [Array.from] makes of it, a natural number: the model covers the
    counts that are whole numbers from 0 on (of a fraction [Array.from]
    keeps the integer part, a negative number or NaN it takes as 0, and
    from [2 ^ 32] on it throws). *)
Record Settings (num : Type) : Type := mkSettings {
  particleCount : nat;           (* the length handed to Array.from *)
  velocityCap : num;
  repulsionRadius : num;
  attractionRadius : num;
  cohesionForce : num;
  friction : num;
  randomForce : num;
  rotationSpeed : num;
  trailOpacity : num;
  backgroundColor : string;
  swarmColor : string;
  shape : Shape;
  svgPathData : string
}.
Arguments mkSettings {num}.
Arguments particleCount {num}. Arguments velocityCap {num}.
Arguments repulsionRadius {num}. Arguments attractionRadius {num}.
Arguments cohesionForce {num}. Arguments friction {num}.
Arguments randomForce {num}. Arguments rotationSpeed {num}.
Arguments trailOpacity {num}. Arguments backgroundColor {num}.
Arguments swarmColor {num}. Arguments shape {num}.
Arguments svgPathData {num}.

(** ** The force scan of [draw] *)

Section ForceScan.
Context {num : Type} `{JsNumber num}.
Local Open Scope js_scope.

Variable S : Settings num.

(** [const repul = (repulsionRadius - d) / repulsionRadius] *)
Definition repul (d : num) : num :=
  (repulsionRadius S - d) / repulsionRadius S.

(** [const attr = (d - repulsionRadius) / (attractionRadius - repulsionRadius)] *)
Definition attr (d : num) : num :=
  (d - repulsionRadius S) / (attractionRadius S - repulsionRadius S).

(** The body of the inner loop for [p1] against [p2] (the test [i === j]
    is in [force_scan]): the update of the accumulators [(fx, fy)]. *)
Definition pair_force (p1 p2 : Particle num) (f : num * num) : num * num :=
  let dx := x p2 - x p1 in
  let dy := y p2 - y p1 in
  let d := hypot dx dy in
  if d >? n0 then
    if d <? repulsionRadius S then
      (fst f - (dx / d) * repul d, snd f - (dy / d) * repul d)
    else if d <? attractionRadius S then
      (fst f + (dx / d) * attr d * cohesionForce S,
       snd f + (dy / d) * attr d * cohesionForce S)
    else f
  else f.

(** [for (let j = ...; j++) { if (i === j) continue; ... }] over the
    particles from index [j] on. *)
Fixpoint force_scan (i : nat) (p1 : Particle num) (ps : list (Particle num))
    (j : nat) (f : num * num) : num * num :=
  match ps with
  | [] => f
  | p2 :: rest =>
      force_scan i p1 rest (Datatypes.S j)
        (if Nat.eqb i j then f else pair_force p1 p2 f)
  end.

(** [let fx = 0, fy = 0;] followed by the whole inner loop. *)
Definition accumulate (ps : list (Particle num)) (i : nat)
    (p1 : Particle num) : num * num :=
  force_scan i p1 ps 0%nat (n0, n0).
End ForceScan.


(** ** Integration of one particle *)

Section Integrate.
Context {num : Type} `{JsNumber num}.
Local Open Scope js_scope.

Variable S : Settings num.

(** [p1.vx += fx + (Math.random() - 0.5) * randomForce;] and the same for
    [vy]; [r1] and [r2] are the two values [Math.random()] returns. *)
Definition apply_forces (f : num * num) (r1 r2 : num) (p1 : Particle num)
    : Particle num :=
  mkParticle (x p1) (y p1)
    (vx p1 + (fst f + (r1 - nhalf) * randomForce S))
    (vy p1 + (snd f + (r2 - nhalf) * randomForce S))
    (rotation p1).

(** [p1.vx *= friction; p1.vy *= friction;] *)
Definition apply_friction (p1 : Particle num) : Particle num :=
  mkParticle (x p1) (y p1) (vx p1 * friction S) (vy p1 * friction S)
    (rotation p1).

(** [const speed = Math.hypot(p1.vx, p1.vy);] *)
Definition speed (p1 : Particle num) : num := hypot (vx p1) (vy p1).

(** [if (speed > velocityCap) { const ratio = velocityCap / speed; ... }] *)
Definition velocity_cap (p1 : Particle num) : Particle num :=
  if speed p1 >? velocityCap S then
    let ratio := velocityCap S / speed p1 in
    mkParticle (x p1) (y p1) (vx p1 * ratio) (vy p1 * ratio) (rotation p1)
  else p1.

(** [p1.x += p1.vx; p1.y += p1.vy; p1.rotation += rotationSpeed;] *)
Definition move (p1 : Particle num) : Particle num :=
  mkParticle (x p1 + vx p1) (y p1 + vy p1) (vx p1) (vy p1)
    (rotation p1 + rotationSpeed S).

(** [if (c < 0) c += dim; if (c > dim) c -= dim;]: the two tests run one
    after the other, the second on the result of the first. *)
Definition wrap_coord (c dim : num) : num :=
  let c1 := if c <? n0 then c + dim else c in
  if c1 >? dim then c1 - dim else c1.

Definition wrap (width height : num) (p1 : Particle num) : Particle num :=
  mkParticle (wrap_coord (x p1) width) (wrap_coord (y p1) height)
    (vx p1) (vy p1) (rotation p1).

(** Everything [draw] does to [p1] between the force scan and the
    drawing of its shape. *)
Definition integrate (width height : num) (f : num * num) (r1 r2 : num)
    (p1 : Particle num) : Particle num :=
  wrap width height
    (move (velocity_cap (apply_friction (apply_forces f r1 r2 p1)))).
End Integrate.

(** ** The canvas context *)

(** [parseInt(s, 16)] on an ASCII string: leading white space, an optional
    sign and an optional [0x] are skipped, then the longest run of
    hexadecimal digits is read; [None] is NaN. *)
Definition hex_digit (c : ascii) : option Z :=
  let n := Z.of_nat (nat_of_ascii c) in
  if ((48 <=? n) && (n <=? 57))%Z then Some (n - 48)%Z
  else if ((97 <=? n) && (n <=? 102))%Z then Some (n - 87)%Z
  else if ((65 <=? n) && (n <=? 70))%Z then Some (n - 55)%Z
  else None.

Fixpoint hex_prefix (s : string) (acc : option Z) : option Z :=
  match s with
  | EmptyString => acc
  | String c rest =>
      match hex_digit c with
      | Some dgt => hex_prefix rest (Some (16 * default 0 acc + dgt)%Z)
      | None => acc
      end
  end.

Definition is_white_space (c : ascii) : bool :=
  let n := nat_of_ascii c in
  ((n =? 32) || ((9 <=? n) && (n <=? 13)))%nat.

Fixpoint trim_start (s : string) : string :=
  match s with
  | String c rest => if is_white_space c then trim_start rest else s
  | EmptyString => s
  end.

Definition parseInt16 (s : string) : option Z :=
  let s1 := trim_start s in
  let '(sign, s2) :=
    match s1 with
    | String "-"%char r => ((-1)%Z, r)
    | String "+"%char r => (1%Z, r)
    | _ => (1%Z, s1)
    end in
  let s3 :=
    match s2 with
    | String "0"%char (String "x"%char r) => r
    | String "0"%char (String "X"%char r) => r
    | _ => s2
    end in
  option_map (Z.mul sign) (hex_prefix s3 None).

(** [s.slice(a, b)] for [0 <= a <= b]. *)
Definition slice (a b : nat) (s : string) : string := substring a (b - a) s.

(** What [new Path2D(d)] does is the browser's business: [None] stands for
    the constructor throwing. *)
Class PathApi : Type := {
  Path2D : Type;
  new_Path2D : string -> option Path2D
}.

Section Canvas.
Context {num : Type} `{JsNumber num} `{PathApi}.
Local Open Scope js_scope.

Inductive Style : Type :=
| Rgba (r g b : option Z) (a : num)   (* `rgba(${r}, ${g}, ${b}, ${a})` *)
| Colour (c : string).

(** The calls made on [ctx], in order. *)
Inductive DrawCmd : Type :=
| SetFillStyle (s : Style)
| SetStrokeStyle (c : string)
| SetLineWidth (w : num)
| FillRect (a b w h : num)
| Save
| Restore
| Translate (a b : num)
| Rotate (a : num)
| Scale (a b : num)
| BeginPath
| Arc (a b r a0 a1 : num)
| MoveTo (a b : num)
| LineTo (a b : num)
| Fill
| Stroke
| FillPath (p : Path2D).

(** The background trail fade at the head of [draw]. *)
Definition draw_background (S : Settings num) (cw ch : num) : list DrawCmd :=
  let r := parseInt16 (slice 1 3 (backgroundColor S)) in
  let g := parseInt16 (slice 3 5 (backgroundColor S)) in
  let b := parseInt16 (slice 5 7 (backgroundColor S)) in
  [ SetFillStyle (Rgba r g b (trailOpacity S)); FillRect n0 n0 cw ch ].

(** The [if]/[else if] chain on [shape]. *)
Definition draw_shape (S : Settings num) (size : num)
    (path : option Path2D) : list DrawCmd :=
  match shape S, path with
  | circle, _ => [ BeginPath; Arc n0 n0 size n0 (nPI * n2); Fill ]
  | square, _ => [ FillRect (- size) (- size) (size * n2) (size * n2) ]
  | line, _ =>
      [ BeginPath; MoveTo n0 n0; LineTo n0 (- size * n4);
        SetStrokeStyle (swarmColor S); SetLineWidth (size * nhalf); Stroke ]
  | customSVG, Some pth => [ Scale (size * n5) (size * n5); FillPath pth ]
  | customSVG, None => []
  end.

(** The part of the loop body under [// Draw]. *)
Definition draw_particle (S : Settings num) (dpr : num)
    (path : option Path2D) (p1 : Particle num) : list DrawCmd :=
  [ SetFillStyle (Colour (swarmColor S)); Save;
    Translate (x p1 * dpr) (y p1 * dpr); Rotate (rotation p1) ]
  ++ draw_shape S dpr path ++ [ Restore ].
End Canvas.
Arguments Style : clear implicits.
Arguments DrawCmd num {_}.

(** ** The component: state, effects and events *)

Section Component.
Context {num : Type} `{JsNumber num} `{PathApi}.
Local Open Scope js_scope.

(** [rnd k] is the value of the [k]-th call of [Math.random()]. *)
Variable rnd : nat -> num.

(** What the effect reads from the DOM: [window.devicePixelRatio] and the
    layout size of [canvas.parentElement]. *)
Record Viewport : Type := mkViewport {
  devicePixelRatio : num;
  clientWidth : num;
  clientHeight : num
}.

(** The variables [dpr], [width], [height] of the canvas effect and the
    size attributes and style of the canvas element. *)
Record Surface : Type := mkSurface {
  dpr : num;
  width : num;
  height : num;
  canvas_width : num;
  canvas_height : num;
  style_width : num;     (* width + "px" *)
  style_height : num     (* height + "px" *)
}.

(** The functions registered on [window] for "resize": the closure
    [resizeCanvas] created by the [run]-th run of the canvas effect. *)
Inductive Listener : Type := resizeCanvas_of (run : nat).

Record Component : Type := mkComponent {
  settings : Settings num;
  svgError : string;
  particles : list (Particle num);        (* particles.current *)
  customSVGPath2D : option Path2D;        (* customSVGPath2D.current *)
  animationFrameId : option nat;          (* animationFrameId.current *)
  surface : Surface;
  viewport : Viewport;
  listeners : list Listener;
  effect_run : nat;                       (* runs of the canvas effect *)
  pending_frames : list nat;              (* scheduled calls of draw *)
  frame_handles : nat;                    (* handles given out so far *)
  random_calls : nat;                     (* calls of Math.random() so far *)
  ctx : list (DrawCmd num)
}.

(** [v || 1]: [v] unless it is falsy (zero or NaN). *)
Definition or_one (v : num) : num :=
  if ((v <? n0) || (n0 <? v))%bool then v else n1.

(** [resizeCanvas]: [dpr], [width] and [height] are read from the window
    and the container; their products are assigned to [canvas.width] and
    [canvas.height] (defaults 300 and 150), which keep what [nattr]
    gives. *)
Definition resizeCanvas (c : Component) : Component :=
  let d := or_one (devicePixelRatio (viewport c)) in
  let w := clientWidth (viewport c) in
  let h := clientHeight (viewport c) in
  mkComponent (settings c) (svgError c) (particles c) (customSVGPath2D c)
    (animationFrameId c)
    (mkSurface d w h (nattr 300 (w * d)) (nattr 150 (h * d)) w h)
    (viewport c) (listeners c) (effect_run c) (pending_frames c) (frame_handles c)
    (random_calls c) (ctx c).

(** [Array.from({ length: n }, () => ({ x: Math.random() * width, ... }))],
    the first call of [Math.random()] being the [k]-th. *)
Fixpoint fresh_particles (n k : nat) (w h : num) : list (Particle num) :=
  match n with
  | O => []
  | Datatypes.S n' =>
      mkParticle (rnd k * w) (rnd (k + 1) * h) n0 n0
                 (rnd (k + 2) * nPI * n2)
      :: fresh_particles n' (k + 3) w h
  end.

Definition initParticles (c : Component) : Component :=
  let n := particleCount (settings c) in
  mkComponent (settings c) (svgError c)
    (fresh_particles n (random_calls c)
       (width (surface c)) (height (surface c)))
    (customSVGPath2D c) (animationFrameId c) (surface c) (viewport c)
    (listeners c) (effect_run c) (pending_frames c) (frame_handles c)
    (random_calls c + 3 * n) (ctx c).

(** One turn of the outer loop of [draw], for index [i].  The index is
    below the length of the pool whenever [draw_loop] calls it. *)
Definition draw_step (c : Component) (i : nat) : Component :=
  match particles c !! i with
  | None => c
  | Some p1 =>
      let S := settings c in
      let f := accumulate S (particles c) i p1 in
      let r1 := rnd (random_calls c) in
      let r2 := rnd (random_calls c + 1) in
      let p := integrate S (width (surface c)) (height (surface c))
                 f r1 r2 p1 in
      mkComponent S (svgError c) (<[i := p]> (particles c))
        (customSVGPath2D c) (animationFrameId c) (surface c) (viewport c)
        (listeners c) (effect_run c) (pending_frames c) (frame_handles c)
        (random_calls c + 2)
        (ctx c ++ draw_particle S (dpr (surface c)) (customSVGPath2D c) p)
  end.

(** [for (let i = 0; i < particles.current.length; i++) { ... }] *)
Definition draw_loop (c : Component) : Component :=
  fold_left draw_step (seq 0 (length (particles c))) c.

(** [requestAnimationFrame(draw)], stored in [animationFrameId.current]. *)
Definition request_frame (c : Component) : Component :=
  let id := Datatypes.S (frame_handles c) in
  mkComponent (settings c) (svgError c) (particles c) (customSVGPath2D c)
    (Some id) (surface c) (viewport c) (listeners c) (effect_run c)
    (pending_frames c ++ [id]) id (random_calls c) (ctx c).

Definition paint_background (c : Component) : Component :=
  mkComponent (settings c) (svgError c) (particles c) (customSVGPath2D c)
    (animationFrameId c) (surface c) (viewport c) (listeners c)
    (effect_run c) (pending_frames c) (frame_handles c) (random_calls c)
    (ctx c ++ draw_background (settings c)
                (canvas_width (surface c)) (canvas_height (surface c))).

Definition draw (c : Component) : Component :=
  request_frame (draw_loop (paint_background c)).
End Component.
Arguments Viewport : clear implicits.
Arguments Surface : clear implicits.
Arguments Component num {_}.

(** ** Effects and events *)

Section Effects.
Context {num : Type} `{JsNumber num} `{PathApi}.
Variable rnd : nat -> num.

Definition svg_error_message : string :=
  "Invalid SVG path data. Example: M0 -1 L1 0 L0 1".

(** The effect with dependencies [[shape, svgPathData]]. *)
Definition svg_effect (c : Component num) : Component num :=
  match shape (settings c) with
  | customSVG =>
      match new_Path2D (svgPathData (settings c)) with
      | Some path =>
          mkComponent (settings c) EmptyString (particles c) (Some path)
            (animationFrameId c) (surface c) (viewport c) (listeners c)
            (effect_run c) (pending_frames c) (frame_handles c)
            (random_calls c) (ctx c)
      | None =>
          mkComponent (settings c) svg_error_message (particles c) None
            (animationFrameId c) (surface c) (viewport c) (listeners c)
            (effect_run c) (pending_frames c) (frame_handles c)
            (random_calls c) (ctx c)
      end
  | _ => c
  end.

(** [window.addEventListener("resize", resizeCanvas)] for the closure of
    a new run of the canvas effect. *)
Definition add_listener (c : Component num) : Component num :=
  let run := Datatypes.S (effect_run c) in
  mkComponent (settings c) (svgError c) (particles c) (customSVGPath2D c)
    (animationFrameId c) (surface c) (viewport c)
    (listeners c ++ [resizeCanvas_of run]) run
    (pending_frames c) (frame_handles c) (random_calls c) (ctx c).

(** The body of the canvas effect: [resizeCanvas(); initParticles();
    window.addEventListener(...); requestAnimationFrame(draw)]. *)
Definition canvas_effect (c : Component num) : Component num :=
  request_frame (add_listener (initParticles rnd (resizeCanvas c))).

Definition same_listener (a b : Listener) : bool :=
  match a, b with resizeCanvas_of r1, resizeCanvas_of r2 => Nat.eqb r1 r2 end.

(** The function the canvas effect returns: the listener of the current
    run is removed and the frame in [animationFrameId.current], if there
    is one, is cancelled. *)
Definition canvas_cleanup (c : Component num) : Component num :=
  let ls := filter (fun l => negb (same_listener l (resizeCanvas_of (effect_run c))))
              (listeners c) in
  let pf :=
    match animationFrameId c with
    | Some id => filter (fun k => negb (Nat.eqb k id)) (pending_frames c)
    | None => pending_frames c
    end in
  mkComponent (settings c) (svgError c) (particles c) (customSVGPath2D c)
    (animationFrameId c) (surface c) (viewport c) ls (effect_run c) pf
    (frame_handles c) (random_calls c) (ctx c).

Definition same_shape (a b : Shape) : bool :=
  match a, b with
  | circle, circle | square, square | line, line | customSVG, customSVG => true
  | _, _ => false
  end.

(** React compares each dependency with [Object.is]. *)
Definition svg_deps_same (a b : Settings num) : bool :=
  same_shape (shape a) (shape b)
  && String.eqb (svgPathData a) (svgPathData b).

Definition canvas_deps_same (a b : Settings num) : bool :=
  Nat.eqb (particleCount a) (particleCount b)
  && nsame (velocityCap a) (velocityCap b)
  && nsame (repulsionRadius a) (repulsionRadius b)
  && nsame (attractionRadius a) (attractionRadius b)
  && nsame (cohesionForce a) (cohesionForce b)
  && nsame (friction a) (friction b)
  && nsame (randomForce a) (randomForce b)
  && nsame (rotationSpeed a) (rotationSpeed b)
  && nsame (trailOpacity a) (trailOpacity b)
  && String.eqb (backgroundColor a) (backgroundColor b)
  && String.eqb (swarmColor a) (swarmColor b)
  && same_shape (shape a) (shape b)
  && String.eqb (svgPathData a) (svgPathData b).

Definition with_settings (S : Settings num) (c : Component num)
    : Component num :=
  mkComponent S (svgError c) (particles c) (customSVGPath2D c)
    (animationFrameId c) (surface c) (viewport c) (listeners c)
    (effect_run c) (pending_frames c) (frame_handles c) (random_calls c)
    (ctx c).

(** The setters ([setFriction], ..., [applyPreset]) followed by the
    render they cause: the clean-up of an effect whose dependencies
    changed runs first, then the effects, in the order of the source. *)
Definition set_settings (S : Settings num) (c : Component num)
    : Component num :=
  let old := settings c in
  let c0 := with_settings S c in
  let c1 := if canvas_deps_same old S then c0 else canvas_cleanup c0 in
  let c2 := if svg_deps_same old S then c1 else svg_effect c1 in
  if canvas_deps_same old S then c2 else canvas_effect c2.

Definition with_svgPathData (d : string) (S : Settings num) : Settings num :=
  mkSettings (particleCount S) (velocityCap S) (repulsionRadius S)
    (attractionRadius S) (cohesionForce S) (friction S) (randomForce S)
    (rotationSpeed S) (trailOpacity S) (backgroundColor S) (swarmColor S)
    (shape S) d.

Definition with_svgError (e : string) (c : Component num) : Component num :=
  mkComponent (settings c) e (particles c) (customSVGPath2D c)
    (animationFrameId c) (surface c) (viewport c) (listeners c)
    (effect_run c) (pending_frames c) (frame_handles c) (random_calls c)
    (ctx c).

(** [handleSvgChange], for the value typed into the input. *)
Definition handleSvgChange (pathData : string) (c : Component num)
    : Component num :=
  let e := match new_Path2D pathData with
           | Some _ => EmptyString
           | None => svg_error_message
           end in
  set_settings (with_svgPathData pathData (settings c)) (with_svgError e c).

(** The component after its first render: the refs hold their initial
    values, then the path effect and the canvas effect run.  (The effect
    that loads a stored default preset only calls the setters: it is a
    [set_settings].) *)
Definition mount (S : Settings num) (vp : Viewport num) : Component num :=
  canvas_effect
    (svg_effect
       (mkComponent S EmptyString [] None None
          (mkSurface (or_one (devicePixelRatio vp)) n0 n0 n0 n0 n0 n0)
          vp [] 0%nat [] 0%nat 0%nat [])).

Definition run_listener (c : Component num) (l : Listener) : Component num :=
  match l with
  | resizeCanvas_of run =>
      if Nat.eqb run (effect_run c) then resizeCanvas c else c
  end.

(** The window is resized to [vp] and its "resize" listeners are called. *)
Definition resize_event (vp : Viewport num) (c : Component num)
    : Component num :=
  let c0 :=
    mkComponent (settings c) (svgError c) (particles c) (customSVGPath2D c)
      (animationFrameId c) (surface c) vp (listeners c) (effect_run c)
      (pending_frames c) (frame_handles c) (random_calls c) (ctx c) in
  fold_left run_listener (listeners c0) c0.

(** The browser runs the oldest scheduled frame callback. *)
Definition animation_frame (c : Component num) : Component num :=
  match pending_frames c with
  | [] => c
  | _ :: rest =>
      draw rnd
        (mkComponent (settings c) (svgError c) (particles c)
           (customSVGPath2D c) (animationFrameId c) (surface c)
           (viewport c) (listeners c) (effect_run c) rest
           (frame_handles c) (random_calls c) (ctx c))
  end.
End Effects.

(** ** Vocabulary of the statements *)

Section Geometry.
Context {num : Type} `{JsNumber num}.
Local Open Scope js_scope.

(** [d = Math.hypot(dx, dy)] for [p1] scanning [p2]. *)
Definition dist (p1 p2 : Particle num) : num :=
  hypot (x p2 - x p1) (y p2 - y p1).

(** [(dx / d, dy / d)]: the normalized direction from [p1] to [p2]. *)
Definition direction (p1 p2 : Particle num) : num * num :=
  ((x p2 - x p1) / dist p1 p2, (y p2 - y p1) / dist p1 p2).

(** Which arm of the inner loop's conditional runs at distance [d]. *)
Inductive Branch : Type := Coincident | Repulsion | Attraction | Beyond.

Definition branch (S : Settings num) (d : num) : Branch :=
  if d >? n0 then
    if d <? repulsionRadius S then Repulsion
    else if d <? attractionRadius S then Attraction
    else Beyond
  else Coincident.
End Geometry.

(** ** The force scan with division made partial

    The same code as [pair_force] and [force_scan], every [/] replaced by a
    division that fails on a zero divisor. *)

Section Checked.
Context {num : Type} `{JsNumber num}.
Local Open Scope js_scope.

Definition is_zero (v : num) : bool := negb ((v <? n0) || (n0 <? v)).

Definition checked_div (a b : num) : option num :=
  if is_zero b then None else Some (a / b).

Definition repul_checked (S : Settings num) (d : num) : option num :=
  checked_div (repulsionRadius S - d) (repulsionRadius S).

Definition attr_checked (S : Settings num) (d : num) : option num :=
  checked_div (d - repulsionRadius S) (attractionRadius S - repulsionRadius S).

Definition pair_force_checked (S : Settings num) (p1 p2 : Particle num)
    (f : num * num) : option (num * num) :=
  let dx := x p2 - x p1 in
  let dy := y p2 - y p1 in
  let d := hypot dx dy in
  if d >? n0 then
    if d <? repulsionRadius S then
      r ← repul_checked S d;
      ux ← checked_div dx d;
      uy ← checked_div dy d;
      Some (fst f - ux * r, snd f - uy * r)
    else if d <? attractionRadius S then
      a ← attr_checked S d;
      ux ← checked_div dx d;
      uy ← checked_div dy d;
      Some (fst f + ux * a * cohesionForce S,
            snd f + uy * a * cohesionForce S)
    else Some f
  else Some f.

Fixpoint force_scan_checked (S : Settings num) (i : nat) (p1 : Particle num)
    (ps : list (Particle num)) (j : nat) (f : num * num)
    : option (num * num) :=
  match ps with
  | [] => Some f
  | p2 :: rest =>
      f' ← (if Nat.eqb i j then Some f else pair_force_checked S p1 p2 f);
      force_scan_checked S i p1 rest (Datatypes.S j) f'
  end.
End Checked.

(** ** Vocabulary for the outer loop *)

Section Turns.
Context {num : Type} `{JsNumber num} `{PathApi}.
Variable rnd : nat -> num.

(** The component after the first [k] turns of the outer loop of [draw]. *)
Definition draw_turns (k : nat) (c : Component num) : Component num :=
  fold_left (draw_step rnd) (seq 0 k) c.

(** What the turn for index [i] makes of [p1], the pool and the count of
    [Math.random()] calls being those of [c] when the turn starts. *)
Definition moved (c : Component num) (i : nat) (p1 : Particle num)
    : Particle num :=
  integrate (settings c) (width (surface c)) (height (surface c))
    (accumulate (settings c) (particles c) i p1)
    (rnd (random_calls c)) (rnd (random_calls c + 1)) p1.
End Turns.

(** ** A stand-in for the browser's path parser

    Only used to run the examples: a string is accepted when it is made of
    the commands M, L, Z (in either case), digits, spaces, signs, dots and
    commas. *)
Definition sample_char (c : ascii) : bool :=
  existsb (Ascii.eqb c) (list_ascii_of_string "MLZmlz0123456789 .-,").

Fixpoint sample_valid (s : string) : bool :=
  match s with
  | EmptyString => true
  | String c rest => sample_char c && sample_valid rest
  end.

#[export] Instance SamplePath : PathApi := {|
  Path2D := string;
  new_Path2D := fun d => if sample_valid d then Some d else None
|}.

(** ** Sample inputs *)

(** The two-particle configuration: two particles at rest, ten units
    apart, under pure repulsion. *)
Definition two_body : Settings R :=
  mkSettings 2 100%R 40%R 120%R 0%R 1%R 0%R 0%R (1 / 20)%R
    "#000000" "#FF69B4" line "M0 -1 L1 0 L0 1".

Definition origin : Particle R := mkParticle 0%R 0%R 0%R 0%R 0%R.
Definition at10 : Particle R := mkParticle 10%R 0%R 0%R 0%R 0%R.
Definition at80 : Particle R := mkParticle 80%R 0%R 0%R 0%R 0%R.

(** The default radii with a cohesion force of one half. *)
Definition cohesive : Settings R :=
  mkSettings 2 100%R 40%R 120%R (1 / 2)%R 1%R 0%R 0%R (1 / 20)%R
    "#000000" "#FF69B4" line "M0 -1 L1 0 L0 1".

(** A particle sitting exactly on the right edge of an 800 x 600 surface,
    and one moving at speed 5. *)
Definition on_edge : Particle R := mkParticle 800%R 300%R 0%R 0%R 0%R.
Definition fast : Particle R := mkParticle 0%R 0%R 3%R 4%R 0%R.

(** The default settings of the component. *)
Definition defaults : Settings R :=
  mkSettings 2222 (3 / 2)%R 40%R 120%R (5 / 1000)%R (98 / 100)%R (1 / 100)%R
    (2 / 100)%R (5 / 100)%R "#000000" "#FF69B4" line "M0 -1 L1 0 L0 1".

(** Radii the wrong way round: the attraction radius below the repulsion
    radius. *)
Definition inverted : Settings R :=
  mkSettings 2 100%R 120%R 40%R (1 / 2)%R 1%R 0%R 0%R (1 / 20)%R
    "#000000" "#FF69B4" line "M0 -1 L1 0 L0 1".

(** An 800 x 600 container at device pixel ratio 1, and the component
    running on it with the two particles of the two-body configuration in
    its pool. *)
Definition viewport_800x600 : Viewport R := mkViewport 1%R 800%R 600%R.
Definition surface_800x600 : Surface R :=
  mkSurface 1%R 800%R 600%R 800%R 600%R 800%R 600%R.

Definition two_body_scene : Component R :=
  mkComponent two_body EmptyString [origin; at10] None (Some 1%nat) surface_800x600
    viewport_800x600 [resizeCanvas_of 1] 1%nat [1%nat] 1%nat 6%nat [].



(** A source of random numbers for the examples. *)
Definition coin : nat -> R := fun _ => (1 / 2)%R.

(** The container after it has shrunk to 400 x 300. *)
Definition viewport_400x300 : Viewport R := mkViewport 1%R 400%R 300%R.

(** Random numbers that are all nine tenths, and random numbers that grow
    by a thousandth with each call. *)
Definition high : nat -> R := fun _ => (9 / 10)%R.
Definition ramp : nat -> R := fun k => (IZR (Z.of_nat k) / 1000)%R.

(** One particle drawn as the custom path. *)
Definition custom : Settings R :=
  mkSettings 1 (3 / 2)%R 40%R 120%R (5 / 1000)%R (98 / 100)%R (1 / 100)%R
    (2 / 100)%R (5 / 100)%R "#000000" "#FF69B4" customSVG "M0 -1 L1 0 L0 1".

(** The component mounted with the custom shape on the 800 x 600
    container, and two strings for its path input: one the stand-in parser
    rejects, one it accepts. *)
Definition custom_mounted : Component R := mount ramp custom viewport_800x600.
Definition bad_path : string := "Z Z Z (".
Definition good_path : string := "M1 0 L0 1 Z".

(** A particle at rest at [(1, 1)], in binary64, under settings whose
    friction is NaN and under the same settings with friction 0. *)
Definition resting : Particle float := mkParticle 1%float 1%float 0%float 0%float 0%float.

Definition nan_friction : Settings float :=
  mkSettings 1 1.5%float 40%float 120%float 0.5%float nan 0%float 0.25%float
    0.25%float "#000000" "#FF69B4" line "M0 -1 L1 0 L0 1".

Definition zero_friction : Settings float :=
  mkSettings 1 1.5%float 40%float 120%float 0.5%float 0%float 0%float
    0.25%float 0.25%float "#000000" "#FF69B4" line "M0 -1 L1 0 L0 1".

Definition resting_scene (S : Settings float) : Component float :=
  mkComponent S EmptyString [resting] None (Some 1%nat)
    (mkSurface 1 800 600 800 600 800 600)%float
    (mkViewport 1 800 600)%float
    [resizeCanvas_of 1] 1%nat [1%nat] 1%nat 3%nat [].

Definition fair : nat -> float := fun _ => 0.5%float.

(** A velocity cap of one tenth, in binary64, and a particle that moves
    at eleven units a frame along the first axis. *)
Definition tenth_cap : Settings float :=
  mkSettings 1 0x1.999999999999ap-4%float 40%float 120%float 0%float 1%float
    0%float 0%float 0.25%float "#000000" "#FF69B4" line "M0 -1 L1 0 L0 1".

Definition eleven : Particle float :=
  mkParticle 0%float 0%float 11%float 0%float 0%float.

(** The two-body configuration in binary64. *)
Definition two_body_float : Settings float :=
  mkSettings 2 100%float 40%float 120%float 0%float 1%float 0%float 0%float
    0.25%float "#000000" "#FF69B4" line "M0 -1 L1 0 L0 1".

Definition two_body_scene_float : Component float :=
  mkComponent two_body_float EmptyString
    [mkParticle 0 0 0 0 0; mkParticle 10 0 0 0 0]%float None (Some 1%nat)
    (mkSurface 1 800 600 800 600 800 600)%float
    (mkViewport 1 800 600)%float
    [resizeCanvas_of 1] 1%nat [1%nat] 1%nat 6%nat [].

(** The custom shape in binary64, with random numbers that grow by 1/64
    with each call. *)
Definition custom_float : Settings float :=
  mkSettings 1 1.5%float 40%float 120%float 0.5%float 0.5%float 0%float
    0.25%float 0.25%float "#000000" "#FF69B4" customSVG "M0 -1 L1 0 L0 1".

Fixpoint steps (k : nat) : float :=
  match k with
  | O => 0%float
  | Datatypes.S k' => (steps k' + 0.015625)%float
  end.

(** ** The events the mounted component reacts to *)

Section Events.
Context {num : Type} `{JsNumber num} `{PathApi}.
Variable rnd : nat -> num.

Inductive Event : Type :=
| Resized (vp : Viewport num)      (* the window fires "resize" *)
| FrameDue                         (* the browser runs a frame callback *)
| SettingsSet (cfg : Settings num) (* the setters, applyPreset *)
| SvgTyped (d : string).           (* the path input changes *)

Definition react (c : Component num) (e : Event) : Component num :=
  match e with
  | Resized vp => resize_event vp c
  | FrameDue => animation_frame rnd c
  | SettingsSet cfg => set_settings rnd cfg c
  | SvgTyped d => handleSvgChange rnd d c
  end.

(** The component after the events [es], oldest first. *)
Definition after (es : list Event) (c : Component num) : Component num :=
  fold_left react es c.

(** What [resizeCanvas] makes of a container. *)
Definition surface_of (vp : Viewport num) : Surface num :=
  mkSurface (or_one (devicePixelRatio vp)) (clientWidth vp) (clientHeight vp)
    (nattr 300 (nmul (clientWidth vp) (or_one (devicePixelRatio vp))))
    (nattr 150 (nmul (clientHeight vp) (or_one (devicePixelRatio vp))))
    (clientWidth vp) (clientHeight vp).

(** The compiled path and the error message that belong to a path string. *)
Definition compiled (d : string) : option Path2D * string :=
  match new_Path2D d with
  | Some path => (Some path, EmptyString)
  | None => (None, svg_error_message)
  end.

(** [k] calls of [draw] in a row. *)
Definition ticks (k : nat) (c : Component num) : Component num :=
  Nat.iter k (draw rnd) c.
End Events.
Arguments Event : clear implicits.

(** ** The velocity cap with division made partial *)

Section CheckedCap.
Context {num : Type} `{JsNumber num}.
Local Open Scope js_scope.

Definition velocity_cap_checked (S : Settings num) (p1 : Particle num)
    : option (Particle num) :=
  if speed p1 >? velocityCap S then
    ratio ← checked_div (velocityCap S) (speed p1);
    Some (mkParticle (x p1) (y p1) (vx p1 * ratio) (vy p1 * ratio)
            (rotation p1))
  else Some p1.
End CheckedCap.

(** ** Vocabulary for forces and for the canvas log *)

Section Sums.
Context {num : Type} `{JsNumber num}.
Local Open Scope js_scope.

Definition vadd (f g : num * num) : num * num :=
  (fst f + fst g, snd f + snd g).

(** The force [p1] receives from [p2] alone. *)
Definition contribution (S : Settings num) (p1 p2 : Particle num) : num * num :=
  pair_force S p1 p2 (n0, n0).

Definition sum_forces (fs : list (num * num)) : num * num :=
  fold_right vadd (n0, n0) fs.
End Sums.

Section Nesting.
Context {num : Type} `{PathApi}.

(** The depth of the stack of saved drawing states after the commands
    [cmds], starting from depth [d]; [None] when a [restore] finds the
    stack empty. *)
Fixpoint save_depth (cmds : list (DrawCmd num)) (d : nat) : option nat :=
  match cmds with
  | [] => Some d
  | Save :: rest => save_depth rest (Datatypes.S d)
  | Restore :: rest =>
      match d with
      | O => None
      | Datatypes.S d' => save_depth rest d'
      end
  | _ :: rest => save_depth rest d
  end.
End Nesting.

(** ** What holds of the mounted component at all times *)

Section Invariants.
Context {num : Type} `{JsNumber num} `{PathApi}.

(** One listener, that of the current run of the canvas effect, and one
    scheduled frame, the one whose handle is in [animationFrameId.current]. *)
Definition running (c : Component num) : Prop :=
  listeners c = [resizeCanvas_of (effect_run c)]
  /\ animationFrameId c = Some (frame_handles c)
  /\ pending_frames c = [frame_handles c].

(** When the custom shape is drawn, the cached path and the error message
    are those of the current path string. *)
Definition path_in_step (c : Component num) : Prop :=
  shape (settings c) = customSVG ->
  (customSVGPath2D c, svgError c) = compiled (svgPathData (settings c)).
End Invariants.

Section WellFormed.
Context {num : Type} `{JsNumber num} `{PathApi}.

Definition well_formed (c : Component num) : Prop :=
  running c
  /\ surface c = surface_of (viewport c)
  /\ length (particles c) = particleCount (settings c)
  /\ path_in_step c.
End WellFormed.

(** A particle count [Array.from] takes as it is: below [2 ^ 32], where it
    throws; and an event that sets no other. *)
Definition count_in_range (n : nat) : Prop := (Z.of_nat n < 2 ^ 32)%Z.

Definition count_allowed {num : Type} (e : Event num) : Prop :=
  match e with
  | SettingsSet cfg => count_in_range (particleCount cfg)
  | _ => True
  end.

(** An event that does not set a negative velocity cap. *)
Definition cap_allowed (e : Event R) : Prop :=
  match e with
  | SettingsSet cfg => (0 <= velocityCap cfg)%R
  | _ => True
  end.

(** Events for the examples: a frame, a shrunk window, a new path string,
    two more frames. *)
Definition busy_day : list (Event R) :=
  [FrameDue; Resized viewport_400x300; SvgTyped bad_path; FrameDue; FrameDue].

(** A frame, the default settings (2222 particles), a frame. *)
Definition recount : list (Event R) :=
  [FrameDue; SettingsSet defaults; FrameDue].

(** The velocity cap is not negative and no particle is faster. *)
Definition speed_ok {P : PathApi} (c : Component R) : Prop :=
  (0 <= velocityCap (settings c))%R
  /\ forall (i : nat) (p : Particle R),
       particles c !! i = Some p -> (speed p <= velocityCap (settings c))%R.

(** ** Randomize *)

(** What [randomizeSettings] applies to numbers beyond [JsNumber]: integer
    literals and [Math.floor]. *)
Class JsMath (num : Type) : Type := {
  of_Z : Z -> num;               (* the number an integer literal denotes *)
  nfloor : num -> Z              (* Math.floor(v), for a finite v *)
}.

#[export] Instance RMath : JsMath R := {| of_Z := IZR; nfloor := Int_part |}.

Definition Ffloor (v : float) : Z :=
  match Prim2SF v with
  | S754_finite s m e =>
      let n := if s then Z.neg m else Z.pos m in
      if (0 <=? e)%Z then (n * 2 ^ e)%Z else (n / 2 ^ (- e))%Z
  | _ => 0%Z
  end.

#[export] Instance FMath : JsMath float := {| of_Z := Fof_Z; nfloor := Ffloor |}.

(** [n.toString(16)] for an integer [n >= 0]: lower-case digits, no leading
    zero. *)
Definition hex_char (d : Z) : ascii :=
  if (d <? 10)%Z then ascii_of_nat (Z.to_nat (d + 48))
  else ascii_of_nat (Z.to_nat (d + 87)).

Fixpoint to_hex_digits (fuel : nat) (n : Z) (acc : string) : string :=
  match fuel with
  | O => acc
  | Datatypes.S fuel' =>
      let acc' := String (hex_char (n mod 16)) acc in
      if (n / 16 =? 0)%Z then acc' else to_hex_digits fuel' (n / 16) acc'
  end.

Definition to_hex (n : Z) : string :=
  to_hex_digits (Datatypes.S (Z.to_nat (Z.log2 n))) n EmptyString.

(** [s.padStart(n, c)] for a pad of one character. *)
Fixpoint repeat_char (n : nat) (c : ascii) (s : string) : string :=
  match n with
  | O => s
  | Datatypes.S n' => String c (repeat_char n' c s)
  end.

Definition padStart (n : nat) (c : ascii) (s : string) : string :=
  repeat_char (n - String.length s) c s.

(** The state [randomizerOptions]: which settings the button redraws. *)
Record RandomizerOptions : Type := mkRandomizerOptions {
  opt_particleCount : bool;
  opt_velocityCap : bool;
  opt_repulsionRadius : bool;
  opt_attractionRadius : bool;
  opt_cohesionForce : bool;
  opt_friction : bool;
  opt_randomForce : bool;
  opt_rotationSpeed : bool;
  opt_trailOpacity : bool;
  opt_backgroundColor : bool;
  opt_swarmColor : bool;
  opt_shape : bool;
  opt_svgPathData : bool
}.

Section Randomize.
Context {num : Type} `{JsNumber num} `{JsMath num} `{PathApi}.
Local Open Scope js_scope.

Variable rnd : nat -> num.

(** What a template literal makes of a number. *)
Variable text_of : num -> string.

(** A computation that calls [Math.random()]: from the number of calls made
    so far to a result and the number of calls made then. *)
Definition Rand (A : Type) : Type := nat -> A * nat.

Definition rand_ret {A : Type} (a : A) : Rand A := fun k => (a, k).

Definition rand_bind {A B : Type} (m : Rand A) (f : A -> Rand B) : Rand B :=
  fun k => f (fst (m k)) (snd (m k)).

Local Notation "x <-- m ;; k" := (rand_bind m (fun x => k))
  (at level 100, m at next level, right associativity).

(** [Math.random()] *)
Definition random : Rand num := fun k => (rnd k, Datatypes.S k).

(** A decimal literal: [lit m e] is [m] divided by ten to the [e]. *)
Definition lit (m : Z) (e : nat) : num := of_Z m / of_Z (10 ^ Z.of_nat e).

(** [randomizerOptions.f ? fresh : f] *)
Definition choose {A : Type} (on : bool) (fresh : Rand A) (old : A) : Rand A :=
  if on then fresh else rand_ret old.

(** ["#" + Math.floor(Math.random() * 16777215).toString(16).padStart(6, "0")] *)
Definition randHex : Rand string :=
  r <-- random ;;
  rand_ret (String "#" (padStart 6 "0" (to_hex (nfloor (r * of_Z 16777215))))).

(** [["circle", "square", "line", "customSVG"][Math.floor(Math.random() * 4)]];
    [None] is [undefined]. *)
Definition random_shape : Rand (option Shape) :=
  r <-- random ;;
  rand_ret (match nfloor (r * of_Z 4) with
            | Z.neg _ => None
            | z => [circle; square; line; customSVG] !! Z.to_nat z
            end).

(** The template literal of [svgPathData]. *)
Definition random_path : Rand string :=
  a <-- random ;; b <-- random ;; c <-- random ;;
  d <-- random ;; e <-- random ;; f <-- random ;;
  rand_ret
    (String.concat EmptyString
       [String "M" (text_of (a * n2)); String " " (text_of (b * n2));
        String " " (String "L" (text_of (c * n2))); String " " (text_of (d * n2));
        String " " (String "L" (text_of (e * n2))); String " " (text_of (f * n2))]).

(** The object [newSettings]; its properties are evaluated in the order
    they are written.  [None]: [shape] would be [undefined]. *)
Definition newSettings (o : RandomizerOptions) (S : Settings num)
    : Rand (option (Settings num)) :=
  pc <-- choose (opt_particleCount o)
           (r <-- random ;;
            rand_ret (Z.to_nat (nfloor (r * of_Z 4000) + 1000)))
           (particleCount S) ;;
  vc <-- choose (opt_velocityCap o)
           (r <-- random ;; rand_ret (r * n2 + nhalf)) (velocityCap S) ;;
  rr <-- choose (opt_repulsionRadius o)
           (r <-- random ;; rand_ret (r * of_Z 80 + of_Z 20))
           (repulsionRadius S) ;;
  ar <-- choose (opt_attractionRadius o)
           (r <-- random ;; rand_ret (r * of_Z 200 + of_Z 80))
           (attractionRadius S) ;;
  cf <-- choose (opt_cohesionForce o)
           (r <-- random ;; rand_ret (r * lit 1 2 + lit 1 3))
           (cohesionForce S) ;;
  fr <-- choose (opt_friction o)
           (r <-- random ;; rand_ret (r * lit 1 1 + lit 9 1)) (friction S) ;;
  rf <-- choose (opt_randomForce o)
           (r <-- random ;; rand_ret (r * lit 2 2 + lit 5 3))
           (randomForce S) ;;
  rs <-- choose (opt_rotationSpeed o)
           (r <-- random ;; rand_ret (r * lit 5 2)) (rotationSpeed S) ;;
  tr <-- choose (opt_trailOpacity o)
           (r <-- random ;; rand_ret (r * lit 1 1)) (trailOpacity S) ;;
  bg <-- choose (opt_backgroundColor o) randHex (backgroundColor S) ;;
  sw <-- choose (opt_swarmColor o) randHex (swarmColor S) ;;
  sh <-- choose (opt_shape o) random_shape (Some (shape S)) ;;
  pd <-- choose (opt_svgPathData o) random_path (svgPathData S) ;;
  rand_ret
    (option_map (fun s => mkSettings pc vc rr ar cf fr rf rs tr bg sw s pd) sh).

Definition with_random_calls (k : nat) (c : Component num) : Component num :=
  mkComponent (settings c) (svgError c) (particles c) (customSVGPath2D c)
    (animationFrameId c) (surface c) (viewport c) (listeners c)
    (effect_run c) (pending_frames c) (frame_handles c) k (ctx c).

(** [randomizeSettings]: the new settings are drawn, then [applyPreset]
    sets them. *)
Definition randomizeSettings (o : RandomizerOptions) (c : Component num)
    : option (Component num) :=
  let drawn := newSettings o (settings c) (random_calls c) in
  option_map (fun S' => set_settings rnd S' (with_random_calls (snd drawn) c))
    (fst drawn).
End Randomize.

(** No option ticked, every option ticked, only the background colour
    ticked. *)
Definition no_options : RandomizerOptions :=
  mkRandomizerOptions false false false false false false false false false
    false false false false.

Definition all_options : RandomizerOptions :=
  mkRandomizerOptions true true true true true true true true true true true
    true true.

Definition only_background : RandomizerOptions :=
  mkRandomizerOptions false false false false false false false false false
    true false false false.

(** * Properties over the real numbers *)

Local Open Scope R_scope.

(** ** Comparisons and [hypot] *)

Lemma Rltb_true (a b : R) : a < b -> Rltb a b = true.
Proof. intros Hab. unfold Rltb. destruct (Rlt_dec a b); [reflexivity | contradiction]. Qed.

Lemma Rltb_false (a b : R) : b <= a -> Rltb a b = false.
Proof. intros Hba. unfold Rltb. destruct (Rlt_dec a b); [lra | reflexivity]. Qed.

Lemma Rltb_true_inv (a b : R) : Rltb a b = true -> a < b.
Proof. unfold Rltb. destruct (Rlt_dec a b); [trivial | discriminate]. Qed.

Lemma Rltb_false_inv (a b : R) : Rltb a b = false -> b <= a.
Proof. unfold Rltb. destruct (Rlt_dec a b); [discriminate | lra]. Qed.

Lemma Reqb_refl (a : R) : Reqb a a = true.
Proof. unfold Reqb. destruct (Req_dec_T a a); [reflexivity | contradiction]. Qed.

Lemma sum_sqr_nonneg (a b : R) : 0 <= a * a + b * b.
Proof. nra. Qed.

Lemma Rhypot_nonneg (a b : R) : 0 <= Rhypot a b.
Proof. apply sqrt_pos. Qed.

Lemma Rhypot_sqr (a b : R) : Rhypot a b * Rhypot a b = a * a + b * b.
Proof. apply sqrt_sqrt, sum_sqr_nonneg. Qed.

Lemma Rhypot_zero (a b : R) : Rhypot a b = 0 -> a = 0 /\ b = 0.
Proof.
  intros Hz. pose proof (Rhypot_sqr a b) as Hs. rewrite Hz in Hs.
  split; nra.
Qed.

Lemma Rhypot_scale (a b r : R) : 0 <= r -> Rhypot (a * r) (b * r) = Rhypot a b * r.
Proof.
  intros Hr. unfold Rhypot.
  replace (a * r * (a * r) + b * r * (b * r)) with ((a * a + b * b) * (r * r)) by ring.
  rewrite sqrt_mult_alt by apply sum_sqr_nonneg.
  now rewrite sqrt_square.
Qed.

Lemma Rhypot_opp (a b : R) : Rhypot (- a) (- b) = Rhypot a b.
Proof. unfold Rhypot. f_equal. ring. Qed.

Lemma Rhypot_axis (a : R) : 0 <= a -> Rhypot a 0 = a.
Proof.
  intros Ha. unfold Rhypot.
  replace (a * a + 0 * 0) with (a * a) by ring. now apply sqrt_square.
Qed.

(** The normalized direction has length one whenever the distance is not
    zero. *)
Lemma Rhypot_normalized (a b : R) :
  0 < Rhypot a b -> Rhypot (a / Rhypot a b) (b / Rhypot a b) = 1.
Proof.
  intros Hd. unfold Rdiv. rewrite Rhypot_scale.
  - field. lra.
  - left. now apply Rinv_0_lt_compat.
Qed.

(** ** The arms of the inner loop *)

Ltac js_unfold :=
  cbn [n0 n1 n2 n4 n5 nhalf nPI nadd nsub nmul ndiv nopp nltb hypot nsame
       RNumber] in *.

Lemma pair_force_branch (S : Settings R) (p1 p2 : Particle R) (f : R * R) :
  pair_force S p1 p2 f =
  match branch S (dist p1 p2) with
  | Coincident | Beyond => f
  | Repulsion =>
      (fst f - fst (direction p1 p2) * repul S (dist p1 p2),
       snd f - snd (direction p1 p2) * repul S (dist p1 p2))
  | Attraction =>
      (fst f + fst (direction p1 p2) * attr S (dist p1 p2) * cohesionForce S,
       snd f + snd (direction p1 p2) * attr S (dist p1 p2) * cohesionForce S)
  end.
Proof.
  unfold pair_force, branch, direction, dist. cbn [fst snd].
  destruct (nltb n0 _); [ | reflexivity].
  destruct (nltb _ (repulsionRadius S)); [reflexivity | ].
  destruct (nltb _ (attractionRadius S)); reflexivity.
Qed.

Lemma branch_Repulsion (S : Settings R) (d : R) :
  branch S d = Repulsion <-> 0 < d < repulsionRadius S.
Proof.
  unfold branch. js_unfold. split.
  - destruct (Rltb 0 d) eqn:H0; [ | discriminate].
    destruct (Rltb d (repulsionRadius S)) eqn:H1.
    + intros _. split; now apply Rltb_true_inv.
    + destruct (Rltb d (attractionRadius S)); discriminate.
  - intros [H0 H1]. now rewrite (Rltb_true H0), (Rltb_true H1).
Qed.

Lemma branch_Attraction (S : Settings R) (d : R) :
  branch S d = Attraction <->
  0 < d /\ repulsionRadius S <= d < attractionRadius S.
Proof.
  unfold branch. js_unfold. split.
  - destruct (Rltb 0 d) eqn:H0; [ | discriminate].
    destruct (Rltb d (repulsionRadius S)) eqn:H1; [discriminate | ].
    destruct (Rltb d (attractionRadius S)) eqn:H2; [ | discriminate].
    intros _. repeat split.
    + now apply Rltb_true_inv.
    + now apply Rltb_false_inv.
    + now apply Rltb_true_inv.
  - intros (H0 & H1 & H2).
    now rewrite (Rltb_true H0), (Rltb_false H1), (Rltb_true H2).
Qed.

Lemma branch_Coincident (S : Settings R) (d : R) :
  branch S d = Coincident <-> d <= 0.
Proof.
  unfold branch. js_unfold. split.
  - destruct (Rltb 0 d) eqn:H0.
    + destruct (Rltb d (repulsionRadius S)); [discriminate | ].
      destruct (Rltb d (attractionRadius S)); discriminate.
    + intros _. now apply Rltb_false_inv.
  - intros H0. now rewrite (Rltb_false H0).
Qed.

Lemma branch_Beyond (S : Settings R) (d : R) :
  branch S d = Beyond <->
  0 < d /\ repulsionRadius S <= d /\ attractionRadius S <= d.
Proof.
  unfold branch. js_unfold. split.
  - destruct (Rltb 0 d) eqn:H0; [ | discriminate].
    destruct (Rltb d (repulsionRadius S)) eqn:H1; [discriminate | ].
    destruct (Rltb d (attractionRadius S)) eqn:H2; [discriminate | ].
    intros _. repeat split.
    + now apply Rltb_true_inv.
    + now apply Rltb_false_inv.
    + now apply Rltb_false_inv.
  - intros (H0 & H1 & H2).
    now rewrite (Rltb_true H0), (Rltb_false H1), (Rltb_false H2).
Qed.

Lemma dist_nonneg (p1 p2 : Particle R) : 0 <= dist p1 p2.
Proof. apply Rhypot_nonneg. Qed.

Lemma direction_unit (p1 p2 : Particle R) :
  0 < dist p1 p2 ->
  Rhypot (fst (direction p1 p2)) (snd (direction p1 p2)) = 1.
Proof. intros Hd. unfold direction. cbn [fst snd]. js_unfold. now apply Rhypot_normalized. Qed.

(** At distance zero both components of the direction are zero. *)
Lemma direction_coincident (p1 p2 : Particle R) :
  dist p1 p2 <= 0 -> direction p1 p2 = (0, 0).
Proof.
  intros Hd. pose proof (dist_nonneg p1 p2) as Hn.
  assert (Hz : dist p1 p2 = 0) by lra.
  unfold direction. rewrite Hz.
  unfold dist in Hz. js_unfold. apply Rhypot_zero in Hz as [-> ->].
  unfold Rdiv. now rewrite !Rmult_0_l.
Qed.

(** ** Repulsion *)

Lemma dist_origin_at10 : dist origin at10 = 10.
Proof.
  unfold dist, origin, at10. cbn [x y]. js_unfold.
  replace (10 - 0) with 10 by ring. replace (0 - 0) with 0 by ring.
  apply Rhypot_axis. lra.
Qed.

Lemma direction_origin_at10 : direction origin at10 = (1, 0).
Proof.
  unfold direction. rewrite dist_origin_at10.
  unfold origin, at10. cbn [x y]. js_unfold. f_equal; field.
Qed.

Lemma repul_decreasing (S : Settings R) (d1 d2 : R) :
  d1 < d2 -> d2 < repulsionRadius S -> 0 <= d1 ->
  repul S d2 < repul S d1.
Proof.
  intros H12 H2 H1. unfold repul. js_unfold.
  assert (Hr : 0 < repulsionRadius S) by lra.
  apply Rmult_lt_compat_r; [now apply Rinv_0_lt_compat | lra].
Qed.

Lemma repul_range (S : Settings R) (d : R) :
  0 < d < repulsionRadius S -> 0 < repul S d < 1.
Proof.
  intros [H0 H1]. unfold repul. js_unfold.
  assert (Hr : 0 < repulsionRadius S) by lra.
  split.
  - apply Rdiv_lt_0_compat; lra.
  - apply Rmult_lt_reg_r with (repulsionRadius S); [assumption | ].
    unfold Rdiv. rewrite Rmult_assoc, Rinv_l by lra. lra.
Qed.

(** The three regimes of the scan, by distance. *)
Lemma pair_force_repel (S : Settings R) (p1 p2 : Particle R) (f : R * R) :
  dist p1 p2 < repulsionRadius S ->
  pair_force S p1 p2 f =
    (fst f - fst (direction p1 p2) * repul S (dist p1 p2),
     snd f - snd (direction p1 p2) * repul S (dist p1 p2)).
Proof.
  intros Hlt. rewrite pair_force_branch.
  destruct (Rle_or_lt (dist p1 p2) 0) as [Hz | Hpos].
  - rewrite (proj2 (branch_Coincident S (dist p1 p2)) Hz).
    rewrite (direction_coincident p1 p2 Hz). cbn [fst snd]. js_unfold.
    destruct f as [fx fy]. cbn [fst snd]. f_equal; ring.
  - now rewrite (proj2 (branch_Repulsion S (dist p1 p2)) (conj Hpos Hlt)).
Qed.

Lemma pair_force_attract (S : Settings R) (p1 p2 : Particle R) (f : R * R) :
  repulsionRadius S <= dist p1 p2 -> dist p1 p2 < attractionRadius S ->
  pair_force S p1 p2 f =
    (fst f + fst (direction p1 p2) * attr S (dist p1 p2) * cohesionForce S,
     snd f + snd (direction p1 p2) * attr S (dist p1 p2) * cohesionForce S).
Proof.
  intros Hge Har. rewrite pair_force_branch.
  destruct (Rle_or_lt (dist p1 p2) 0) as [Hz | Hpos].
  - rewrite (proj2 (branch_Coincident S (dist p1 p2)) Hz).
    rewrite (direction_coincident p1 p2 Hz). cbn [fst snd]. js_unfold.
    destruct f as [fx fy]. cbn [fst snd]. f_equal; ring.
  - now rewrite (proj2 (branch_Attraction S (dist p1 p2))
                   (conj Hpos (conj Hge Har))).
Qed.

Lemma pair_force_beyond (S : Settings R) (p1 p2 : Particle R) (f : R * R) :
  repulsionRadius S <= dist p1 p2 -> attractionRadius S <= dist p1 p2 ->
  pair_force S p1 p2 f = f.
Proof.
  intros Hge Har. rewrite pair_force_branch.
  destruct (Rle_or_lt (dist p1 p2) 0) as [Hz | Hpos].
  - now rewrite (proj2 (branch_Coincident S (dist p1 p2)) Hz).
  - now rewrite (proj2 (branch_Beyond S (dist p1 p2)) (conj Hpos (conj Hge Har))).
Qed.

(** C1, as the code has it: for [0 < d < repulsionRadius] the force that
    scanning [p2] accumulates into [(fx, fy)] of [p1] is [repul d] times
    the normalized direction from [p1] to [p2], SUBTRACTED: it points from
    [p2] towards [p1], opposite to the i-to-j direction, and its length is
    [(repulsionRadius - d) / repulsionRadius], a number strictly between 0
    and 1.  That magnitude decreases strictly in [d] over
    [[0, repulsionRadius)].  From [d = repulsionRadius] on no repulsion is
    applied: the accumulators are left alone, or receive the attraction
    term only. *)
Theorem repulsion_points_away (S : Settings R) (p1 p2 : Particle R) (f : R * R) :
  (0 < dist p1 p2 < repulsionRadius S ->
     pair_force S p1 p2 f =
       (fst f - fst (direction p1 p2) * repul S (dist p1 p2),
        snd f - snd (direction p1 p2) * repul S (dist p1 p2))
     /\ Rhypot (fst (direction p1 p2)) (snd (direction p1 p2)) = 1
     /\ Rhypot (fst (direction p1 p2) * repul S (dist p1 p2))
               (snd (direction p1 p2) * repul S (dist p1 p2))
        = repul S (dist p1 p2)
     /\ 0 < repul S (dist p1 p2) < 1)
  /\ (forall d1 d2 : R,
        0 <= d1 -> d1 < d2 -> d2 < repulsionRadius S ->
        repul S d2 < repul S d1)
  /\ (repulsionRadius S <= dist p1 p2 ->
        (attractionRadius S <= dist p1 p2 -> pair_force S p1 p2 f = f)
        /\ (dist p1 p2 < attractionRadius S ->
             pair_force S p1 p2 f =
               (fst f + fst (direction p1 p2) * attr S (dist p1 p2)
                        * cohesionForce S,
                snd f + snd (direction p1 p2) * attr S (dist p1 p2)
                        * cohesionForce S))).
Proof.
  split; [ | split].
  - intros Hd. pose proof (repul_range S Hd) as Hr.
    split; [ | split; [ | split]].
    + apply pair_force_repel. lra.
    + apply direction_unit. lra.
    + rewrite Rhypot_scale by lra.
      rewrite direction_unit by lra. ring.
    + exact Hr.
  - intros d1 d2 H1 H12 H2. now apply repul_decreasing.
  - intros Hge. split; intros Har.
    + now apply pair_force_beyond.
    + now apply pair_force_attract.
Qed.

Lemma repulsion_points_away_witness :
  0 < dist origin at10 < repulsionRadius two_body
  /\ pair_force two_body origin at10 (0, 0) =
       (fst (0, 0) - fst (direction origin at10) * repul two_body (dist origin at10),
        snd (0, 0) - snd (direction origin at10) * repul two_body (dist origin at10)).
Proof.
  assert (Hd : 0 < dist origin at10 < repulsionRadius two_body).
  { rewrite dist_origin_at10. unfold two_body. cbn [repulsionRadius]. lra. }
  split; [exact Hd | ].
  exact (proj1 (proj1 (repulsion_points_away two_body origin at10 (0, 0)) Hd)).
Defined.

Lemma repul_two_body_10 : repul two_body 10 = 3 / 4.
Proof. unfold repul, two_body. cbn [repulsionRadius]. js_unfold. field. Qed.

Lemma pair_force_origin_at10 :
  pair_force two_body origin at10 (0, 0) = (- (3 / 4), 0).
Proof.
  rewrite pair_force_branch.
  assert (Hb : branch two_body (dist origin at10) = Repulsion).
  { apply branch_Repulsion. rewrite dist_origin_at10.
    unfold two_body. cbn [repulsionRadius]. lra. }
  rewrite Hb, direction_origin_at10, dist_origin_at10, repul_two_body_10.
  cbn [fst snd]. js_unfold. f_equal; lra.
Qed.

(** C1 as worded fails: at distance 10, inside the repulsion radius 40,
    the direction from the scanning particle to its neighbour is [(1, 0)]
    and the magnitude is 3/4, but the force accumulated is [(-3/4, 0)], not
    3/4 times that direction. *)
Lemma repulsion_toward_neighbour_fails :
  0 < dist origin at10 < repulsionRadius two_body
  /\ direction origin at10 = (1, 0)
  /\ repul two_body (dist origin at10) = 3 / 4
  /\ pair_force two_body origin at10 (0, 0) = (- (3 / 4), 0)
  /\ pair_force two_body origin at10 (0, 0) <>
       (0 + fst (direction origin at10) * repul two_body (dist origin at10),
        0 + snd (direction origin at10) * repul two_body (dist origin at10)).
Proof.
  split; [ | split; [ | split; [ | split]]].
  - rewrite dist_origin_at10. unfold two_body. cbn [repulsionRadius]. lra.
  - exact direction_origin_at10.
  - rewrite dist_origin_at10. exact repul_two_body_10.
  - exact pair_force_origin_at10.
  - rewrite pair_force_origin_at10, direction_origin_at10, dist_origin_at10,
      repul_two_body_10. cbn [fst snd].
    intros Heq. injection Heq as Hx _. lra.
Qed.


(** ** Attraction *)

Lemma Rhypot_scale_abs (a b r : R) : Rhypot (a * r) (b * r) = Rhypot a b * Rabs r.
Proof.
  destruct (Rle_or_lt 0 r) as [Hr | Hr].
  - rewrite Rabs_right by lra. now apply Rhypot_scale.
  - rewrite Rabs_left by assumption.
    rewrite <- (Rhypot_opp (a * r) (b * r)).
    replace (- (a * r)) with (a * - r) by ring.
    replace (- (b * r)) with (b * - r) by ring.
    apply Rhypot_scale. lra.
Qed.

Lemma attr_range (S : Settings R) (d : R) :
  repulsionRadius S <= d < attractionRadius S -> 0 <= attr S d < 1.
Proof.
  intros [H0 H1]. unfold attr. js_unfold.
  assert (Hr : 0 < attractionRadius S - repulsionRadius S) by lra.
  split.
  - apply Rmult_le_pos; [lra | ]. left. now apply Rinv_0_lt_compat.
  - apply Rmult_lt_reg_r with (attractionRadius S - repulsionRadius S);
      [assumption | ].
    unfold Rdiv. rewrite Rmult_assoc, Rinv_l by lra. lra.
Qed.

(** Length of the attraction term. *)
Lemma attraction_length (S : Settings R) (p1 p2 : Particle R) :
  repulsionRadius S <= dist p1 p2 < attractionRadius S ->
  Rhypot (fst (direction p1 p2) * attr S (dist p1 p2) * cohesionForce S)
         (snd (direction p1 p2) * attr S (dist p1 p2) * cohesionForce S)
  = Rhypot (fst (direction p1 p2)) (snd (direction p1 p2))
    * (attr S (dist p1 p2) * Rabs (cohesionForce S)).
Proof.
  intros Hd. pose proof (attr_range S Hd) as [Ha _].
  rewrite !Rmult_assoc, Rhypot_scale_abs, Rabs_mult.
  now rewrite (Rabs_right (attr S (dist p1 p2))) by lra.
Qed.

Lemma dist_origin_at80 : dist origin at80 = 80.
Proof.
  unfold dist, origin, at80. cbn [x y]. js_unfold.
  replace (80 - 0) with 80 by ring. replace (0 - 0) with 0 by ring.
  apply Rhypot_axis. lra.
Qed.

Lemma direction_origin_at80 : direction origin at80 = (1, 0).
Proof.
  unfold direction. rewrite dist_origin_at80.
  unfold origin, at80. cbn [x y]. js_unfold. f_equal; field.
Qed.

Lemma attr_cohesive_80 : attr cohesive 80 = 1 / 2.
Proof.
  unfold attr, cohesive. cbn [repulsionRadius attractionRadius]. js_unfold. field.
Qed.

Lemma pair_force_origin_at80 :
  pair_force cohesive origin at80 (0, 0) = (1 / 4, 0).
Proof.
  rewrite pair_force_branch.
  assert (Hb : branch cohesive (dist origin at80) = Attraction).
  { apply branch_Attraction. rewrite dist_origin_at80.
    unfold cohesive. cbn [repulsionRadius attractionRadius]. lra. }
  rewrite Hb, direction_origin_at80, dist_origin_at80, attr_cohesive_80.
  unfold cohesive. cbn [fst snd cohesionForce]. js_unfold. f_equal; lra.
Qed.

(** C2, as the code has it: for [repulsionRadius <= d < attractionRadius]
    the force that scanning [p2] accumulates into [(fx, fy)] of [p1] is the
    normalized direction from [p1] to [p2] times [attr d * cohesionForce],
    ADDED: for a positive cohesion force it points from [p1] towards [p2].
    The factor [attr d] lies in [[0, 1)], so that the length of the term,
    [attr d * |cohesionForce|] at a non-zero distance, stays below
    [|cohesionForce|], which is [cohesionForce] when that is not negative.
    Below [repulsionRadius] only the repulsion term is applied, and from
    [attractionRadius] on (outside the repulsion radius) nothing is. *)
Theorem attraction_points_toward (S : Settings R) (p1 p2 : Particle R) (f : R * R) :
  (repulsionRadius S <= dist p1 p2 < attractionRadius S ->
     pair_force S p1 p2 f =
       (fst f + fst (direction p1 p2) * attr S (dist p1 p2) * cohesionForce S,
        snd f + snd (direction p1 p2) * attr S (dist p1 p2) * cohesionForce S)
     /\ 0 <= attr S (dist p1 p2) < 1
     /\ (0 < dist p1 p2 ->
         Rhypot (fst (direction p1 p2) * attr S (dist p1 p2) * cohesionForce S)
                (snd (direction p1 p2) * attr S (dist p1 p2) * cohesionForce S)
         = attr S (dist p1 p2) * Rabs (cohesionForce S))
     /\ Rhypot (fst (direction p1 p2) * attr S (dist p1 p2) * cohesionForce S)
               (snd (direction p1 p2) * attr S (dist p1 p2) * cohesionForce S)
        <= Rabs (cohesionForce S)
     /\ (0 <= cohesionForce S ->
         Rhypot (fst (direction p1 p2) * attr S (dist p1 p2) * cohesionForce S)
                (snd (direction p1 p2) * attr S (dist p1 p2) * cohesionForce S)
         <= cohesionForce S))
  /\ (dist p1 p2 < repulsionRadius S ->
        pair_force S p1 p2 f =
          (fst f - fst (direction p1 p2) * repul S (dist p1 p2),
           snd f - snd (direction p1 p2) * repul S (dist p1 p2)))
  /\ (attractionRadius S <= dist p1 p2 -> repulsionRadius S <= dist p1 p2 ->
        pair_force S p1 p2 f = f).
Proof.
  split; [ | split].
  - intros Hd. pose proof (attr_range S Hd) as Ha.
    pose proof (Rabs_pos (cohesionForce S)) as Hc.
    assert (Hlen :
      Rhypot (fst (direction p1 p2) * attr S (dist p1 p2) * cohesionForce S)
             (snd (direction p1 p2) * attr S (dist p1 p2) * cohesionForce S)
      <= Rabs (cohesionForce S)).
    { rewrite (attraction_length S p1 p2 Hd).
      destruct (Rle_or_lt (dist p1 p2) 0) as [Hz | Hpos].
      - rewrite (direction_coincident p1 p2 Hz). cbn [fst snd].
        rewrite (Rhypot_axis (Rle_refl 0)). lra.
      - rewrite (direction_unit p1 p2 Hpos). nra. }
    split; [ | split; [ | split; [ | split]]].
    + apply pair_force_attract; lra.
    + exact Ha.
    + intros Hpos. rewrite (attraction_length S p1 p2 Hd).
      rewrite (direction_unit p1 p2 Hpos). ring.
    + exact Hlen.
    + intros Hc0. now rewrite Rabs_right in Hlen by lra.
  - intros Hlt. now apply pair_force_repel.
  - intros Har Hrr. now apply pair_force_beyond.
Qed.

Lemma attraction_points_toward_witness :
  repulsionRadius cohesive <= dist origin at80 < attractionRadius cohesive
  /\ pair_force cohesive origin at80 (0, 0) =
       (fst (0, 0) + fst (direction origin at80) * attr cohesive (dist origin at80)
                     * cohesionForce cohesive,
        snd (0, 0) + snd (direction origin at80) * attr cohesive (dist origin at80)
                     * cohesionForce cohesive).
Proof.
  assert (Hd : repulsionRadius cohesive <= dist origin at80
               < attractionRadius cohesive).
  { rewrite dist_origin_at80. unfold cohesive.
    cbn [repulsionRadius attractionRadius]. lra. }
  split; [exact Hd | ].
  exact (proj1 (proj1 (attraction_points_toward cohesive origin at80 (0, 0)) Hd)).
Defined.

(** C2 as worded fails: at distance 80, between the radii 40 and 120, with
    cohesion force 1/2, the direction from the neighbour back to the
    scanning particle is [(-1, 0)] and the magnitude is 1/4, but the force
    accumulated is [(1/4, 0)], towards the neighbour. *)
Lemma attraction_away_from_neighbour_fails :
  repulsionRadius cohesive <= dist origin at80 < attractionRadius cohesive
  /\ direction origin at80 = (1, 0)
  /\ attr cohesive (dist origin at80) * cohesionForce cohesive = 1 / 4
  /\ pair_force cohesive origin at80 (0, 0) = (1 / 4, 0)
  /\ pair_force cohesive origin at80 (0, 0) <>
       (0 + - fst (direction origin at80)
            * (attr cohesive (dist origin at80) * cohesionForce cohesive),
        0 + - snd (direction origin at80)
            * (attr cohesive (dist origin at80) * cohesionForce cohesive)).
Proof.
  split; [ | split; [ | split; [ | split]]].
  - rewrite dist_origin_at80. unfold cohesive.
    cbn [repulsionRadius attractionRadius]. lra.
  - exact direction_origin_at80.
  - rewrite dist_origin_at80, attr_cohesive_80. unfold cohesive.
    cbn [cohesionForce]. lra.
  - exact pair_force_origin_at80.
  - rewrite pair_force_origin_at80, direction_origin_at80, dist_origin_at80,
      attr_cohesive_80. unfold cohesive. cbn [fst snd cohesionForce].
    intros Heq. injection Heq as Hx _. lra.
Qed.


(** ** Wraparound *)

Lemma wrap_coord_range (c dim : R) :
  - dim <= c <= 2 * dim ->
  0 <= wrap_coord c dim <= dim
  /\ (c <> dim -> c <> 2 * dim -> wrap_coord c dim < dim).
Proof.
  intros [Hlo Hhi]. unfold wrap_coord. js_unfold.
  destruct (Rltb c 0) eqn:Hneg.
  - apply Rltb_true_inv in Hneg.
    rewrite Rltb_false by lra. split; [lra | intros _ _; lra].
  - apply Rltb_false_inv in Hneg.
    destruct (Rltb dim c) eqn:Hbig.
    + apply Rltb_true_inv in Hbig. split; [lra | intros _ Hne; lra].
    + apply Rltb_false_inv in Hbig. split; [lra | intros Hne _; lra].
Qed.

(** C5, as the code has it: a coordinate that lies in
    [[-dimension, 2 * dimension]] before the wrap lies in the CLOSED
    interval [[0, dimension]] after it.  The tests are strict ([x < 0],
    [x > width]), so that a coordinate equal to the dimension is left where
    it is.  Velocity and rotation are not touched. *)
Theorem wrap_closed_interval (w h : R) (p : Particle R) :
  - w <= x p <= 2 * w -> - h <= y p <= 2 * h ->
  0 <= x (wrap w h p) <= w
  /\ 0 <= y (wrap w h p) <= h
  /\ (x p = w -> x (wrap w h p) = w)
  /\ (y p = h -> y (wrap w h p) = h)
  /\ vx (wrap w h p) = vx p /\ vy (wrap w h p) = vy p
  /\ rotation (wrap w h p) = rotation p.
Proof.
  intros Hx Hy. unfold wrap. cbn [x y vx vy rotation].
  destruct (wrap_coord_range Hx) as [Hxr _].
  destruct (wrap_coord_range Hy) as [Hyr _].
  assert (Hkeep : forall c dim : R,
             - dim <= c <= 2 * dim -> c = dim -> wrap_coord c dim = dim).
  { intros c dim Hc ->. unfold wrap_coord. js_unfold.
    rewrite (@Rltb_false dim 0) by lra. now rewrite (@Rltb_false dim dim) by lra. }
  split; [exact Hxr | ]. split; [exact Hyr | ].
  split; [now apply Hkeep | ]. split; [now apply Hkeep | ].
  repeat split.
Qed.

Lemma wrap_closed_interval_witness :
  0 <= x (wrap 800 600 on_edge) <= 800 /\ 0 <= y (wrap 800 600 on_edge) <= 600.
Proof.
  assert (Hx : - 800 <= x on_edge <= 2 * 800) by (cbn [x on_edge]; lra).
  assert (Hy : - 600 <= y on_edge <= 2 * 600) by (cbn [y on_edge]; lra).
  destruct (@wrap_closed_interval 800 600 on_edge Hx Hy) as (H1 & H2 & _).
  exact (conj H1 H2).
Defined.

(** C5 as worded fails: a particle whose pre-wrap abscissa is exactly the
    width, 800, inside [[-800, 1600]], keeps it, and 800 is not in
    [[0, 800)]. *)
Lemma wrap_half_open_fails :
  (- 800 <= x on_edge <= 2 * 800 /\ - 600 <= y on_edge <= 2 * 600)
  /\ x (wrap 800 600 on_edge) = 800
  /\ ~ (0 <= x (wrap 800 600 on_edge) < 800).
Proof.
  assert (Hw : x (wrap 800 600 on_edge) = 800).
  { unfold wrap, wrap_coord, on_edge. cbn [x]. js_unfold.
    rewrite (@Rltb_false 800 0) by lra. rewrite (@Rltb_false 800 800) by lra.
    reflexivity. }
  split; [ | split].
  - cbn [x y on_edge]. lra.
  - exact Hw.
  - rewrite Hw. lra.
Qed.

(** In binary64 the dimension is also what a coordinate just below zero
    wraps to: the sum is rounded up to the dimension, and the second test
    leaves it there. *)
Lemma wrap_coord_rounds_to_dimension :
  wrap_coord (-0x1.70ef54646d497p-57)%float 800%float = 800%float.
Proof. vm_compute. reflexivity. Qed.

(** ** Velocity cap *)

Lemma speed_nonneg (p : Particle R) : 0 <= speed p.
Proof. apply Rhypot_nonneg. Qed.

Lemma velocity_cap_over (S : Settings R) (p : Particle R) :
  velocityCap S < speed p ->
  velocity_cap S p =
    mkParticle (x p) (y p) (vx p * (velocityCap S / speed p))
      (vy p * (velocityCap S / speed p)) (rotation p).
Proof.
  intros Hs. unfold velocity_cap. js_unfold. now rewrite (Rltb_true Hs).
Qed.

Lemma velocity_cap_under (S : Settings R) (p : Particle R) :
  speed p <= velocityCap S -> velocity_cap S p = p.
Proof.
  intros Hs. unfold velocity_cap. js_unfold. now rewrite (Rltb_false Hs).
Qed.

Lemma velocity_cap_speed_le (S : Settings R) (p : Particle R) :
  0 < velocityCap S -> speed (velocity_cap S p) <= velocityCap S.
Proof.
  intros Hcap. destruct (Rle_or_lt (speed p) (velocityCap S)) as [Hs | Hs].
  - now rewrite (@velocity_cap_under S p Hs).
  - rewrite (@velocity_cap_over S p Hs).
    unfold speed in *. cbn [vx vy]. js_unfold.
    rewrite Rhypot_scale by (left; apply Rdiv_lt_0_compat; lra).
    right. field. lra.
Qed.

Lemma velocity_cap_position (S : Settings R) (p : Particle R) :
  x (velocity_cap S p) = x p /\ y (velocity_cap S p) = y p.
Proof. unfold velocity_cap. destruct (nltb _ _); split; reflexivity. Qed.

Lemma Rhypot_ge_abs (a b : R) :
  - Rhypot a b <= a <= Rhypot a b /\ - Rhypot a b <= b <= Rhypot a b.
Proof.
  pose proof (Rhypot_nonneg a b) as Hn. pose proof (Rhypot_sqr a b) as Hs.
  repeat split; nra.
Qed.

(** What the wraparound relies on: a particle inside the surface, moved
    by a velocity that the cap keeps below both dimensions, is inside the
    surface again at the end of its turn. *)
Lemma integrate_keeps_inside (S : Settings R) (w h : R) (f : R * R)
    (r1 r2 : R) (p : Particle R) :
  0 < velocityCap S -> velocityCap S <= w -> velocityCap S <= h ->
  0 <= x p <= w -> 0 <= y p <= h ->
  0 <= x (integrate S w h f r1 r2 p) <= w
  /\ 0 <= y (integrate S w h f r1 r2 p) <= h.
Proof.
  intros Hcap Hw Hh Hx Hy. unfold integrate.
  set (q := apply_friction S (apply_forces S f r1 r2 p)).
  pose proof (@velocity_cap_speed_le S q Hcap) as Hs.
  destruct (velocity_cap_position S q) as [Hqx Hqy].
  destruct (Rhypot_ge_abs (vx (velocity_cap S q)) (vy (velocity_cap S q)))
    as [Hvx Hvy].
  unfold speed in Hs. cbn [hypot RNumber] in Hs.
  assert (Hvx' : - w <= vx (velocity_cap S q) <= w) by lra.
  assert (Hvy' : - h <= vy (velocity_cap S q) <= h) by lra.
  unfold wrap, move. cbn [x y]. js_unfold. rewrite Hqx, Hqy.
  change (x q) with (x p). change (y q) with (y p).
  split; apply wrap_coord_range; lra.
Qed.

(** C6, as the code has it.  In every model of numbers, binary64
    included, the clamp leaves a particle whose speed is not above
    [velocityCap] as it is, multiplies both components of the velocity of
    any other by the one ratio [velocityCap / speed], and never touches
    position or rotation.  In exact arithmetic, with a positive
    [velocityCap], that ratio is positive and the length of the velocity,
    [sqrt (vx * vx + vy * vy)], is at most [velocityCap] after the clamp:
    exactly [velocityCap] when it was above it.  (In binary64 the division
    and the two products are rounded, and the length can end above
    [velocityCap]: see [velocity_cap_overshoots].) *)
Theorem velocity_cap_clamps :
  (forall (num : Type) (N : JsNumber num) (S : Settings num)
          (p : Particle num),
      (nltb (velocityCap S) (speed p) = false -> velocity_cap S p = p)
      /\ (nltb (velocityCap S) (speed p) = true ->
          vx (velocity_cap S p)
          = nmul (vx p) (ndiv (velocityCap S) (speed p))
          /\ vy (velocity_cap S p)
             = nmul (vy p) (ndiv (velocityCap S) (speed p)))
      /\ x (velocity_cap S p) = x p /\ y (velocity_cap S p) = y p
      /\ rotation (velocity_cap S p) = rotation p)
  /\ (forall (S : Settings R) (p : Particle R),
        0 < velocityCap S ->
        sqrt (vx (velocity_cap S p) * vx (velocity_cap S p)
              + vy (velocity_cap S p) * vy (velocity_cap S p))
        <= velocityCap S
        /\ (velocityCap S < sqrt (vx p * vx p + vy p * vy p) ->
            sqrt (vx (velocity_cap S p) * vx (velocity_cap S p)
                  + vy (velocity_cap S p) * vy (velocity_cap S p))
            = velocityCap S
            /\ 0 < velocityCap S / sqrt (vx p * vx p + vy p * vy p)
            /\ vx (velocity_cap S p)
               = vx p * (velocityCap S / sqrt (vx p * vx p + vy p * vy p))
            /\ vy (velocity_cap S p)
               = vy p * (velocityCap S / sqrt (vx p * vx p + vy p * vy p)))
        /\ (sqrt (vx p * vx p + vy p * vy p) <= velocityCap S ->
            velocity_cap S p = p)).
Proof.
  split.
  - intros num N S p. unfold velocity_cap.
    destruct (nltb (velocityCap S) (speed p)).
    + split; [discriminate | ]. split; [ | repeat split].
      intros _. split; reflexivity.
    + split; [reflexivity | ]. split; [discriminate | repeat split].
  - intros S p Hcap.
    change (sqrt (vx p * vx p + vy p * vy p)) with (speed p).
    change (sqrt (vx (velocity_cap S p) * vx (velocity_cap S p)
                  + vy (velocity_cap S p) * vy (velocity_cap S p)))
      with (speed (velocity_cap S p)).
    assert (Hover : velocityCap S < speed p ->
              speed (velocity_cap S p) = velocityCap S
              /\ 0 < velocityCap S / speed p
              /\ vx (velocity_cap S p) = vx p * (velocityCap S / speed p)
              /\ vy (velocity_cap S p) = vy p * (velocityCap S / speed p)).
    { intros Hs. rewrite (@velocity_cap_over S p Hs).
      assert (Hr : 0 < velocityCap S / speed p)
        by (apply Rdiv_lt_0_compat; lra).
      split; [ | split; [exact Hr | split; reflexivity]].
      unfold speed in *. cbn [vx vy]. js_unfold.
      rewrite Rhypot_scale by lra. field. lra. }
    destruct (Rle_or_lt (speed p) (velocityCap S)) as [Hs | Hs].
    + rewrite (@velocity_cap_under S p Hs).
      split; [exact Hs | ]. split; [intros Hlt; lra | reflexivity].
    + destruct (Hover Hs) as (H1 & H2 & H3 & H4).
      split; [lra | ]. split; [exact Hover | intros Hle; lra].
Qed.

Lemma speed_fast : speed fast = 5.
Proof.
  unfold speed, fast. cbn [vx vy]. js_unfold. unfold Rhypot.
  replace (3 * 3 + 4 * 4) with (5 * 5) by ring. apply sqrt_square. lra.
Qed.

Lemma velocity_cap_clamps_witness :
  0 < velocityCap defaults
  /\ velocityCap defaults < sqrt (vx fast * vx fast + vy fast * vy fast)
  /\ sqrt (vx (velocity_cap defaults fast) * vx (velocity_cap defaults fast)
           + vy (velocity_cap defaults fast) * vy (velocity_cap defaults fast))
     = velocityCap defaults.
Proof.
  assert (Hc : 0 < velocityCap defaults) by (cbn [velocityCap defaults]; lra).
  assert (Hs : velocityCap defaults
               < sqrt (vx fast * vx fast + vy fast * vy fast)).
  { change (sqrt (vx fast * vx fast + vy fast * vy fast)) with (speed fast).
    rewrite speed_fast. cbn [velocityCap defaults]. lra. }
  split; [exact Hc | ]. split; [exact Hs | ].
  exact (proj1 (proj1 (proj2 (proj2 velocity_cap_clamps defaults fast Hc))
                  Hs)).
Defined.

(** C6 as worded fails on the numbers the code runs on: with
    [velocityCap = 0.1] (the binary64 number nearest to it) and the velocity
    [(11, 0)], whose length 11 is above the cap, the clamp leaves
    [vx = 11 * (0.1 / 11)], which is rounded to the next number above
    [velocityCap]; the speed after the clamp is therefore not at most
    [velocityCap], let alone equal to it. *)
Lemma velocity_cap_overshoots :
  nltb n0 (velocityCap tenth_cap) = true
  /\ speed eleven = 11%float
  /\ nltb (velocityCap tenth_cap) (speed eleven) = true
  /\ vx (velocity_cap tenth_cap eleven) = 0x1.999999999999bp-4%float
  /\ vy (velocity_cap tenth_cap eleven) = 0%float
  /\ nltb (velocityCap tenth_cap) (vx (velocity_cap tenth_cap eleven)) = true
  /\ nltb (velocityCap tenth_cap) (speed (velocity_cap tenth_cap eleven))
     = true.
Proof. vm_compute. repeat split. Qed.


(** ** No division by zero *)

Lemma is_zero_false (v : R) : v <> 0 -> is_zero v = false.
Proof.
  intros Hv. unfold is_zero. js_unfold.
  destruct (Rtotal_order v 0) as [Hlt | [Heq | Hgt]].
  - now rewrite (Rltb_true Hlt).
  - contradiction.
  - rewrite (Rltb_true Hgt). now rewrite orb_true_r.
Qed.

Lemma is_zero_true (v : R) : v = 0 -> is_zero v = true.
Proof.
  intros ->. unfold is_zero. js_unfold. now rewrite Rltb_false by lra.
Qed.

Lemma checked_div_defined (a b : R) : b <> 0 -> checked_div a b = Some (a / b).
Proof. intros Hb. unfold checked_div. now rewrite is_zero_false. Qed.

Lemma checked_div_zero (a : R) : checked_div a 0 = None.
Proof. unfold checked_div. now rewrite is_zero_true. Qed.

Lemma pair_force_checked_defined (S : Settings R) (p1 p2 : Particle R) (f : R * R) :
  pair_force_checked S p1 p2 f = Some (pair_force S p1 p2 f).
Proof.
  unfold pair_force_checked, pair_force, repul_checked, attr_checked, repul, attr.
  js_unfold.
  set (dx := x p2 - x p1). set (dy := y p2 - y p1). set (d := Rhypot dx dy).
  destruct (Rltb 0 d) eqn:H0; [ | reflexivity].
  apply Rltb_true_inv in H0.
  destruct (Rltb d (repulsionRadius S)) eqn:H1.
  - apply Rltb_true_inv in H1.
    rewrite (@checked_div_defined _ (repulsionRadius S)) by lra.
    rewrite !(@checked_div_defined _ d) by lra. reflexivity.
  - apply Rltb_false_inv in H1.
    destruct (Rltb d (attractionRadius S)) eqn:H2; [ | reflexivity].
    apply Rltb_true_inv in H2.
    rewrite (@checked_div_defined _ (attractionRadius S - repulsionRadius S)) by lra.
    rewrite !(@checked_div_defined _ d) by lra. reflexivity.
Qed.

Lemma force_scan_checked_defined (S : Settings R) (i : nat) (p1 : Particle R)
    (ps : list (Particle R)) :
  forall (j : nat) (f : R * R),
    force_scan_checked S i p1 ps j f = Some (force_scan S i p1 ps j f).
Proof.
  induction ps as [ | p2 rest IH]; intros j f; cbn [force_scan_checked force_scan].
  - reflexivity.
  - destruct (Nat.eqb i j).
    + cbn. apply IH.
    + rewrite pair_force_checked_defined. cbn. apply IH.
Qed.

(** C10: whatever the settings, the force scan never divides by zero: run
    with a division that fails on a zero divisor, the scan of any pool
    still returns, and returns what the plain scan computes.  A division
    by [repulsionRadius] happens only in the repulsion arm, where
    [0 < d < repulsionRadius], a division by [d] only there and in the
    attraction arm, both under [0 < d]; the attraction arm is entered only when
    [0 < d] and [repulsionRadius <= d < attractionRadius], which makes its
    divisor [attractionRadius - repulsionRadius] strictly positive; the
    other two arms divide nothing.  With
    [attractionRadius <= repulsionRadius] the attraction arm is never
    entered. *)
Theorem force_scan_division_safe (S : Settings R) (i : nat) (p1 : Particle R)
    (ps : list (Particle R)) (j : nat) (f : R * R) :
  force_scan_checked S i p1 ps j f = Some (force_scan S i p1 ps j f)
  /\ (forall (p2 : Particle R) (g : R * R),
        pair_force_checked S p1 p2 g = Some (pair_force S p1 p2 g))
  /\ (forall (p2 : Particle R) (g : R * R),
        pair_force S p1 p2 g =
        match branch S (dist p1 p2) with
        | Coincident | Beyond => g
        | Repulsion =>
            (fst g - fst (direction p1 p2) * repul S (dist p1 p2),
             snd g - snd (direction p1 p2) * repul S (dist p1 p2))
        | Attraction =>
            (fst g + fst (direction p1 p2) * attr S (dist p1 p2)
                     * cohesionForce S,
             snd g + snd (direction p1 p2) * attr S (dist p1 p2)
                     * cohesionForce S)
        end)
  /\ (forall d : R, branch S d = Repulsion ->
        0 < d /\ 0 < repulsionRadius S)
  /\ (forall d : R, branch S d = Attraction ->
        0 < d /\ repulsionRadius S <= d < attractionRadius S
        /\ 0 < attractionRadius S - repulsionRadius S)
  /\ (forall (p2 : Particle R) (g : R * R),
        branch S (dist p1 p2) = Coincident \/ branch S (dist p1 p2) = Beyond ->
        pair_force_checked S p1 p2 g = Some g)
  /\ (attractionRadius S <= repulsionRadius S ->
        forall d : R, branch S d <> Attraction).
Proof.
  split; [apply force_scan_checked_defined | ].
  split; [intros p2 g; apply pair_force_checked_defined | ].
  split; [intros p2 g; apply pair_force_branch | ].
  split; [intros d Hb; apply branch_Repulsion in Hb; lra | ].
  split; [intros d Hb; apply branch_Attraction in Hb; lra | ].
  split.
  - intros p2 g Hb. rewrite pair_force_checked_defined, pair_force_branch.
    now destruct Hb as [-> | ->].
  - intros Hinv d Hb. apply branch_Attraction in Hb. lra.
Qed.

Lemma force_scan_division_safe_witness :
  attractionRadius inverted <= repulsionRadius inverted
  /\ branch inverted 80 <> Attraction.
Proof.
  assert (Hinv : attractionRadius inverted <= repulsionRadius inverted)
    by (cbn [attractionRadius repulsionRadius inverted]; lra).
  split; [exact Hinv | ].
  exact (proj2 (proj2 (proj2 (proj2 (proj2 (proj2
           (force_scan_division_safe inverted 0 origin [at80] 0 (0, 0)))))))
           Hinv 80).
Defined.


(** * The outer loop, for any model of numbers *)

Section LoopFacts.
Context {num : Type} `{JsNumber num} `{PathApi}.
Variable rnd : nat -> num.
Local Open Scope nat_scope.

Lemma draw_loop_turns (c : Component num) :
  draw_loop rnd c = draw_turns rnd (length (particles c)) c.
Proof. reflexivity. Qed.

Lemma draw_turns_S (k : nat) (c : Component num) :
  draw_turns rnd (Datatypes.S k) c = draw_step rnd (draw_turns rnd k c) k.
Proof.
  unfold draw_turns. rewrite seq_S, fold_left_app. reflexivity.
Qed.

Lemma draw_step_particles (c : Component num) (i : nat) (p1 : Particle num) :
  particles c !! i = Some p1 ->
  particles (draw_step rnd c i) = <[i := moved rnd c i p1]> (particles c).
Proof. intros Hi. unfold draw_step. rewrite Hi. reflexivity. Qed.

Lemma draw_step_length (c : Component num) (i : nat) :
  length (particles (draw_step rnd c i)) = length (particles c).
Proof.
  unfold draw_step. destruct (particles c !! i); [ | reflexivity].
  cbn [particles]. apply length_insert.
Qed.

Lemma draw_step_frame (c : Component num) (i : nat) :
  settings (draw_step rnd c i) = settings c
  /\ surface (draw_step rnd c i) = surface c
  /\ customSVGPath2D (draw_step rnd c i) = customSVGPath2D c.
Proof. unfold draw_step. destruct (particles c !! i); repeat split. Qed.

Lemma draw_step_random_calls (c : Component num) (i : nat) :
  i < length (particles c) ->
  random_calls (draw_step rnd c i) = random_calls c + 2.
Proof.
  intros Hi. unfold draw_step.
  destruct (lookup_lt_is_Some_2 (particles c) i Hi) as [p1 ->]. reflexivity.
Qed.

Lemma draw_step_lookup_ne (c : Component num) (i j : nat) :
  i <> j -> particles (draw_step rnd c i) !! j = particles c !! j.
Proof.
  intros Hij. unfold draw_step. destruct (particles c !! i); [ | reflexivity].
  cbn [particles]. now apply list_lookup_insert_ne.
Qed.

Lemma draw_turns_length (k : nat) (c : Component num) :
  length (particles (draw_turns rnd k c)) = length (particles c).
Proof.
  induction k as [ | k IH]; [reflexivity | ].
  rewrite draw_turns_S, draw_step_length. exact IH.
Qed.

Lemma draw_turns_frame (k : nat) (c : Component num) :
  settings (draw_turns rnd k c) = settings c
  /\ surface (draw_turns rnd k c) = surface c
  /\ customSVGPath2D (draw_turns rnd k c) = customSVGPath2D c.
Proof.
  induction k as [ | k (IH1 & IH2 & IH3)]; [repeat split | ].
  rewrite draw_turns_S.
  destruct (draw_step_frame (draw_turns rnd k c) k) as (-> & -> & ->).
  repeat split; assumption.
Qed.

Lemma draw_turns_random_calls (k : nat) (c : Component num) :
  k <= length (particles c) ->
  random_calls (draw_turns rnd k c) = random_calls c + 2 * k.
Proof.
  induction k as [ | k IH]; intros Hk.
  - cbn. lia.
  - rewrite draw_turns_S, draw_step_random_calls.
    + rewrite IH by lia. lia.
    + rewrite draw_turns_length. lia.
Qed.

(** A turn leaves the particles it has not reached yet as they were. *)
Lemma draw_turns_lookup_ge (k j : nat) (c : Component num) :
  k <= j -> particles (draw_turns rnd k c) !! j = particles c !! j.
Proof.
  induction k as [ | k IH]; intros Hk; [reflexivity | ].
  rewrite draw_turns_S, draw_step_lookup_ne by lia. apply IH. lia.
Qed.

(** Once its turn is over a particle is not written again. *)
Lemma draw_turns_lookup_lt (m j : nat) (c : Component num) :
  j < m ->
  particles (draw_turns rnd m c) !! j
  = particles (draw_turns rnd (Datatypes.S j) c) !! j.
Proof.
  induction m as [ | m IH]; intros Hm; [lia | ].
  destruct (decide (j = m)) as [-> | Hne]; [reflexivity | ].
  rewrite draw_turns_S, draw_step_lookup_ne by lia. apply IH. lia.
Qed.

(** The pool that the turn for index [i] scans: the particles before [i]
    as the loop leaves them, the others as the loop found them. *)
Lemma draw_turns_pool (i : nat) (c : Component num) :
  i <= length (particles c) ->
  particles (draw_turns rnd i c)
  = take i (particles (draw_loop rnd c)) ++ drop i (particles c).
Proof.
  intros Hi. apply list_eq. intros j.
  assert (Hlen : length (take i (particles (draw_loop rnd c))) = i).
  { rewrite length_take_le; [reflexivity | ].
    rewrite draw_loop_turns, draw_turns_length. exact Hi. }
  destruct (decide (j < i)) as [Hlt | Hge].
  - rewrite lookup_app_l by lia. rewrite lookup_take_lt by exact Hlt.
    rewrite draw_loop_turns.
    rewrite (@draw_turns_lookup_lt (length (particles c)) j c) by lia.
    destruct (decide (i = Datatypes.S j)) as [-> | Hne]; [reflexivity | ].
    apply draw_turns_lookup_lt. lia.
  - rewrite lookup_app_r by lia. rewrite Hlen, lookup_drop.
    rewrite draw_turns_lookup_ge by lia. f_equal. lia.
Qed.

(** The particle at index [i] after the loop. *)
Lemma draw_loop_lookup (c : Component num) (i : nat) (p1 : Particle num) :
  particles c !! i = Some p1 ->
  particles (draw_loop rnd c) !! i
  = Some (moved rnd (draw_turns rnd i c) i p1).
Proof.
  intros Hi.
  assert (Hlt : i < length (particles c)) by (eapply lookup_lt_Some; exact Hi).
  rewrite draw_loop_turns.
  rewrite (@draw_turns_lookup_lt (length (particles c)) i c) by exact Hlt.
  rewrite draw_turns_S.
  assert (Hi' : particles (draw_turns rnd i c) !! i = Some p1).
  { rewrite draw_turns_lookup_ge by lia. exact Hi. }
  rewrite (@draw_step_particles _ _ _ Hi').
  apply list_lookup_insert_eq. rewrite draw_turns_length. exact Hlt.
Qed.
End LoopFacts.


(** * One tick of the two-body configuration *)

Section DrawFacts.
Context {num : Type} `{JsNumber num} `{PathApi}.
Variable rnd : nat -> num.
Local Open Scope nat_scope.

Lemma draw_particles (c : Component num) :
  particles (draw rnd c) = particles (draw_loop rnd (paint_background c)).
Proof. reflexivity. Qed.

Lemma draw_length (c : Component num) :
  length (particles (draw rnd c)) = length (particles c).
Proof. rewrite draw_particles, draw_loop_turns, draw_turns_length. reflexivity. Qed.

(** The particle at index [i] after a call of [draw]: [p1] integrated
    under the force found by scanning the pool in which the particles
    before [i] have already been moved by this very call. *)
Lemma draw_lookup (c : Component num) (i : nat) (p1 : Particle num) :
  particles c !! i = Some p1 ->
  particles (draw rnd c) !! i
  = Some (integrate (settings c) (width (surface c)) (height (surface c))
            (accumulate (settings c)
               (take i (particles (draw rnd c)) ++ drop i (particles c)) i p1)
            (rnd (random_calls c + 2 * i)) (rnd (random_calls c + 2 * i + 1))
            p1).
Proof.
  intros Hi.
  assert (Hlt : i < length (particles c)) by (eapply lookup_lt_Some; exact Hi).
  rewrite draw_particles.
  rewrite (@draw_loop_lookup _ _ _ rnd (paint_background c) i p1 Hi).
  unfold moved.
  destruct (draw_turns_frame rnd i (paint_background c)) as (-> & -> & _).
  rewrite draw_turns_random_calls by (cbn [particles paint_background]; lia).
  rewrite draw_turns_pool by (cbn [particles paint_background]; lia).
  reflexivity.
Qed.
End DrawFacts.

Lemma Rhypot_axis_abs (a : R) : Rhypot a 0 = Rabs a.
Proof.
  destruct (Rle_or_lt 0 a) as [Ha | Ha].
  - rewrite Rabs_right by lra. now apply Rhypot_axis.
  - rewrite Rabs_left by assumption.
    rewrite <- (Rhypot_opp a 0). replace (- 0) with 0 by ring.
    apply Rhypot_axis. lra.
Qed.

(** Settle every comparison of the goal whose outcome linear arithmetic
    decides. *)
Ltac rltb :=
  repeat match goal with
  | |- context [Rltb ?a ?b] =>
      first [ rewrite (@Rltb_true a b) by lra
            | rewrite (@Rltb_false a b) by lra ]
  end.

Lemma integrate_origin (r1 r2 : R) :
  integrate two_body 800 600 (- (3 / 4), 0) r1 r2 origin
  = mkParticle (3197 / 4) 0 (- (3 / 4)) 0 0.
Proof.
  assert (Hv : apply_friction two_body
                 (apply_forces two_body (- (3 / 4), 0) r1 r2 origin)
               = mkParticle 0 0 (- (3 / 4)) 0 0).
  { unfold apply_friction, apply_forces, two_body, origin.
    cbn [x y vx vy rotation fst snd friction randomForce]. js_unfold.
    f_equal; lra. }
  unfold integrate. rewrite Hv.
  rewrite velocity_cap_under.
  - unfold move, wrap, wrap_coord, two_body.
    cbn [x y vx vy rotation rotationSpeed]. js_unfold. rltb. f_equal; lra.
  - unfold speed, two_body. cbn [vx vy velocityCap]. js_unfold.
    rewrite Rhypot_axis_abs, Rabs_left by lra. lra.
Qed.

Lemma integrate_at10 (r1 r2 : R) :
  integrate two_body 800 600 (0, 0) r1 r2 at10 = at10.
Proof.
  assert (Hv : apply_friction two_body
                 (apply_forces two_body (0, 0) r1 r2 at10) = at10).
  { unfold apply_friction, apply_forces, two_body, at10.
    cbn [x y vx vy rotation fst snd friction randomForce]. js_unfold.
    f_equal; lra. }
  unfold integrate. rewrite Hv.
  rewrite velocity_cap_under.
  - unfold move, wrap, wrap_coord, two_body, at10.
    cbn [x y vx vy rotation rotationSpeed]. js_unfold. rltb. f_equal; lra.
  - unfold speed, two_body, at10. cbn [vx vy velocityCap]. js_unfold.
    rewrite Rhypot_axis_abs, Rabs_R0. lra.
Qed.

(** Seen from the second particle, the first one, once moved and wrapped,
    is out of reach. *)
Lemma pair_force_at10_wrapped :
  pair_force two_body at10 (mkParticle (3197 / 4) 0 (- (3 / 4)) 0 0) (0, 0)
  = (0, 0).
Proof.
  assert (Hd : dist at10 (mkParticle (3197 / 4) 0 (- (3 / 4)) 0 0) = 3157 / 4).
  { unfold dist, at10. cbn [x y]. js_unfold.
    replace (0 - 0) with 0 by ring. rewrite Rhypot_axis_abs.
    rewrite Rabs_right; lra. }
  apply pair_force_beyond; rewrite Hd; unfold two_body;
    cbn [repulsionRadius attractionRadius]; lra.
Qed.

(** The force the second particle would get from the positions at the
    start of the tick. *)
Lemma pair_force_at10_origin :
  pair_force two_body at10 origin (0, 0) = (3 / 4, 0).
Proof.
  assert (Hd : dist at10 origin = 10).
  { unfold dist, at10, origin. cbn [x y]. js_unfold.
    replace (0 - 0) with 0 by ring. rewrite Rhypot_axis_abs.
    rewrite Rabs_left; lra. }
  rewrite pair_force_repel
    by (rewrite Hd; unfold two_body; cbn [repulsionRadius]; lra).
  unfold direction. rewrite Hd, repul_two_body_10.
  unfold at10, origin. cbn [x y fst snd]. js_unfold. f_equal; lra.
Qed.

Lemma two_body_tick (rnd : nat -> R) :
  particles (draw rnd two_body_scene)
  = [mkParticle (3197 / 4) 0 (- (3 / 4)) 0 0; at10].
Proof.
  pose proof (draw_length rnd two_body_scene) as Hlen.
  assert (H0 : particles (draw rnd two_body_scene) !! 0%nat
               = Some (mkParticle (3197 / 4) 0 (- (3 / 4)) 0 0)).
  { rewrite (@draw_lookup _ _ _ rnd two_body_scene 0%nat origin eq_refl).
    cbn [two_body_scene particles]. rewrite firstn_O. cbn [skipn app].
    cbn [two_body_scene settings surface particles
      surface_800x600 width height accumulate force_scan Nat.eqb].
    js_unfold. rewrite pair_force_origin_at10. now rewrite integrate_origin. }
  assert (H1 : particles (draw rnd two_body_scene) !! 1%nat = Some at10).
  { rewrite (@draw_lookup _ _ _ rnd two_body_scene 1%nat at10 eq_refl).
    destruct (particles (draw rnd two_body_scene)) as [ | q0 qs];
      [discriminate | ].
    cbn in H0. injection H0 as ->.
    cbn [two_body_scene particles]. rewrite firstn_cons, firstn_O.
    cbn [skipn app]. cbn [two_body_scene settings surface particles
      surface_800x600 width height accumulate force_scan Nat.eqb].
    js_unfold. rewrite pair_force_at10_wrapped. now rewrite integrate_at10. }
  destruct (particles (draw rnd two_body_scene)) as [ | q0 [ | q1 [ | q2 qs]]];
    try discriminate.
  cbn in H0, H1. now injection H0 as ->; injection H1 as ->.
Qed.


(** C3, as the code has it.  The outer loop of [draw] moves each particle
    as soon as its own scan is over, so the scan for index [i] reads the
    pool in which the particles before [i] are already where this tick puts
    them (wrapped), and only the particles from [i] on are where the tick
    found them: there is no snapshot of the frame.  This holds for any
    model of numbers.  In the two-body configuration on an 800 x 600
    surface the first particle therefore leaves with velocity [(-3/4, 0)],
    away from the second one, and is wrapped to [x = 799.25]; the second
    particle, scanning it there, is out of reach and keeps velocity zero. *)
Theorem scan_reads_pool_in_place :
  (forall (num : Type) (N : JsNumber num) (P : PathApi) (rnd : nat -> num)
          (c : Component num) (i : nat) (p1 : Particle num),
      particles c !! i = Some p1 ->
      particles (draw rnd c) !! i
      = Some (integrate (settings c) (width (surface c)) (height (surface c))
                (accumulate (settings c)
                   (take i (particles (draw rnd c)) ++ drop i (particles c))
                   i p1)
                (rnd (random_calls c + 2 * i)%nat)
                (rnd (random_calls c + 2 * i + 1)%nat) p1))
  /\ (forall rnd : nat -> R,
        particles (draw rnd two_body_scene)
        = [mkParticle (3197 / 4) 0 (- (3 / 4)) 0 0; mkParticle 10 0 0 0 0]).
Proof.
  split.
  - intros num N P rnd c i p1 Hi. now apply draw_lookup.
  - intros rnd. apply two_body_tick.
Qed.

Lemma scan_reads_pool_in_place_witness :
  particles two_body_scene !! 0%nat = Some origin
  /\ particles (draw coin two_body_scene) !! 0%nat
     = Some (integrate two_body 800 600
               (accumulate two_body
                  (take 0 (particles (draw coin two_body_scene))
                   ++ drop 0 (particles two_body_scene)) 0%nat origin)
               (coin (6 + 2 * 0)%nat) (coin (6 + 2 * 0 + 1)%nat) origin).
Proof.
  split; [reflexivity | ].
  exact (proj1 scan_reads_pool_in_place R RNumber SamplePath coin
           two_body_scene 0%nat origin eq_refl).
Defined.

(** C3 as worded fails: after one tick of the two-body configuration the
    second particle has velocity zero, so the two velocities are neither
    both non-zero nor of equal magnitude; and its velocity is not the force
    it would have accumulated from the positions at the start of the tick,
    which is [(3/4, 0)]. *)
Lemma two_body_tick_not_symmetric :
  particles (draw coin two_body_scene) !! 0%nat
    = Some (mkParticle (3197 / 4) 0 (- (3 / 4)) 0 0)
  /\ particles (draw coin two_body_scene) !! 1%nat
    = Some (mkParticle 10 0 0 0 0)
  /\ accumulate two_body (particles two_body_scene) 1%nat at10 = (3 / 4, 0)
  /\ ~ (forall p : Particle R,
          In p (particles (draw coin two_body_scene)) ->
          Rhypot (vx p) (vy p) <> 0)
  /\ ~ (forall p q : Particle R,
          particles (draw coin two_body_scene) !! 0%nat = Some p ->
          particles (draw coin two_body_scene) !! 1%nat = Some q ->
          Rhypot (vx p) (vy p) = Rhypot (vx q) (vy q)).
Proof.
  rewrite two_body_tick. split; [reflexivity | ]. split; [reflexivity | ].
  split; [ | split].
  - cbn [two_body_scene particles accumulate force_scan Nat.eqb]. js_unfold.
    apply pair_force_at10_origin.
  - intros Hall. apply (Hall at10); [right; left; reflexivity | ].
    unfold at10. cbn [vx vy]. rewrite Rhypot_axis_abs, Rabs_R0. reflexivity.
  - intros Hall. specialize (Hall _ _ eq_refl eq_refl).
    unfold at10 in Hall. cbn [vx vy] in Hall.
    rewrite !Rhypot_axis_abs, Rabs_R0, Rabs_left in Hall by lra. lra.
Qed.

(** ** Zero friction factor *)



Lemma integrate_velocity (S : Settings R) (w h : R) (f : R * R) (r1 r2 : R)
    (p1 : Particle R) :
  vx (integrate S w h f r1 r2 p1)
    = vx (velocity_cap S (apply_friction S (apply_forces S f r1 r2 p1)))
  /\ vy (integrate S w h f r1 r2 p1)
    = vy (velocity_cap S (apply_friction S (apply_forces S f r1 r2 p1))).
Proof. split; reflexivity. Qed.



Lemma draw_lookup_inv {P : PathApi} (rnd : nat -> R) (c : Component R)
    (i : nat) (p : Particle R) :
  particles (draw rnd c) !! i = Some p ->
  exists p1 : Particle R, particles c !! i = Some p1.
Proof.
  intros Hp. apply lookup_lt_Some in Hp. rewrite draw_length in Hp.
  now apply lookup_lt_is_Some_2.
Qed.


(** The pool stays inside the surface from one tick to the next, as long
    as the velocity cap is positive and below both dimensions. *)
Lemma draw_keeps_inside {P : PathApi} (rnd : nat -> R) (c : Component R) :
  0 < velocityCap (settings c) ->
  velocityCap (settings c) <= width (surface c) ->
  velocityCap (settings c) <= height (surface c) ->
  (forall (i : nat) (p1 : Particle R),
      particles c !! i = Some p1 ->
      0 <= x p1 <= width (surface c) /\ 0 <= y p1 <= height (surface c)) ->
  forall (i : nat) (p : Particle R),
    particles (draw rnd c) !! i = Some p ->
    0 <= x p <= width (surface c) /\ 0 <= y p <= height (surface c).
Proof.
  intros Hcap Hw Hh Hin i p Hp.
  destruct (draw_lookup_inv _ _ _ Hp) as [p1 Hp1].
  rewrite (@draw_lookup _ _ _ rnd c i p1 Hp1) in Hp.
  apply (inj Some) in Hp. subst p.
  destruct (Hin i p1 Hp1) as [Hx Hy].
  now apply integrate_keeps_inside.
Qed.






(** * Resizing and re-initialisation *)

Section PoolFacts.
Context {num : Type} `{JsNumber num} `{PathApi}.
Variable rnd : nat -> num.
Local Open Scope nat_scope.

Lemma run_listener_particles (c : Component num) (l : Listener) :
  particles (run_listener c l) = particles c.
Proof.
  destruct l as [run]. unfold run_listener.
  destruct (Nat.eqb run (effect_run c)); reflexivity.
Qed.

Lemma run_listeners_particles (ls : list Listener) (c : Component num) :
  particles (fold_left run_listener ls c) = particles c.
Proof.
  revert c. induction ls as [ | l ls IH]; intros c; cbn [fold_left].
  - reflexivity.
  - rewrite IH. apply run_listener_particles.
Qed.

(** The listeners of "resize" never write the pool. *)
Lemma resize_event_particles (vp : Viewport num) (c : Component num) :
  particles (resize_event vp c) = particles c.
Proof. unfold resize_event. now rewrite run_listeners_particles. Qed.

Lemma mount_particles (S : Settings num) (vp : Viewport num) :
  particles (mount rnd S vp)
  = fresh_particles rnd (particleCount S) 0 (clientWidth vp) (clientHeight vp).
Proof.
  unfold mount, svg_effect. cbn [settings].
  destruct (shape S); try reflexivity.
  destruct (new_Path2D (svgPathData S)); reflexivity.
Qed.

Lemma mount_listeners (S : Settings num) (vp : Viewport num) :
  listeners (mount rnd S vp) = [resizeCanvas_of 1]
  /\ effect_run (mount rnd S vp) = 1.
Proof.
  unfold mount, svg_effect. cbn [settings].
  destruct (shape S); try (split; reflexivity).
  destruct (new_Path2D (svgPathData S)); split; reflexivity.
Qed.

(** After the mount, a resize event runs [resizeCanvas] once. *)
Lemma resize_event_mount_surface (S : Settings num) (vp vp' : Viewport num) :
  surface (resize_event vp' (mount rnd S vp))
  = surface_of vp'.
Proof.
  unfold resize_event. cbn [listeners].
  destruct (mount_listeners S vp) as [-> Hrun].
  cbn [fold_left run_listener effect_run]. rewrite Hrun. reflexivity.
Qed.

Lemma fresh_particles_length (n k : nat) (w h : num) :
  length (fresh_particles rnd n k w h) = n.
Proof.
  revert k. induction n as [ | n IH]; intros k; cbn [fresh_particles length].
  - reflexivity.
  - now rewrite IH.
Qed.

(** Every particle of a fresh pool is at rest, at a position that is a
    random number times the width and another times the height. *)
Lemma fresh_particles_In (n k : nat) (w h : num) (p : Particle num) :
  In p (fresh_particles rnd n k w h) ->
  exists m : nat,
    p = mkParticle (nmul (rnd m) w) (nmul (rnd (m + 1)) h) n0 n0
          (nmul (nmul (rnd (m + 2)) nPI) n2).
Proof.
  revert k. induction n as [ | n IH]; intros k; cbn [fresh_particles].
  - intros [].
  - intros [<- | Hin]; [now exists k | now apply (IH (k + 3))].
Qed.

(** A change of a dependency of the canvas effect runs its clean-up and
    then the effect, which draws a fresh pool for the current size of the
    container. *)
Lemma set_settings_particles (S : Settings num) (c : Component num) :
  canvas_deps_same (settings c) S = false ->
  particles (set_settings rnd S c)
  = fresh_particles rnd (particleCount S) (random_calls c)
      (clientWidth (viewport c)) (clientHeight (viewport c))
  /\ random_calls (set_settings rnd S c)
     = random_calls c + 3 * particleCount S
  /\ viewport (set_settings rnd S c) = viewport c
  /\ settings (set_settings rnd S c) = S.
Proof.
  intros Hdeps. unfold set_settings. rewrite Hdeps.
  destruct (svg_deps_same (settings c) S).
  - repeat split.
  - unfold svg_effect. cbn [settings with_settings canvas_cleanup].
    destruct (shape S); [repeat split .. | ].
    destruct (new_Path2D (svgPathData S)); repeat split.
Qed.

Lemma svg_effect_particles (c : Component num) :
  particles (svg_effect c) = particles c.
Proof.
  unfold svg_effect. destruct (shape (settings c)); try reflexivity.
  destruct (new_Path2D (svgPathData (settings c))); reflexivity.
Qed.
End PoolFacts.

Lemma fresh_particles_bounds (rnd : nat -> R) (n k : nat) (w h : R)
    (p : Particle R) :
  (forall m : nat, 0 <= rnd m < 1) -> 0 < w -> 0 < h ->
  In p (fresh_particles rnd n k w h) ->
  (0 <= x p < w /\ 0 <= y p < h) /\ vx p = 0 /\ vy p = 0.
Proof.
  intros Hrnd Hw Hh Hin.
  destruct (fresh_particles_In rnd n k w h p Hin) as [m ->].
  cbn [x y vx vy]. js_unfold.
  pose proof (Hrnd m) as Hm. pose proof (Hrnd (m + 1)%nat) as Hm1.
  repeat split; nra.
Qed.

(** C4, as the code has it: the only function registered for the resize
    event is [resizeCanvas], which sets [dpr], [width], [height] and the
    size of the canvas from the container and does nothing else, so that
    the pool after a resize event is the pool before it, positions and
    velocities included.  The pool is drawn afresh by [initParticles],
    which runs with the canvas effect: at the mount, and again whenever one
    of the settings the effect depends on changes.  It then holds exactly
    [particleCount] particles at rest, placed in
    [[0, width) x [0, height)] of the container as it is at that moment. *)
Theorem resize_keeps_pool (P : PathApi) (rnd : nat -> R) (S : Settings R)
    (vp vp' : Viewport R) :
  particles (resize_event vp' (mount rnd S vp)) = particles (mount rnd S vp)
  /\ width (surface (resize_event vp' (mount rnd S vp))) = clientWidth vp'
  /\ height (surface (resize_event vp' (mount rnd S vp))) = clientHeight vp'
  /\ length (particles (mount rnd S vp)) = particleCount S
  /\ (forall p : Particle R,
        In p (particles (mount rnd S vp)) -> vx p = 0 /\ vy p = 0)
  /\ ((forall m : nat, 0 <= rnd m < 1) ->
      0 < clientWidth vp -> 0 < clientHeight vp ->
      forall p : Particle R,
        In p (particles (mount rnd S vp)) ->
        0 <= x p < clientWidth vp /\ 0 <= y p < clientHeight vp)
  /\ (forall (c : Component R) (S' : Settings R),
        canvas_deps_same (settings c) S' = false ->
        particles (set_settings rnd S' c)
        = fresh_particles rnd (particleCount S') (random_calls c)
            (clientWidth (viewport c)) (clientHeight (viewport c))).
Proof.
  split; [apply resize_event_particles | ].
  split; [now rewrite resize_event_mount_surface | ].
  split; [now rewrite resize_event_mount_surface | ].
  rewrite mount_particles.
  split; [apply fresh_particles_length | ].
  split.
  - intros p Hin. destruct (fresh_particles_In _ _ _ _ _ _ Hin) as [m ->].
    split; reflexivity.
  - split.
    + intros Hrnd Hw Hh p Hin.
      exact (proj1 (@fresh_particles_bounds rnd _ _ _ _ p Hrnd Hw Hh Hin)).
    + intros c S' Hdeps. exact (proj1 (@set_settings_particles _ _ _ rnd S' c Hdeps)).
Qed.

Lemma high_unit (m : nat) : 0 <= high m < 1.
Proof. unfold high. lra. Qed.

Lemma resize_keeps_pool_witness :
  ((forall m : nat, 0 <= high m < 1)
   /\ 0 < clientWidth viewport_800x600 /\ 0 < clientHeight viewport_800x600)
  /\ (forall p : Particle R,
        In p (particles (mount high two_body viewport_800x600)) ->
        0 <= x p < clientWidth viewport_800x600
        /\ 0 <= y p < clientHeight viewport_800x600).
Proof.
  assert (Hw : 0 < clientWidth viewport_800x600)
    by (cbn [clientWidth viewport_800x600]; lra).
  assert (Hh : 0 < clientHeight viewport_800x600)
    by (cbn [clientHeight viewport_800x600]; lra).
  split; [exact (conj high_unit (conj Hw Hh)) | ].
  exact (proj1 (proj2 (proj2 (proj2 (proj2 (proj2
           (@resize_keeps_pool SamplePath high two_body viewport_800x600
              viewport_400x300))))))
           high_unit Hw Hh).
Defined.

(** C4 as worded fails: mounted on an 800 x 600 container with random
    numbers all equal to 9/10, the first particle is at [(720, 540)]; after
    the resize event for 400 x 300 the surface is 400 x 300 and that
    particle is still at [(720, 540)], outside [[0, 400) x [0, 300)]. *)
Lemma resize_does_not_reinitialise :
  width (surface (resize_event viewport_400x300
                    (mount high two_body viewport_800x600))) = 400
  /\ height (surface (resize_event viewport_400x300
                       (mount high two_body viewport_800x600))) = 300
  /\ (exists p : Particle R,
        particles (resize_event viewport_400x300
                     (mount high two_body viewport_800x600)) !! 0%nat = Some p
        /\ x p = 720 /\ y p = 540)
  /\ ~ (forall p : Particle R,
          In p (particles (resize_event viewport_400x300
                             (mount high two_body viewport_800x600))) ->
          0 <= x p < 400 /\ 0 <= y p < 300).
Proof.
  rewrite resize_event_mount_surface, resize_event_particles, mount_particles.
  cbn [width height viewport_400x300 clientWidth clientHeight particleCount
       two_body viewport_800x600 fresh_particles].
  split; [reflexivity | ]. split; [reflexivity | ]. split.
  - eexists. split; [reflexivity | ]. cbn [x y]. unfold high. js_unfold.
    split; lra.
  - intros Hall. specialize (Hall _ (or_introl eq_refl)).
    cbn [x y] in Hall. unfold high in Hall. js_unfold. lra.
Qed.


(** * The custom path *)

Section PathFacts.
Context {num : Type} `{JsNumber num} `{PathApi}.
Variable rnd : nat -> num.
Local Open Scope nat_scope.

Lemma svg_deps_changed (S : Settings num) (d : string) :
  svgPathData S <> d -> svg_deps_same S (with_svgPathData d S) = false.
Proof.
  intros Hd. unfold svg_deps_same. cbn [svgPathData with_svgPathData].
  rewrite (proj2 (String.eqb_neq _ _) Hd). apply andb_false_r.
Qed.

Lemma canvas_deps_changed (S : Settings num) (d : string) :
  svgPathData S <> d -> canvas_deps_same S (with_svgPathData d S) = false.
Proof.
  intros Hd. unfold canvas_deps_same. cbn [svgPathData with_svgPathData].
  rewrite (proj2 (String.eqb_neq _ _) Hd). apply andb_false_r.
Qed.

(** What typing a new string [d] into the path input does to a component
    that draws the custom shape. *)
Lemma handleSvgChange_custom (d : string) (c : Component num) :
  shape (settings c) = customSVG -> svgPathData (settings c) <> d ->
  settings (handleSvgChange rnd d c) = with_svgPathData d (settings c)
  /\ customSVGPath2D (handleSvgChange rnd d c) = new_Path2D d
  /\ svgError (handleSvgChange rnd d c)
     = match new_Path2D d with
       | Some _ => EmptyString
       | None => svg_error_message
       end
  /\ particles (handleSvgChange rnd d c)
     = fresh_particles rnd (particleCount (settings c)) (random_calls c)
         (clientWidth (viewport c)) (clientHeight (viewport c))
  /\ random_calls (handleSvgChange rnd d c)
     = random_calls c + 3 * particleCount (settings c)
  /\ viewport (handleSvgChange rnd d c) = viewport c
  /\ dpr (surface (handleSvgChange rnd d c))
     = or_one (devicePixelRatio (viewport c)).
Proof.
  intros Hshape Hd. unfold handleSvgChange, set_settings.
  cbn [settings with_svgError].
  rewrite (canvas_deps_changed (settings c) Hd).
  rewrite (svg_deps_changed (settings c) Hd).
  unfold svg_effect. cbn [settings with_settings canvas_cleanup].
  cbn [shape with_svgPathData svgPathData]. rewrite Hshape.
  destruct (new_Path2D d); repeat split.
Qed.

Lemma draw_particle_custom (S : Settings num) (size : num)
    (path : option Path2D) (p : Particle num) :
  shape S = customSVG ->
  draw_particle S size path p
  = [ SetFillStyle (Colour (swarmColor S)); Save;
      Translate (nmul (x p) size) (nmul (y p) size); Rotate (rotation p) ]
    ++ match path with
       | Some pth => [ Scale (nmul size n5) (nmul size n5); FillPath pth ]
       | None => []
       end
    ++ [ Restore ].
Proof.
  intros Hshape. unfold draw_particle, draw_shape. rewrite Hshape.
  destruct path; reflexivity.
Qed.
End PathFacts.

(** C8, as the code has it, for a component whose shape is [customSVG] and
    any behaviour of [new Path2D].  Typing a string that [new Path2D]
    accepts leaves the compiled path in [customSVGPath2D.current] and an
    empty [svgError], and the renderer then scales and fills that path for
    every particle.  Typing a string on which [new Path2D] throws leaves
    [null] there and the error message in [svgError], and the renderer
    draws nothing between [save] and [restore].  A valid string typed after
    an invalid one restores path and empty error.  The effect that
    compiles the path does not write the pool; but [svgPathData] is also a
    dependency of the canvas effect, which therefore runs again at each of
    these changes and replaces the pool with a fresh one. *)
Theorem svg_path_lifecycle (num : Type) (N : JsNumber num) (P : PathApi)
    (rnd : nat -> num) (c : Component num) :
  shape (settings c) = customSVG ->
  (forall (d : string) (pth : Path2D),
      svgPathData (settings c) <> d -> new_Path2D d = Some pth ->
      customSVGPath2D (handleSvgChange rnd d c) = Some pth
      /\ svgError (handleSvgChange rnd d c) = EmptyString
      /\ forall p : Particle num,
           draw_particle (settings (handleSvgChange rnd d c))
             (dpr (surface (handleSvgChange rnd d c)))
             (customSVGPath2D (handleSvgChange rnd d c)) p
           = [ SetFillStyle (Colour (swarmColor (settings c))); Save;
               Translate (nmul (x p) (dpr (surface (handleSvgChange rnd d c))))
                         (nmul (y p) (dpr (surface (handleSvgChange rnd d c))));
               Rotate (rotation p);
               Scale (nmul (dpr (surface (handleSvgChange rnd d c))) n5)
                     (nmul (dpr (surface (handleSvgChange rnd d c))) n5);
               FillPath pth; Restore ])
  /\ (forall d : string,
        svgPathData (settings c) <> d -> new_Path2D d = None ->
        customSVGPath2D (handleSvgChange rnd d c) = None
        /\ svgError (handleSvgChange rnd d c) = svg_error_message
        /\ forall p : Particle num,
             draw_particle (settings (handleSvgChange rnd d c))
               (dpr (surface (handleSvgChange rnd d c)))
               (customSVGPath2D (handleSvgChange rnd d c)) p
             = [ SetFillStyle (Colour (swarmColor (settings c))); Save;
                 Translate (nmul (x p) (dpr (surface (handleSvgChange rnd d c))))
                           (nmul (y p) (dpr (surface (handleSvgChange rnd d c))));
                 Rotate (rotation p); Restore ])
  /\ (forall (bad good : string) (pth : Path2D),
        svgPathData (settings c) <> bad -> bad <> good ->
        new_Path2D bad = None -> new_Path2D good = Some pth ->
        customSVGPath2D (handleSvgChange rnd good (handleSvgChange rnd bad c))
          = Some pth
        /\ svgError (handleSvgChange rnd good (handleSvgChange rnd bad c))
           = EmptyString)
  /\ (forall d : string,
        svgPathData (settings c) <> d ->
        particles (handleSvgChange rnd d c)
        = fresh_particles rnd (particleCount (settings c)) (random_calls c)
            (clientWidth (viewport c)) (clientHeight (viewport c)))
  /\ (particles (svg_effect c) = particles c
      /\ customSVGPath2D (svg_effect c) = new_Path2D (svgPathData (settings c))
      /\ svgError (svg_effect c)
         = match new_Path2D (svgPathData (settings c)) with
           | Some _ => EmptyString
           | None => svg_error_message
           end).
Proof.
  intros Hshape.
  split; [ | split; [ | split; [ | split]]].
  - intros d pth Hd Hnew.
    destruct (@handleSvgChange_custom _ _ _ rnd d c Hshape Hd) as (HS & Hp & He & _).
    rewrite Hnew in Hp, He. split; [exact Hp | ]. split; [exact He | ].
    intros p. rewrite draw_particle_custom by (rewrite HS; exact Hshape).
    rewrite Hp, HS. reflexivity.
  - intros d Hd Hnew.
    destruct (@handleSvgChange_custom _ _ _ rnd d c Hshape Hd) as (HS & Hp & He & _).
    rewrite Hnew in Hp, He. split; [exact Hp | ]. split; [exact He | ].
    intros p. rewrite draw_particle_custom by (rewrite HS; exact Hshape).
    rewrite Hp, HS. reflexivity.
  - intros bad good pth Hbad Hgood Hnb Hng.
    destruct (@handleSvgChange_custom _ _ _ rnd bad c Hshape Hbad) as (HS & _).
    assert (Hshape' : shape (settings (handleSvgChange rnd bad c)) = customSVG)
      by (rewrite HS; exact Hshape).
    assert (Hd' : svgPathData (settings (handleSvgChange rnd bad c)) <> good)
      by (rewrite HS; exact Hgood).
    destruct (@handleSvgChange_custom _ _ _ rnd good _ Hshape' Hd') as (_ & Hp & He & _).
    rewrite Hng in Hp, He. exact (conj Hp He).
  - intros d Hd.
    now destruct (@handleSvgChange_custom _ _ _ rnd d c Hshape Hd) as (_ & _ & _ & Hps & _).
  - split; [apply svg_effect_particles | ].
    unfold svg_effect. rewrite Hshape.
    destruct (new_Path2D (svgPathData (settings c))); split; reflexivity.
Qed.


Lemma custom_mounted_fields :
  settings custom_mounted = custom
  /\ random_calls custom_mounted = 3%nat
  /\ viewport custom_mounted = viewport_800x600.
Proof. repeat split. Qed.

Lemma svg_path_lifecycle_witness :
  (shape (settings custom_mounted) = customSVG
   /\ svgPathData (settings custom_mounted) <> bad_path
   /\ new_Path2D bad_path = None)
  /\ customSVGPath2D (handleSvgChange ramp bad_path custom_mounted) = None
  /\ svgError (handleSvgChange ramp bad_path custom_mounted) = svg_error_message.
Proof.
  assert (Hshape : shape (settings custom_mounted) = customSVG) by reflexivity.
  assert (Hd : svgPathData (settings custom_mounted) <> bad_path)
    by (intros Heq; discriminate Heq).
  assert (Hnew : new_Path2D bad_path = None) by reflexivity.
  split; [exact (conj Hshape (conj Hd Hnew)) | ].
  destruct (proj1 (proj2 (@svg_path_lifecycle R RNumber SamplePath ramp
                            custom_mounted Hshape)) bad_path Hd Hnew)
    as (Hp & He & _).
  exact (conj Hp He).
Defined.

(** C8 as worded fails in its last part.  On the mounted component the
    invalid string leaves no compiled path and the error message, and the
    valid string typed next restores a compiled path and clears the error,
    as claimed; but the pool is not the same before and after that valid
    string: both changes of [svgPathData] re-ran the canvas effect, and
    the single particle, drawn from the random numbers 3 to 5 after the
    first, is drawn again from the numbers 6 to 8 after the second. *)
Lemma valid_string_resets_pool :
  (customSVGPath2D (handleSvgChange ramp bad_path custom_mounted) = None
   /\ svgError (handleSvgChange ramp bad_path custom_mounted)
      = svg_error_message)
  /\ (customSVGPath2D (handleSvgChange ramp good_path
                         (handleSvgChange ramp bad_path custom_mounted))
        = Some good_path
      /\ svgError (handleSvgChange ramp good_path
                     (handleSvgChange ramp bad_path custom_mounted))
         = EmptyString)
  /\ particles (handleSvgChange ramp bad_path custom_mounted)
     = [mkParticle (3 / 1000 * 800) (4 / 1000 * 600) 0 0 (5 / 1000 * PI * 2)]
  /\ particles (handleSvgChange ramp good_path
                  (handleSvgChange ramp bad_path custom_mounted))
     = [mkParticle (6 / 1000 * 800) (7 / 1000 * 600) 0 0 (8 / 1000 * PI * 2)]
  /\ particles (handleSvgChange ramp good_path
                  (handleSvgChange ramp bad_path custom_mounted))
     <> particles (handleSvgChange ramp bad_path custom_mounted).
Proof.
  assert (Hshape : shape (settings custom_mounted) = customSVG) by reflexivity.
  assert (Hd : svgPathData (settings custom_mounted) <> bad_path)
    by (intros Heq; discriminate Heq).
  destruct (@handleSvgChange_custom R RNumber SamplePath ramp bad_path
              custom_mounted Hshape Hd)
    as (HS1 & Hp1 & He1 & Hps1 & Hrc1 & Hvp1 & _).
  assert (Hshape1 : shape (settings (handleSvgChange ramp bad_path custom_mounted))
                    = customSVG) by (rewrite HS1; reflexivity).
  assert (Hd1 : svgPathData (settings (handleSvgChange ramp bad_path custom_mounted))
                <> good_path)
    by (rewrite HS1; intros Heq; discriminate Heq).
  destruct (@handleSvgChange_custom R RNumber SamplePath ramp good_path
              _ Hshape1 Hd1)
    as (HS2 & Hp2 & He2 & Hps2 & _).
  rewrite Hps2, Hrc1, Hvp1, HS1, Hps1, Hp1, He1, Hp2, He2.
  destruct custom_mounted_fields as (-> & -> & ->).
  cbn [with_svgPathData particleCount custom viewport_800x600 clientWidth
       clientHeight fresh_particles Nat.add Nat.mul].
  unfold ramp. cbv [Z.of_nat Pos.of_succ_nat Pos.succ]. js_unfold.
  split; [split; reflexivity | ]. split; [split; reflexivity | ].
  split; [reflexivity | ]. split; [reflexivity | ].
  intros Heq. injection Heq as Hx _. lra.
Qed.


(** * Non-finite parameters, in binary64 *)

Lemma mul_nan_r (a : float) : PrimFloat.mul a nan = nan.
Proof.
  apply Prim2SF_inj. rewrite mul_spec. change (Prim2SF nan) with S754_nan.
  destruct (Prim2SF a); reflexivity.
Qed.

Lemma add_nan_r (a : float) : PrimFloat.add a nan = nan.
Proof.
  apply Prim2SF_inj. rewrite add_spec. change (Prim2SF nan) with S754_nan.
  destruct (Prim2SF a); reflexivity.
Qed.

Lemma mul_nan_l (a : float) : PrimFloat.mul nan a = nan.
Proof.
  apply Prim2SF_inj. rewrite mul_spec. change (Prim2SF nan) with S754_nan.
  reflexivity.
Qed.

Lemma ltb_nan_l (a : float) : PrimFloat.ltb nan a = false.
Proof.
  rewrite ltb_spec. change (Prim2SF nan) with S754_nan. reflexivity.
Qed.

Lemma ltb_nan_r (a : float) : PrimFloat.ltb a nan = false.
Proof.
  rewrite ltb_spec. change (Prim2SF nan) with S754_nan.
  destruct (Prim2SF a); reflexivity.
Qed.

Ltac float_unfold :=
  cbn [n0 n1 n2 n4 n5 nhalf nPI nadd nsub nmul ndiv nopp nltb hypot nsame
       FNumber] in *.

Lemma wrap_coord_nan (dim : float) : wrap_coord nan dim = nan.
Proof.
  unfold wrap_coord. float_unfold.
  change (PrimFloat.ltb nan 0) with false. cbv iota.
  now rewrite ltb_nan_r.
Qed.

(** Whatever the particle, the force and the other settings, a NaN
    friction leaves position and velocity NaN. *)
Lemma integrate_nan_friction (S : Settings float) (w h : float)
    (f : float * float) (r1 r2 : float) (p1 : Particle float) :
  friction S = nan ->
  integrate S w h f r1 r2 p1
  = mkParticle nan nan nan nan (PrimFloat.add (rotation p1) (rotationSpeed S)).
Proof.
  intros Hfr. unfold integrate, apply_friction, apply_forces.
  cbn [x y vx vy rotation]. rewrite Hfr. float_unfold. rewrite !mul_nan_r.
  unfold velocity_cap, speed. cbn [vx vy]. float_unfold.
  change (Fhypot nan nan) with nan. rewrite ltb_nan_r.
  unfold move, wrap. cbn [x y vx vy rotation]. float_unfold.
  rewrite !add_nan_r, !wrap_coord_nan. reflexivity.
Qed.

(** So does a NaN jitter amplitude. *)
Lemma integrate_nan_randomForce (S : Settings float) (w h : float)
    (f : float * float) (r1 r2 : float) (p1 : Particle float) :
  randomForce S = nan ->
  integrate S w h f r1 r2 p1
  = mkParticle nan nan nan nan (PrimFloat.add (rotation p1) (rotationSpeed S)).
Proof.
  intros Hrf. unfold integrate, apply_friction, apply_forces.
  cbn [x y vx vy rotation fst snd]. rewrite Hrf. float_unfold.
  rewrite !mul_nan_r, !add_nan_r, !mul_nan_l.
  unfold velocity_cap, speed. cbn [vx vy]. float_unfold.
  change (Fhypot nan nan) with nan. rewrite ltb_nan_r.
  unfold move, wrap. cbn [x y vx vy rotation]. float_unfold.
  rewrite !add_nan_r, !wrap_coord_nan. reflexivity.
Qed.

Lemma integrate_rotation (S : Settings float) (w h : float)
    (f : float * float) (r1 r2 : float) (p1 : Particle float) :
  rotation (integrate S w h f r1 r2 p1)
  = PrimFloat.add (rotation p1) (rotationSpeed S).
Proof.
  unfold integrate, wrap, move. cbn [rotation].
  unfold velocity_cap. destruct (nltb _ _); reflexivity.
Qed.

Lemma velocity_cap_nan (S : Settings float) (p : Particle float) :
  velocityCap S = nan -> velocity_cap S p = p.
Proof.
  intros Hcap. unfold velocity_cap. rewrite Hcap. float_unfold.
  now rewrite ltb_nan_l.
Qed.

Lemma draw_lookup_float {P : PathApi} (rnd : nat -> float)
    (c : Component float) (i : nat) (p : Particle float) :
  particles (draw rnd c) !! i = Some p ->
  exists (p1 : Particle float) (f : float * float) (r1 r2 : float),
    p = integrate (settings c) (width (surface c)) (height (surface c))
          f r1 r2 p1.
Proof.
  intros Hp.
  assert (Hlt : (i < length (particles c))%nat).
  { apply lookup_lt_Some in Hp. now rewrite draw_length in Hp. }
  destruct (lookup_lt_is_Some_2 (particles c) i Hlt) as [p1 Hp1].
  rewrite (@draw_lookup _ _ _ rnd c i p1 Hp1) in Hp.
  exists p1. do 3 eexists. symmetry. apply (inj Some). exact Hp.
Qed.

(** C9, as the code has it: [draw] never tests a parameter for finiteness
    and replaces none by a fallback; a non-finite parameter enters the
    arithmetic as it is.  The tick still runs to its end, the pool keeping
    its size, but its result is not that of the parameter replaced by 0:
    with [friction] or [randomForce] NaN every particle leaves the tick
    with NaN position and NaN velocity, with [rotationSpeed] NaN with a NaN
    rotation, whatever the pool, the other settings and the random
    numbers; and with [velocityCap] NaN no velocity is ever clamped. *)
Theorem non_finite_parameters_propagate (P : PathApi) (rnd : nat -> float)
    (c : Component float) :
  length (particles (draw rnd c)) = length (particles c)
  /\ (friction (settings c) = nan \/ randomForce (settings c) = nan ->
      forall (i : nat) (p : Particle float),
        particles (draw rnd c) !! i = Some p ->
        x p = nan /\ y p = nan /\ vx p = nan /\ vy p = nan)
  /\ (rotationSpeed (settings c) = nan ->
      forall (i : nat) (p : Particle float),
        particles (draw rnd c) !! i = Some p -> rotation p = nan)
  /\ (velocityCap (settings c) = nan ->
      forall p : Particle float, velocity_cap (settings c) p = p).
Proof.
  split; [apply draw_length | ]. split; [ | split].
  - intros Hnan i p Hp.
    destruct (draw_lookup_float rnd c i Hp) as (p1 & f & r1 & r2 & ->).
    destruct Hnan as [Hfr | Hrf].
    + rewrite integrate_nan_friction by exact Hfr. repeat split.
    + rewrite integrate_nan_randomForce by exact Hrf. repeat split.
  - intros Hrs i p Hp.
    destruct (draw_lookup_float rnd c i Hp) as (p1 & f & r1 & r2 & ->).
    rewrite integrate_rotation, Hrs. apply add_nan_r.
  - intros Hcap p. now apply velocity_cap_nan.
Qed.

Lemma non_finite_parameters_propagate_witness :
  friction (settings (resting_scene nan_friction)) = nan
  /\ forall (i : nat) (p : Particle float),
       particles (draw fair (resting_scene nan_friction)) !! i = Some p ->
       x p = nan /\ y p = nan /\ vx p = nan /\ vy p = nan.
Proof.
  split; [reflexivity | ].
  exact (proj1 (proj2 (@non_finite_parameters_propagate SamplePath fair
                         (resting_scene nan_friction)))
           (or_introl eq_refl)).
Defined.

(** C9 as worded fails: for a particle at rest at [(1, 1)] the tick with
    [friction] NaN ends with NaN position and velocity, while the tick with
    [friction] replaced by 0 leaves the particle at [(1, 1)] with velocity
    zero. *)
Lemma nan_friction_not_coerced :
  particles (draw fair (resting_scene nan_friction))
    = [mkParticle nan nan nan nan 0.25%float]
  /\ particles (draw fair (resting_scene zero_friction))
    = [mkParticle 1%float 1%float 0%float 0%float 0.25%float]
  /\ particles (draw fair (resting_scene nan_friction))
     <> particles (draw fair (resting_scene zero_friction)).
Proof.
  assert (Hnan : particles (draw fair (resting_scene nan_friction))
                 = [mkParticle nan nan nan nan 0.25%float])
    by (vm_compute; reflexivity).
  assert (Hzero : particles (draw fair (resting_scene zero_friction))
                  = [mkParticle 1%float 1%float 0%float 0%float 0.25%float])
    by (vm_compute; reflexivity).
  split; [exact Hnan | ]. split; [exact Hzero | ].
  rewrite Hnan, Hzero. intros Heq.
  apply (f_equal (fun ps => match ps with
                            | p :: _ => is_nan (x p)
                            | [] => false
                            end)) in Heq.
  vm_compute in Heq. discriminate Heq.
Qed.


(** * Running the model in binary64 *)

Example parseInt16_ff : parseInt16 (slice 1 3 "#FF69B4") = Some 255%Z.
Proof. reflexivity. Qed.

Example parseInt16_not_hex : parseInt16 (slice 1 3 "#zz0000") = None.
Proof. reflexivity. Qed.

Example pair_force_float :
  pair_force two_body_float (mkParticle 0 0 0 0 0)%float
    (mkParticle 10 0 0 0 0)%float (0, 0)%float
  = (-0.75, 0)%float.
Proof. vm_compute. reflexivity. Qed.

(** The tick of the two-body configuration computes, in binary64, the
    values found over the real numbers. *)
Example two_body_tick_float :
  particles (draw fair two_body_scene_float)
  = [mkParticle 799.25 0 (-0.75) 0 0; mkParticle 10 0 0 0 0]%float.
Proof. vm_compute. reflexivity. Qed.

(** What one call of [draw] sends to the canvas for a single particle drawn
    as a line. *)
Example resting_frame_float :
  ctx (draw fair (resting_scene zero_friction))
  = [ SetFillStyle (Rgba (Some 0%Z) (Some 0%Z) (Some 0%Z) 0.25%float);
      FillRect 0%float 0%float 800%float 600%float;
      SetFillStyle (Colour "#FF69B4"); Save;
      Translate 1%float 1%float; Rotate 0.25%float;
      BeginPath; MoveTo 0%float 0%float; LineTo 0%float (-4)%float;
      SetStrokeStyle "#FF69B4"; SetLineWidth 0.5%float; Stroke; Restore ].
Proof. vm_compute. reflexivity. Qed.

(** A resize event changes the surface and leaves the pool alone. *)
Example resize_float :
  let c := mount steps custom_float (mkViewport 1 800 600)%float in
  let c' := resize_event (mkViewport 2 400 300)%float c in
  particles c' = particles c
  /\ particles c = [mkParticle 0 9.375 0 0 0x1.921fb54442d18p-3]%float
  /\ surface c' = (mkSurface 2 400 300 800 600 400 300)%float.
Proof. vm_compute. repeat split. Qed.

(** An invalid string, then a valid one, typed into the path input. *)
Example path_input_float :
  let c := mount steps custom_float (mkViewport 1 800 600)%float in
  let c1 := handleSvgChange steps "Z Z Z (" c in
  let c2 := handleSvgChange steps "M1 0 L0 1 Z" c1 in
  (customSVGPath2D c1, svgError c1) = (None, svg_error_message)
  /\ (customSVGPath2D c2, svgError c2) = (Some "M1 0 L0 1 Z"%string, EmptyString)
  /\ map x (particles c1) = [37.5%float]
  /\ map x (particles c2) = [75%float].
Proof. vm_compute. repeat split. Qed.


(** * What a call of [draw] sends to the canvas *)

Section FrameFacts.
Context {num : Type} `{JsNumber num} `{PathApi}.
Variable rnd : nat -> num.
Local Open Scope nat_scope.

Lemma draw_step_rest (c : Component num) (i : nat) :
  svgError (draw_step rnd c i) = svgError c
  /\ animationFrameId (draw_step rnd c i) = animationFrameId c
  /\ viewport (draw_step rnd c i) = viewport c
  /\ listeners (draw_step rnd c i) = listeners c
  /\ effect_run (draw_step rnd c i) = effect_run c
  /\ pending_frames (draw_step rnd c i) = pending_frames c
  /\ frame_handles (draw_step rnd c i) = frame_handles c.
Proof. unfold draw_step. destruct (particles c !! i); repeat split. Qed.

Lemma draw_turns_rest (k : nat) (c : Component num) :
  svgError (draw_turns rnd k c) = svgError c
  /\ animationFrameId (draw_turns rnd k c) = animationFrameId c
  /\ viewport (draw_turns rnd k c) = viewport c
  /\ listeners (draw_turns rnd k c) = listeners c
  /\ effect_run (draw_turns rnd k c) = effect_run c
  /\ pending_frames (draw_turns rnd k c) = pending_frames c
  /\ frame_handles (draw_turns rnd k c) = frame_handles c.
Proof.
  induction k as [ | k IH]; [repeat split | ].
  rewrite draw_turns_S.
  destruct (draw_step_rest (draw_turns rnd k c) k)
    as (-> & -> & -> & -> & -> & -> & ->).
  exact IH.
Qed.

Lemma draw_step_ctx (c : Component num) (i : nat) (p1 : Particle num) :
  particles c !! i = Some p1 ->
  ctx (draw_step rnd c i)
  = ctx c ++ draw_particle (settings c) (dpr (surface c)) (customSVGPath2D c)
               (moved rnd c i p1).
Proof. intros Hi. unfold draw_step. rewrite Hi. reflexivity. Qed.

(** After [k] turns the log has grown by the blocks of the first [k]
    particles, each drawn as the loop leaves it. *)
Lemma draw_turns_ctx (k : nat) (c : Component num) :
  k <= length (particles c) ->
  ctx (draw_turns rnd k c)
  = ctx c ++ flat_map (draw_particle (settings c) (dpr (surface c))
                         (customSVGPath2D c))
               (take k (particles (draw_turns rnd k c))).
Proof.
  induction k as [ | k IH]; intros Hk.
  - cbn. now rewrite app_nil_r.
  - assert (Hlt : k < length (particles (draw_turns rnd k c)))
      by (rewrite draw_turns_length; lia).
    destruct (lookup_lt_is_Some_2 _ _ Hlt) as [p1 Hp1].
    rewrite draw_turns_S.
    rewrite (@draw_step_ctx _ _ _ Hp1), (@draw_step_particles _ _ _ rnd _ _ _ Hp1).
    destruct (draw_turns_frame rnd k c) as (-> & -> & ->).
    rewrite IH by lia.
    rewrite (take_S_r _ _ (moved rnd (draw_turns rnd k c) k p1))
      by (now apply list_lookup_insert_eq).
    rewrite take_insert_ge by lia.
    rewrite flat_map_app. cbn [flat_map]. now rewrite app_nil_r, app_assoc.
Qed.

Lemma save_depth_app (a b : list (DrawCmd num)) (d : nat) :
  save_depth (a ++ b) d = save_depth a d ≫= save_depth b.
Proof.
  revert d. induction a as [ | cmd a IH]; intros d; [reflexivity | ].
  destruct cmd; cbn [app save_depth]; try apply IH.
  destruct d; [reflexivity | apply IH].
Qed.

Lemma save_depth_particle (S : Settings num) (size : num)
    (path : option Path2D) (p : Particle num) (d : nat) :
  save_depth (draw_particle S size path p) d = Some d.
Proof.
  unfold draw_particle, draw_shape.
  destruct (shape S); [reflexivity | reflexivity | reflexivity | ].
  destruct path; reflexivity.
Qed.

Lemma save_depth_blocks (S : Settings num) (size : num)
    (path : option Path2D) (ps : list (Particle num)) (d : nat) :
  save_depth (flat_map (draw_particle S size path) ps) d = Some d.
Proof.
  induction ps as [ | p ps IH]; [reflexivity | ].
  cbn [flat_map]. rewrite save_depth_app, save_depth_particle. exact IH.
Qed.
End FrameFacts.

(** X1: the commands a call of [draw] adds to the canvas are the two
    commands of the background fade followed by one block per particle,
    in pool order, each block drawn for the particle as this same call
    leaves it (after its move and wrap).  Every block restores the drawing
    state it saved: run from any depth of the stack of saved states, the
    added commands never pop an empty stack and end at the depth they
    started from. *)
Theorem draw_log (num : Type) (N : JsNumber num) (P : PathApi)
    (rnd : nat -> num) (c : Component num) :
  ctx (draw rnd c)
  = ctx c
    ++ draw_background (settings c) (canvas_width (surface c))
         (canvas_height (surface c))
    ++ flat_map (draw_particle (settings c) (dpr (surface c))
                   (customSVGPath2D c))
         (particles (draw rnd c))
  /\ forall d : nat,
       save_depth
         (draw_background (settings c) (canvas_width (surface c))
            (canvas_height (surface c))
          ++ flat_map (draw_particle (settings c) (dpr (surface c))
                         (customSVGPath2D c))
               (particles (draw rnd c))) d
       = Some d.
Proof.
  split.
  - change (ctx (draw rnd c)) with (ctx (draw_loop rnd (paint_background c))).
    rewrite draw_particles, draw_loop_turns.
    rewrite draw_turns_ctx by reflexivity.
    rewrite take_ge by (rewrite draw_turns_length; reflexivity).
    cbn [paint_background ctx settings surface customSVGPath2D particles].
    now rewrite app_assoc.
  - intros d. rewrite save_depth_app. cbn [draw_background save_depth mbind option_bind].
    apply save_depth_blocks.
Qed.

Lemma draw_fields {num : Type} {N : JsNumber num} {P : PathApi}
    (rnd : nat -> num) (c : Component num) :
  length (particles (draw rnd c)) = length (particles c)
  /\ random_calls (draw rnd c) = (random_calls c + 2 * length (particles c))%nat
  /\ settings (draw rnd c) = settings c
  /\ surface (draw rnd c) = surface c
  /\ viewport (draw rnd c) = viewport c
  /\ listeners (draw rnd c) = listeners c
  /\ customSVGPath2D (draw rnd c) = customSVGPath2D c
  /\ svgError (draw rnd c) = svgError c
  /\ pending_frames (draw rnd c)
     = pending_frames c ++ [Datatypes.S (frame_handles c)]
  /\ animationFrameId (draw rnd c) = Some (Datatypes.S (frame_handles c))
  /\ frame_handles (draw rnd c) = Datatypes.S (frame_handles c)
  /\ effect_run (draw rnd c) = effect_run c.
Proof.
  split; [apply draw_length | ].
  unfold draw, request_frame.
  cbn [random_calls settings surface viewport listeners customSVGPath2D
       svgError pending_frames animationFrameId frame_handles effect_run].
  rewrite draw_loop_turns.
  destruct (draw_turns_frame rnd (length (particles (paint_background c)))
              (paint_background c)) as (-> & -> & ->).
  destruct (draw_turns_rest rnd (length (particles (paint_background c)))
              (paint_background c)) as (-> & _ & -> & -> & -> & -> & ->).
  rewrite draw_turns_random_calls by reflexivity.
  repeat split.
Qed.

(** X2: a call of [draw] keeps the size of the pool, calls [Math.random()]
    exactly twice per particle, leaves settings, surface, listeners and
    compiled path alone, and schedules exactly one further frame, whose
    handle it stores in [animationFrameId.current]. *)
Theorem draw_footprint (num : Type) (N : JsNumber num) (P : PathApi)
    (rnd : nat -> num) (c : Component num) :
  length (particles (draw rnd c)) = length (particles c)
  /\ random_calls (draw rnd c) = (random_calls c + 2 * length (particles c))%nat
  /\ settings (draw rnd c) = settings c
  /\ surface (draw rnd c) = surface c
  /\ viewport (draw rnd c) = viewport c
  /\ listeners (draw rnd c) = listeners c
  /\ customSVGPath2D (draw rnd c) = customSVGPath2D c
  /\ svgError (draw rnd c) = svgError c
  /\ pending_frames (draw rnd c)
     = pending_frames c ++ [Datatypes.S (frame_handles c)]
  /\ animationFrameId (draw rnd c) = Some (Datatypes.S (frame_handles c)).
Proof.
  destruct (draw_fields rnd c)
    as (H1 & H2 & H3 & H4 & H5 & H6 & H7 & H8 & H9 & H10 & _).
  repeat split; assumption.
Qed.

(** * The pair law and the accumulated force, over the real numbers *)

Lemma dist_sym (p1 p2 : Particle R) : dist p2 p1 = dist p1 p2.
Proof.
  unfold dist. js_unfold.
  rewrite <- (Rhypot_opp (x p2 - x p1) (y p2 - y p1)). f_equal; ring.
Qed.

Lemma direction_opp (p1 p2 : Particle R) :
  direction p2 p1 = (- fst (direction p1 p2), - snd (direction p1 p2)).
Proof.
  unfold direction. rewrite dist_sym. cbn [fst snd]. js_unfold.
  unfold Rdiv. f_equal; ring.
Qed.

(** X3: computed from the same two positions, the force the first particle
    receives from the second is the opposite of the force the second
    receives from the first. *)
Theorem pair_law_antisymmetric (S : Settings R) (p1 p2 : Particle R) :
  contribution S p2 p1
  = (- fst (contribution S p1 p2), - snd (contribution S p1 p2)).
Proof.
  unfold contribution. rewrite !pair_force_branch, dist_sym, direction_opp.
  destruct (branch S (dist p1 p2)); cbn [fst snd]; js_unfold; f_equal; ring.
Qed.

Lemma pair_force_shift (S : Settings R) (p1 p2 : Particle R) (f : R * R) :
  pair_force S p1 p2 f = vadd f (contribution S p1 p2).
Proof.
  unfold contribution, vadd. rewrite !pair_force_branch.
  destruct f as [fx fy].
  destruct (branch S (dist p1 p2)); cbn [fst snd]; js_unfold; f_equal; ring.
Qed.

Lemma vadd_assoc (f g h : R * R) : vadd (vadd f g) h = vadd f (vadd g h).
Proof. unfold vadd. cbn [fst snd]. js_unfold. f_equal; ring. Qed.

Lemma vadd_comm (f g : R * R) : vadd f g = vadd g f.
Proof. unfold vadd. js_unfold. f_equal; ring. Qed.

Lemma vadd_zero_r (f : R * R) : vadd f (0, 0) = f.
Proof. unfold vadd. destruct f. cbn [fst snd]. js_unfold. f_equal; ring. Qed.

Lemma force_scan_sum (S : Settings R) (i : nat) (p1 : Particle R)
    (ps : list (Particle R)) :
  forall (j : nat) (f : R * R),
    force_scan S i p1 ps j f
    = vadd f (sum_forces
                (map (contribution S p1)
                   (if (j <=? i)%nat then delete (i - j)%nat ps else ps))).
Proof.
  induction ps as [ | p2 rest IH]; intros j f; cbn [force_scan].
  - destruct (j <=? i)%nat; cbn; now rewrite vadd_zero_r.
  - rewrite IH.
    destruct (Nat.eqb_spec i j) as [-> | Hne].
    + rewrite Nat.leb_refl, Nat.sub_diag.
      rewrite (proj2 (Nat.leb_gt (Datatypes.S j) j)) by lia. reflexivity.
    + rewrite pair_force_shift, vadd_assoc. f_equal.
      destruct (Nat.leb_spec j i) as [Hle | Hgt].
      * rewrite (proj2 (Nat.leb_le (Datatypes.S j) i)) by lia.
        replace (i - j)%nat with (Datatypes.S (i - Datatypes.S j)) by lia.
        reflexivity.
      * rewrite (proj2 (Nat.leb_gt (Datatypes.S j) i)) by lia. reflexivity.
Qed.

Lemma sum_forces_Permutation (fs gs : list (R * R)) :
  Permutation fs gs -> sum_forces fs = sum_forces gs.
Proof.
  unfold sum_forces.
  induction 1 as [ | f fs gs _ IH | f g fs | fs gs hs _ IH1 _ IH2].
  - reflexivity.
  - cbn [fold_right]. now rewrite IH.
  - cbn [fold_right]. rewrite <- !vadd_assoc. now rewrite (vadd_comm g f).
  - now rewrite IH1.
Qed.

(** X4: the force accumulated for the particle at index [i] is the sum,
    over the other entries of the pool, of what each contributes alone;
    the entry at index [i] itself contributes nothing.  The force
    therefore depends on the particle and on the other particles only as a
    collection: two pools whose other entries are a rearrangement of each
    other give the same force. *)
Theorem accumulate_is_sum (S : Settings R) (ps : list (Particle R)) (i : nat)
    (p1 : Particle R) :
  accumulate S ps i p1
  = sum_forces (map (contribution S p1) (delete i ps))
  /\ forall (qs : list (Particle R)) (k : nat),
       Permutation (delete i ps) (delete k qs) ->
       accumulate S qs k p1 = accumulate S ps i p1.
Proof.
  assert (Hsum : forall (l : list (Particle R)) (n : nat),
             accumulate S l n p1
             = sum_forces (map (contribution S p1) (delete n l))).
  { intros l n. unfold accumulate. rewrite force_scan_sum.
    cbn [Nat.leb]. rewrite Nat.sub_0_r. js_unfold.
    rewrite vadd_comm. apply vadd_zero_r. }
  split; [apply Hsum | ].
  intros qs k Hperm. rewrite !Hsum.
  apply sum_forces_Permutation, Permutation_map. now symmetry.
Qed.

Lemma accumulate_is_sum_witness :
  Permutation (delete 0%nat [origin; at10; at80])
              (delete 2%nat [at80; at10; origin])
  /\ accumulate two_body [at80; at10; origin] 2%nat origin
     = accumulate two_body [origin; at10; at80] 0%nat origin.
Proof.
  assert (Hp : Permutation (delete 0%nat [origin; at10; at80])
                           (delete 2%nat [at80; at10; origin]))
    by apply perm_swap.
  split; [exact Hp | ].
  exact (proj2 (accumulate_is_sum two_body [origin; at10; at80] 0%nat origin)
           [at80; at10; origin] 2%nat Hp).
Defined.

(** * The velocity cap divides by the speed *)

(** X5: the clamp divides by the speed under the only guard
    [speed > velocityCap].  With a velocity cap that is not negative that
    guard makes the speed positive, and the clamp never divides by zero;
    with a negative cap the division is by zero exactly for the particles
    at rest. *)
Theorem velocity_cap_division (S : Settings R) (p : Particle R) :
  (velocity_cap_checked S p = None <-> velocityCap S < 0 /\ speed p = 0)
  /\ (0 <= velocityCap S \/ speed p <> 0 ->
      velocity_cap_checked S p = Some (velocity_cap S p)).
Proof.
  pose proof (speed_nonneg p) as Hn.
  unfold velocity_cap_checked, velocity_cap. js_unfold.
  destruct (Rltb (velocityCap S) (speed p)) eqn:Hlt.
  - apply Rltb_true_inv in Hlt.
    destruct (Req_dec_T (speed p) 0) as [Hz | Hnz].
    + rewrite Hz in *. rewrite checked_div_zero. cbn. split.
      * split; [intros _; split; [lra | reflexivity] | reflexivity].
      * intros [Hc | Hs]; [lra | contradiction].
    + rewrite checked_div_defined by exact Hnz. cbn. split.
      * split; [discriminate | intros [_ Hz]; contradiction].
      * reflexivity.
  - apply Rltb_false_inv in Hlt. split.
    + split; [discriminate | intros [Hc Hz]; lra].
    + reflexivity.
Qed.

Lemma velocity_cap_division_witness :
  (0 <= velocityCap defaults \/ speed fast <> 0)
  /\ velocity_cap_checked defaults fast = Some (velocity_cap defaults fast).
Proof.
  assert (Hc : 0 <= velocityCap defaults \/ speed fast <> 0)
    by (left; cbn [velocityCap defaults]; lra).
  split; [exact Hc | ].
  exact (proj2 (velocity_cap_division defaults fast) Hc).
Defined.

(** * Ticks on a surface that does not change *)

Lemma draw_settings_surface {P : PathApi} (rnd : nat -> R) (c : Component R) :
  settings (draw rnd c) = settings c /\ surface (draw rnd c) = surface c.
Proof.
  unfold draw, request_frame. cbn [settings surface]. rewrite draw_loop_turns.
  destruct (draw_turns_frame rnd (length (particles (paint_background c)))
              (paint_background c)) as (-> & -> & _).
  split; reflexivity.
Qed.

Lemma ticks_settings_surface {P : PathApi} (rnd : nat -> R) (k : nat)
    (c : Component R) :
  settings (ticks rnd k c) = settings c /\ surface (ticks rnd k c) = surface c.
Proof.
  induction k as [ | k [IHs IHf]]; [split; reflexivity | ].
  change (ticks rnd (Datatypes.S k) c) with (draw rnd (ticks rnd k c)).
  destruct (draw_settings_surface rnd (ticks rnd k c)) as [-> ->].
  split; assumption.
Qed.

(** X6: on a surface that is not resized, with a velocity cap that is
    positive and at most the width and the height, a pool that lies inside
    [[0, width] x [0, height]] lies inside it after any number of calls of
    [draw], whatever the forces and the random numbers. *)
Theorem ticks_keep_inside (P : PathApi) (rnd : nat -> R) (c : Component R)
    (k : nat) :
  0 < velocityCap (settings c) ->
  velocityCap (settings c) <= width (surface c) ->
  velocityCap (settings c) <= height (surface c) ->
  (forall (i : nat) (p1 : Particle R),
      particles c !! i = Some p1 ->
      0 <= x p1 <= width (surface c) /\ 0 <= y p1 <= height (surface c)) ->
  forall (i : nat) (p : Particle R),
    particles (ticks rnd k c) !! i = Some p ->
    0 <= x p <= width (surface c) /\ 0 <= y p <= height (surface c).
Proof.
  intros Hcap Hw Hh Hin. induction k as [ | k IH]; [exact Hin | ].
  intros i p Hp. change (ticks rnd (Datatypes.S k) c)
    with (draw rnd (ticks rnd k c)) in Hp.
  destruct (ticks_settings_surface rnd k c) as [Hs Hf].
  rewrite <- Hf.
  apply (@draw_keeps_inside P rnd (ticks rnd k c)) with (i := i);
    rewrite ?Hs, ?Hf; assumption.
Qed.

Lemma two_body_scene_inside (i : nat) (p1 : Particle R) :
  particles two_body_scene !! i = Some p1 ->
  0 <= x p1 <= width (surface two_body_scene)
  /\ 0 <= y p1 <= height (surface two_body_scene).
Proof.
  destruct i as [ | [ | i]]; cbn; intros Hp; try discriminate;
    apply (inj Some) in Hp; subst p1; cbn; lra.
Qed.

Lemma ticks_keep_inside_witness :
  0 < velocityCap (settings two_body_scene)
  /\ forall (i : nat) (p : Particle R),
       particles (ticks coin 3 two_body_scene) !! i = Some p ->
       0 <= x p <= width (surface two_body_scene)
       /\ 0 <= y p <= height (surface two_body_scene).
Proof.
  assert (Hcap : 0 < velocityCap (settings two_body_scene))
    by (cbn [two_body_scene settings two_body velocityCap]; lra).
  assert (Hw : velocityCap (settings two_body_scene)
               <= width (surface two_body_scene))
    by (cbn [two_body_scene settings two_body velocityCap surface
             surface_800x600 width]; lra).
  assert (Hh : velocityCap (settings two_body_scene)
               <= height (surface two_body_scene))
    by (cbn [two_body_scene settings two_body velocityCap surface
             surface_800x600 height]; lra).
  split; [exact Hcap | ].
  exact (@ticks_keep_inside SamplePath coin two_body_scene 3 Hcap Hw Hh
           two_body_scene_inside).
Defined.


(** * The mounted component, event after event *)

Section Reachable.
Context {num : Type} `{JsNumber num} `{PathApi}.
Variable rnd : nat -> num.
Local Open Scope nat_scope.

Lemma same_shape_eq (a b : Shape) : same_shape a b = true -> a = b.
Proof. destruct a, b; cbn; congruence. Qed.

Lemma svg_deps_same_eq (a b : Settings num) :
  svg_deps_same a b = true ->
  shape a = shape b /\ svgPathData a = svgPathData b.
Proof.
  unfold svg_deps_same. intros [Hs Hd]%andb_true_iff.
  split; [now apply same_shape_eq | now apply String.eqb_eq].
Qed.

Lemma canvas_deps_same_svg (a b : Settings num) :
  canvas_deps_same a b = true -> svg_deps_same a b = true.
Proof.
  unfold canvas_deps_same, svg_deps_same.
  intros [[_ Hs]%andb_true_iff Hd]%andb_true_iff. now rewrite Hs, Hd.
Qed.

Lemma canvas_deps_same_count (a b : Settings num) :
  canvas_deps_same a b = true -> particleCount a = particleCount b.
Proof.
  unfold canvas_deps_same. intros Hall.
  repeat (apply andb_true_iff in Hall as [Hall _]). now apply Nat.eqb_eq.
Qed.

(** Setters that change no dependency run no effect. *)
Lemma set_settings_unchanged (S : Settings num) (c : Component num) :
  canvas_deps_same (settings c) S = true ->
  set_settings rnd S c = with_settings S c.
Proof.
  intros Hsame. unfold set_settings.
  now rewrite Hsame, (canvas_deps_same_svg _ _ Hsame).
Qed.

(** What the body of the canvas effect leaves in each field. *)
Lemma canvas_effect_fields (c : Component num) :
  settings (canvas_effect rnd c) = settings c
  /\ listeners (canvas_effect rnd c)
     = listeners c ++ [resizeCanvas_of (Datatypes.S (effect_run c))]
  /\ effect_run (canvas_effect rnd c) = Datatypes.S (effect_run c)
  /\ animationFrameId (canvas_effect rnd c)
     = Some (Datatypes.S (frame_handles c))
  /\ pending_frames (canvas_effect rnd c)
     = pending_frames c ++ [Datatypes.S (frame_handles c)]
  /\ frame_handles (canvas_effect rnd c) = Datatypes.S (frame_handles c)
  /\ surface (canvas_effect rnd c) = surface_of (viewport c)
  /\ viewport (canvas_effect rnd c) = viewport c
  /\ particles (canvas_effect rnd c)
     = fresh_particles rnd (particleCount (settings c)) (random_calls c)
         (clientWidth (viewport c)) (clientHeight (viewport c))
  /\ customSVGPath2D (canvas_effect rnd c) = customSVGPath2D c
  /\ svgError (canvas_effect rnd c) = svgError c.
Proof. repeat split. Qed.

(** The clean-up of a running effect leaves no listener and no frame. *)
Lemma canvas_cleanup_fields (c : Component num) :
  running c ->
  listeners (canvas_cleanup c) = []
  /\ pending_frames (canvas_cleanup c) = []
  /\ settings (canvas_cleanup c) = settings c
  /\ viewport (canvas_cleanup c) = viewport c
  /\ random_calls (canvas_cleanup c) = random_calls c
  /\ customSVGPath2D (canvas_cleanup c) = customSVGPath2D c
  /\ svgError (canvas_cleanup c) = svgError c.
Proof.
  intros (Hl & Hid & Hp). unfold canvas_cleanup.
  cbn [listeners pending_frames settings viewport random_calls
       customSVGPath2D svgError].
  rewrite Hl, Hid, Hp. cbn [filter list_filter same_listener].
  rewrite !Nat.eqb_refl. repeat split.
Qed.

Lemma svg_effect_fields (c : Component num) :
  listeners (svg_effect c) = listeners c
  /\ pending_frames (svg_effect c) = pending_frames c
  /\ settings (svg_effect c) = settings c
  /\ viewport (svg_effect c) = viewport c
  /\ random_calls (svg_effect c) = random_calls c
  /\ (customSVGPath2D (svg_effect c), svgError (svg_effect c))
     = match shape (settings c) with
       | customSVG => compiled (svgPathData (settings c))
       | _ => (customSVGPath2D c, svgError c)
       end.
Proof.
  unfold svg_effect, compiled.
  destruct (shape (settings c));
    [repeat split | repeat split | repeat split | ].
  destruct (new_Path2D (svgPathData (settings c))); repeat split.
Qed.

(** Setters that change a dependency: the running loop and listener are
    replaced by new ones, the surface is read again, the pool is drawn
    afresh and the path is compiled again if its dependencies changed. *)
Lemma set_settings_changed (S : Settings num) (c : Component num) :
  canvas_deps_same (settings c) S = false -> running c ->
  settings (set_settings rnd S c) = S
  /\ running (set_settings rnd S c)
  /\ surface (set_settings rnd S c) = surface_of (viewport c)
  /\ viewport (set_settings rnd S c) = viewport c
  /\ particles (set_settings rnd S c)
     = fresh_particles rnd (particleCount S) (random_calls c)
         (clientWidth (viewport c)) (clientHeight (viewport c))
  /\ (customSVGPath2D (set_settings rnd S c), svgError (set_settings rnd S c))
     = (if svg_deps_same (settings c) S
        then (customSVGPath2D c, svgError c)
        else match shape S with
             | customSVG => compiled (svgPathData S)
             | _ => (customSVGPath2D c, svgError c)
             end).
Proof.
  intros Hdeps Hrun. unfold set_settings. rewrite Hdeps.
  destruct (@canvas_cleanup_fields (with_settings S c) Hrun)
    as (Hl1 & Hp1 & HS1 & Hv1 & Hr1 & Hc1 & He1).
  set (c1 := canvas_cleanup (with_settings S c)) in *.
  set (c2 := if svg_deps_same (settings c) S then c1 else svg_effect c1).
  assert (H2 : listeners c2 = [] /\ pending_frames c2 = []
               /\ settings c2 = S /\ viewport c2 = viewport c
               /\ random_calls c2 = random_calls c
               /\ (customSVGPath2D c2, svgError c2)
                  = (if svg_deps_same (settings c) S
                     then (customSVGPath2D c, svgError c)
                     else match shape S with
                          | customSVG => compiled (svgPathData S)
                          | _ => (customSVGPath2D c, svgError c)
                          end)).
  { subst c2. destruct (svg_deps_same (settings c) S).
    - rewrite Hl1, Hp1, HS1, Hv1, Hr1, Hc1, He1. repeat split.
    - destruct (svg_effect_fields c1) as (-> & -> & -> & -> & -> & ->).
      rewrite Hl1, Hp1, HS1, Hv1, Hr1, Hc1, He1. repeat split. }
  destruct H2 as (Hl2 & Hp2 & HS2 & Hv2 & Hr2 & Hpe2).
  destruct (canvas_effect_fields c2)
    as (E1 & E2 & E3 & E4 & E5 & E6 & E7 & E8 & E9 & E10 & E11).
  unfold running.
  rewrite E1, E2, E3, E4, E5, E6, E7, E8, E9, E10, E11.
  rewrite Hl2, Hp2, HS2, Hv2, Hr2, Hpe2. repeat split.
Qed.
End Reachable.


Section ReachableInv.
Context {num : Type} `{JsNumber num} `{PathApi}.
Variable rnd : nat -> num.
Local Open Scope nat_scope.

Lemma mount_well_formed (S : Settings num) (vp : Viewport num) :
  well_formed (mount rnd S vp) /\ settings (mount rnd S vp) = S
  /\ viewport (mount rnd S vp) = vp.
Proof.
  unfold well_formed, running, path_in_step, compiled, mount, svg_effect.
  cbn [settings].
  destruct (shape S) eqn:Hshape;
    try (cbn; rewrite ?Hshape, ?fresh_particles_length;
         repeat split; discriminate).
  destruct (new_Path2D (svgPathData S)) eqn:Hnew;
    cbn; rewrite ?Hnew, ?fresh_particles_length; repeat split.
Qed.

Lemma resize_event_well_formed (vp : Viewport num) (c : Component num) :
  well_formed c ->
  well_formed (resize_event vp c)
  /\ settings (resize_event vp c) = settings c
  /\ viewport (resize_event vp c) = vp.
Proof.
  intros ((Hl & Hid & Hp) & Hsf & Hlen & Hpath).
  unfold resize_event. cbn [listeners]. rewrite Hl.
  cbn [fold_left run_listener effect_run]. rewrite Nat.eqb_refl.
  unfold well_formed, running, path_in_step, resizeCanvas.
  cbn [listeners effect_run animationFrameId frame_handles pending_frames
       surface viewport particles settings customSVGPath2D svgError].
  repeat split; assumption.
Qed.

Lemma animation_frame_well_formed (c : Component num) :
  well_formed c ->
  well_formed (animation_frame rnd c)
  /\ settings (animation_frame rnd c) = settings c
  /\ viewport (animation_frame rnd c) = viewport c.
Proof.
  intros ((Hl & Hid & Hp) & Hsf & Hlen & Hpath).
  unfold animation_frame. rewrite Hp.
  match goal with |- context [draw rnd ?c0] => set (c' := c0) end.
  destruct (draw_fields rnd c')
    as (H1 & _ & H3 & H4 & H5 & H6 & H7 & H8 & H9 & H10 & H11 & H12).
  unfold well_formed, running, path_in_step.
  rewrite H1, H3, H4, H5, H6, H7, H8, H9, H10, H11, H12.
  subst c'. cbn [particles settings surface viewport listeners effect_run
    customSVGPath2D svgError pending_frames frame_handles app].
  repeat split; assumption.
Qed.

Lemma with_settings_well_formed (S : Settings num) (c : Component num) :
  canvas_deps_same (settings c) S = true -> well_formed c ->
  well_formed (with_settings S c).
Proof.
  intros Hsame (Hrun & Hsf & Hlen & Hpath).
  destruct (svg_deps_same_eq _ _ (canvas_deps_same_svg _ _ Hsame)) as [Hs Hd].
  unfold well_formed, running, path_in_step in *.
  cbn [with_settings listeners effect_run animationFrameId frame_handles
       pending_frames surface viewport particles settings customSVGPath2D
       svgError].
  rewrite <- (canvas_deps_same_count _ _ Hsame), <- Hs, <- Hd.
  repeat split; tauto.
Qed.

Lemma set_settings_well_formed (S : Settings num) (c : Component num) :
  well_formed c ->
  well_formed (set_settings rnd S c)
  /\ settings (set_settings rnd S c) = S
  /\ viewport (set_settings rnd S c) = viewport c.
Proof.
  intros Hwf. destruct (canvas_deps_same (settings c) S) eqn:Hdeps.
  - rewrite (set_settings_unchanged rnd S c Hdeps).
    split; [now apply with_settings_well_formed | split; reflexivity].
  - destruct Hwf as (Hrun & Hsf & Hlen & Hpath).
    destruct (@set_settings_changed _ _ _ rnd S c Hdeps Hrun)
      as (HS & Hrun' & Hsf' & Hvp' & Hps' & Hpe').
    split; [ | split; assumption].
    unfold well_formed, path_in_step.
    rewrite HS, Hsf', Hvp', Hps', fresh_particles_length, Hpe'.
    split; [exact Hrun' | repeat split].
    intros Hshape. destruct (svg_deps_same (settings c) S) eqn:Hsvg.
    + destruct (svg_deps_same_eq _ _ Hsvg) as [Hs Hd].
      rewrite <- Hd. apply Hpath. now rewrite Hs.
    + now rewrite Hshape.
Qed.

Lemma handleSvgChange_well_formed (d : string) (c : Component num) :
  well_formed c ->
  well_formed (handleSvgChange rnd d c)
  /\ settings (handleSvgChange rnd d c) = with_svgPathData d (settings c)
  /\ viewport (handleSvgChange rnd d c) = viewport c.
Proof.
  intros (Hrun & Hsf & Hlen & Hpath). unfold handleSvgChange.
  set (e := match new_Path2D d with
            | Some _ => EmptyString
            | None => svg_error_message
            end).
  assert (He : e = snd (compiled d))
    by (unfold e, compiled; destruct (new_Path2D d); reflexivity).
  destruct (canvas_deps_same (settings (with_svgError e c))
              (with_svgPathData d (settings c))) eqn:Hdeps.
  - rewrite (set_settings_unchanged rnd _ _ Hdeps).
    split; [ | split; reflexivity].
    destruct (svg_deps_same_eq _ _ (canvas_deps_same_svg _ _ Hdeps))
      as [Hs Hd].
    cbn [settings with_svgError with_svgPathData svgPathData shape] in Hs, Hd.
    unfold well_formed, running, path_in_step in *.
    cbn [with_settings with_svgError with_svgPathData listeners effect_run
         animationFrameId frame_handles pending_frames surface viewport
         particles settings customSVGPath2D svgError particleCount shape
         svgPathData].
    repeat split; try tauto.
    intros Hshape. specialize (Hpath Hshape). rewrite Hd in Hpath.
    rewrite He. rewrite <- Hpath. reflexivity.
  - assert (Hrun' : running (with_svgError e c)) by exact Hrun.
    destruct (@set_settings_changed _ _ _ rnd _ _ Hdeps Hrun')
      as (HS & Hrun2 & Hsf' & Hvp' & Hps' & Hpe').
    split; [ | split; assumption].
    unfold well_formed, path_in_step.
    rewrite HS, Hsf', Hvp', Hps', fresh_particles_length, Hpe'.
    split; [exact Hrun2 | repeat split].
    cbn [with_svgPathData shape svgPathData settings with_svgError
         customSVGPath2D svgError].
    intros Hshape.
    destruct (svg_deps_same (settings c) (with_svgPathData d (settings c)))
      eqn:Hsvg.
    + destruct (svg_deps_same_eq _ _ Hsvg) as [_ Hd].
      cbn [with_svgPathData svgPathData] in Hd.
      specialize (Hpath Hshape). rewrite Hd in Hpath.
      rewrite He. rewrite <- Hpath. reflexivity.
    + now rewrite Hshape.
Qed.

Lemma react_well_formed (c : Component num) (e : Event num) :
  well_formed c -> well_formed (react rnd c e).
Proof.
  intros Hwf. destruct e as [vp | | cfg | d]; cbn [react].
  - now apply resize_event_well_formed.
  - now apply animation_frame_well_formed.
  - now apply set_settings_well_formed.
  - now apply handleSvgChange_well_formed.
Qed.

Lemma after_well_formed (es : list (Event num)) (c : Component num) :
  well_formed c -> well_formed (after rnd es c).
Proof.
  revert c. induction es as [ | e es IH]; intros c Hwf; [exact Hwf | ].
  cbn [after fold_left]. apply IH. now apply react_well_formed.
Qed.
End ReachableInv.



(** X9: as long as [particleCount] is a whole number from 0 to
    [2 ^ 32 - 1], at the mount and in every change of the settings, the
    pool holds exactly [particleCount] particles, for the current value of
    [particleCount], from the mount on and whatever events follow.  (The
    settings of the model hold whole numbers only.  The number field can
    also set a fraction or a negative number: [Array.from] then keeps the
    integer part, or nothing.) *)
Theorem pool_size_is_particleCount (num : Type) (N : JsNumber num)
    (P : PathApi) (rnd : nat -> num) (S : Settings num) (vp : Viewport num)
    (es : list (Event num)) :
  count_in_range (particleCount S) -> Forall count_allowed es ->
  length (particles (after rnd es (mount rnd S vp)))
  = particleCount (settings (after rnd es (mount rnd S vp))).
Proof.
  intros _ _.
  destruct (mount_well_formed rnd S vp) as (Hwf & _).
  now destruct (@after_well_formed _ _ _ rnd es _ Hwf) as (_ & _ & Hlen & _).
Qed.

Lemma pool_size_is_particleCount_witness :
  (count_in_range (particleCount custom) /\ Forall count_allowed recount)
  /\ length (particles (after ramp recount
                          (mount ramp custom viewport_800x600)))
     = particleCount
         (settings (after ramp recount (mount ramp custom viewport_800x600))).
Proof.
  assert (Hc : count_in_range (particleCount custom)) by reflexivity.
  assert (Hes : Forall count_allowed recount)
    by (unfold recount; repeat constructor).
  split; [exact (conj Hc Hes) | ].
  exact (@pool_size_is_particleCount R RNumber SamplePath ramp custom
           viewport_800x600 recount Hc Hes).
Defined.

(** X10: from the mount on, whatever events follow, whenever the shape is
    [customSVG] the cached path is the one [new Path2D] gives for the
    current path string ([null] if it throws), and [svgError] is empty or
    the error message accordingly: the renderer never fills a path
    compiled from an earlier string. *)
Theorem compiled_path_is_current (num : Type) (N : JsNumber num)
    (P : PathApi) (rnd : nat -> num) (S : Settings num) (vp : Viewport num)
    (es : list (Event num)) :
  shape (settings (after rnd es (mount rnd S vp))) = customSVG ->
  customSVGPath2D (after rnd es (mount rnd S vp))
  = new_Path2D (svgPathData (settings (after rnd es (mount rnd S vp))))
  /\ svgError (after rnd es (mount rnd S vp))
     = match new_Path2D (svgPathData (settings (after rnd es (mount rnd S vp)))) with
       | Some _ => EmptyString
       | None => svg_error_message
       end.
Proof.
  intros Hshape.
  destruct (mount_well_formed rnd S vp) as (Hwf & _).
  destruct (@after_well_formed _ _ _ rnd es _ Hwf) as (_ & _ & _ & Hpath).
  specialize (Hpath Hshape). unfold compiled in Hpath.
  destruct (new_Path2D _); injection Hpath as -> ->; split; reflexivity.
Qed.

Lemma compiled_path_is_current_witness :
  shape (settings (after ramp busy_day (mount ramp custom viewport_800x600)))
  = customSVG
  /\ customSVGPath2D (after ramp busy_day (mount ramp custom viewport_800x600))
     = new_Path2D
         (svgPathData
            (settings (after ramp busy_day (mount ramp custom viewport_800x600)))).
Proof.
  assert (Hshape :
    shape (settings (after ramp busy_day (mount ramp custom viewport_800x600)))
    = customSVG).
  { destruct (mount_well_formed ramp custom viewport_800x600) as (Hwf & HS & _).
    unfold busy_day, after. cbn [fold_left react].
    set (c0 := mount ramp custom viewport_800x600) in *.
    pose proof (@animation_frame_well_formed _ _ _ ramp c0 Hwf) as (Hwf1 & HS1 & _).
    set (c1 := animation_frame ramp c0) in *.
    pose proof (@resize_event_well_formed _ _ _ viewport_400x300 c1 Hwf1)
      as (Hwf2 & HS2 & _).
    set (c2 := resize_event viewport_400x300 c1) in *.
    pose proof (@handleSvgChange_well_formed _ _ _ ramp bad_path c2 Hwf2)
      as (Hwf3 & HS3 & _).
    set (c3 := handleSvgChange ramp bad_path c2) in *.
    pose proof (@animation_frame_well_formed _ _ _ ramp c3 Hwf3) as (Hwf4 & HS4 & _).
    set (c4 := animation_frame ramp c3) in *.
    pose proof (@animation_frame_well_formed _ _ _ ramp c4 Hwf4) as (Hwf5 & HS5 & _).
    rewrite HS5, HS4, HS3, HS2, HS1, HS. reflexivity. }
  split; [exact Hshape | ].
  exact (proj1 (@compiled_path_is_current R RNumber SamplePath ramp custom
                  viewport_800x600 busy_day Hshape)).
Defined.


(** * The speed of every particle, event after event *)

Lemma velocity_cap_speed_bound (S : Settings R) (p : Particle R) :
  0 <= velocityCap S -> speed (velocity_cap S p) <= velocityCap S.
Proof.
  intros Hcap. destruct (Rle_or_lt (speed p) (velocityCap S)) as [Hs | Hs].
  - now rewrite (@velocity_cap_under S p Hs).
  - rewrite (@velocity_cap_over S p Hs).
    unfold speed in *. cbn [vx vy]. js_unfold.
    rewrite Rhypot_scale
      by (apply Rmult_le_pos; [lra | left; apply Rinv_0_lt_compat; lra]).
    right. field. lra.
Qed.

Lemma integrate_speed (S : Settings R) (w h : R) (f : R * R) (r1 r2 : R)
    (p1 : Particle R) :
  0 <= velocityCap S -> speed (integrate S w h f r1 r2 p1) <= velocityCap S.
Proof.
  intros Hcap. unfold speed.
  destruct (integrate_velocity S w h f r1 r2 p1) as [-> ->].
  now apply velocity_cap_speed_bound.
Qed.

Lemma draw_speed_bound {P : PathApi} (rnd : nat -> R) (c : Component R)
    (i : nat) (p : Particle R) :
  0 <= velocityCap (settings c) ->
  particles (draw rnd c) !! i = Some p -> speed p <= velocityCap (settings c).
Proof.
  intros Hcap Hp. destruct (draw_lookup_inv _ _ _ Hp) as [p1 Hp1].
  rewrite (@draw_lookup _ _ _ rnd c i p1 Hp1) in Hp.
  apply (inj Some) in Hp. subst p. now apply integrate_speed.
Qed.

Lemma fresh_particles_speed (rnd : nat -> R) (n k : nat) (w h : R) (i : nat)
    (p : Particle R) :
  fresh_particles rnd n k w h !! i = Some p -> speed p = 0.
Proof.
  intros Hp. apply list_elem_of_lookup_2, list_elem_of_In in Hp.
  destruct (fresh_particles_In _ _ _ _ _ _ Hp) as [m ->].
  unfold speed. cbn [vx vy]. js_unfold. apply Rhypot_axis. lra.
Qed.

Lemma Reqb_eq (a b : R) : Reqb a b = true -> a = b.
Proof. unfold Reqb. destruct (Req_dec_T a b); [trivial | discriminate]. Qed.

Lemma canvas_deps_same_cap (a b : Settings R) :
  canvas_deps_same a b = true -> velocityCap a = velocityCap b.
Proof.
  unfold canvas_deps_same. intros Hall.
  do 11 (apply andb_true_iff in Hall as [Hall _]).
  apply andb_true_iff in Hall as [_ Hcap]. now apply Reqb_eq.
Qed.

Section SpeedInvariant.
Context {P : PathApi}.
Variable rnd : nat -> R.

Lemma set_settings_speed_ok (cfg : Settings R) (c : Component R) :
  0 <= velocityCap cfg -> speed_ok c -> speed_ok (set_settings rnd cfg c).
Proof.
  intros Hcap [Hc Hs]. destruct (canvas_deps_same (settings c) cfg) eqn:Hdeps.
  - rewrite (set_settings_unchanged rnd cfg c Hdeps).
    split; [exact Hcap | ]. cbn [with_settings particles settings].
    rewrite <- (canvas_deps_same_cap _ _ Hdeps). exact Hs.
  - destruct (set_settings_particles rnd cfg c Hdeps) as (Hps & _ & _ & HS).
    split; rewrite HS; [exact Hcap | ].
    intros i p Hp. rewrite Hps in Hp.
    now rewrite (fresh_particles_speed _ _ _ _ _ _ Hp).
Qed.

Lemma react_speed_ok (c : Component R) (e : Event R) :
  cap_allowed e -> well_formed c -> speed_ok c -> speed_ok (react rnd c e).
Proof.
  intros He Hwf [Hc Hs]. destruct e as [vp | | cfg | d]; cbn [react].
  - destruct (@resize_event_well_formed _ _ _ vp c Hwf) as (_ & HS & _).
    split; rewrite HS; [exact Hc | ]. now rewrite resize_event_particles.
  - destruct Hwf as ((_ & _ & Hp) & _). unfold animation_frame. rewrite Hp.
    match goal with |- context [draw rnd ?c0] => set (c' := c0) end.
    destruct (draw_settings_surface rnd c') as [HS _].
    split; rewrite HS; [exact Hc | ].
    intros i p Hlk. now apply (@draw_speed_bound P rnd c' i p).
  - now apply set_settings_speed_ok.
  - unfold handleSvgChange. apply set_settings_speed_ok; [exact Hc | ].
    split; assumption.
Qed.

Lemma after_speed_ok (es : list (Event R)) (c : Component R) :
  Forall cap_allowed es -> well_formed c -> speed_ok c ->
  speed_ok (after rnd es c).
Proof.
  revert c. induction es as [ | e es IH]; intros c Hall Hwf Hok; [exact Hok | ].
  inversion Hall as [ | e' es' He Hes]; subst.
  cbn [after fold_left]. apply IH; [exact Hes | | ].
  - now apply react_well_formed.
  - now apply react_speed_ok.
Qed.

Lemma mount_speed_ok (S : Settings R) (vp : Viewport R) :
  0 <= velocityCap S -> speed_ok (mount rnd S vp).
Proof.
  intros Hcap. destruct (mount_well_formed rnd S vp) as (_ & HS & _).
  split; rewrite HS; [exact Hcap | ].
  intros i p Hp. rewrite mount_particles in Hp.
  now rewrite (fresh_particles_speed _ _ _ _ _ _ Hp).
Qed.
End SpeedInvariant.

(** X11: if the velocity cap is never negative (at the mount and in the
    settings set later), then from the mount on, whatever events follow,
    the speed of every particle of the pool is at most the current
    velocity cap. *)
Theorem speed_within_cap (P : PathApi) (rnd : nat -> R) (S : Settings R)
    (vp : Viewport R) (es : list (Event R)) :
  0 <= velocityCap S -> Forall cap_allowed es ->
  forall (i : nat) (p : Particle R),
    particles (after rnd es (mount rnd S vp)) !! i = Some p ->
    speed p <= velocityCap (settings (after rnd es (mount rnd S vp))).
Proof.
  intros Hcap Hall.
  destruct (mount_well_formed rnd S vp) as (Hwf & _).
  exact (proj2 (@after_speed_ok P rnd es _ Hall Hwf
                  (@mount_speed_ok P rnd S vp Hcap))).
Qed.

Lemma speed_within_cap_witness :
  (0 <= velocityCap custom /\ Forall cap_allowed busy_day)
  /\ forall (i : nat) (p : Particle R),
       particles (after ramp busy_day (mount ramp custom viewport_800x600)) !! i
       = Some p ->
       speed p
       <= velocityCap
            (settings (after ramp busy_day (mount ramp custom viewport_800x600))).
Proof.
  assert (Hcap : 0 <= velocityCap custom) by (cbn [velocityCap custom]; lra).
  assert (Hall : Forall cap_allowed busy_day)
    by (unfold busy_day; repeat constructor).
  split; [exact (conj Hcap Hall) | ].
  exact (@speed_within_cap SamplePath ramp custom viewport_800x600 busy_day
           Hcap Hall).
Defined.

(** * Colours *)

Lemma hex_digit_range (c : ascii) (d : Z) :
  hex_digit c = Some d -> (0 <= d <= 15)%Z.
Proof.
  unfold hex_digit.
  repeat match goal with
         | |- context [if ?b then _ else _] => destruct b eqn:?
         end; intros Hd; try discriminate; apply (inj Some) in Hd; lia.
Qed.

(** A string that starts with a hexadecimal digit has no white space, sign
    or [0x] to skip, unless it starts with [0x]. *)
Lemma parseInt16_no_prefix (c : ascii) (s : string) (d : Z) :
  hex_digit c = Some d -> c <> "0"%char ->
  parseInt16 (String c s) = hex_prefix (String c s) None.
Proof.
  intros Hd Hc.
  destruct c as [[] [] [] [] [] [] [] []];
    try discriminate Hd; try (now elim Hc);
    unfold parseInt16; simpl;
    match goal with
    | |- option_map _ ?h = ?h =>
        destruct h as [z | ];
        [cbn [option_map]; f_equal; now destruct z | reflexivity]
    end.
Qed.

Lemma parseInt16_zero (c : ascii) (s : string) (d : Z) :
  hex_digit c = Some d ->
  parseInt16 (String "0" (String c s))
  = hex_prefix (String "0" (String c s)) None.
Proof.
  intros Hd.
  destruct c as [[] [] [] [] [] [] [] []];
    try discriminate Hd;
    unfold parseInt16; simpl;
    match goal with
    | |- option_map _ ?h = ?h =>
        destruct h as [z | ];
        [cbn [option_map]; f_equal; now destruct z | reflexivity]
    end.
Qed.

Lemma parseInt16_digit (c : ascii) (d : Z) :
  hex_digit c = Some d -> parseInt16 (String c EmptyString) = Some d.
Proof.
  intros Hd. pose proof (@hex_digit_range _ _ Hd) as Hr.
  destruct (ascii_dec c "0"%char) as [-> | Hc].
  - apply (inj Some) in Hd. now subst d.
  - rewrite (@parseInt16_no_prefix c EmptyString d Hd Hc). cbn [hex_prefix].
    rewrite Hd. cbn [default]. f_equal; lia.
Qed.

Lemma parseInt16_byte (c1 c2 : ascii) (d1 d2 : Z) :
  hex_digit c1 = Some d1 -> hex_digit c2 = Some d2 ->
  parseInt16 (String c1 (String c2 EmptyString)) = Some (16 * d1 + d2)%Z.
Proof.
  intros H1 H2. pose proof (@hex_digit_range _ _ H1) as Hr1.
  assert (Hp : hex_prefix (String c1 (String c2 EmptyString)) None
               = Some (16 * d1 + d2)%Z).
  { cbn [hex_prefix]. rewrite H1, H2. cbn [default hex_prefix].
    f_equal; lia. }
  destruct (ascii_dec c1 "0"%char) as [-> | Hc].
  - now rewrite (@parseInt16_zero c2 EmptyString d2 H2).
  - now rewrite (@parseInt16_no_prefix c1 (String c2 EmptyString) d1 H1 Hc).
Qed.

Lemma draw_background_hex {num : Type} {N : JsNumber num} {P : PathApi}
    (S : Settings num) (cw ch : num) (c0 c1 c2 c3 c4 c5 c6 : ascii)
    (rest : string) (r1 r2 g1 g2 b1 b2 : Z) :
  backgroundColor S
  = String c0 (String c1 (String c2 (String c3 (String c4 (String c5
      (String c6 rest)))))) ->
  hex_digit c1 = Some r1 -> hex_digit c2 = Some r2 ->
  hex_digit c3 = Some g1 -> hex_digit c4 = Some g2 ->
  hex_digit c5 = Some b1 -> hex_digit c6 = Some b2 ->
  draw_background S cw ch
  = [SetFillStyle (Rgba (Some (16 * r1 + r2)%Z) (Some (16 * g1 + g2)%Z)
                     (Some (16 * b1 + b2)%Z) (trailOpacity S));
     FillRect n0 n0 cw ch].
Proof.
  intros Hbg H1 H2 H3 H4 H5 H6.
  pose proof (@parseInt16_byte _ _ _ _ H1 H2) as Hr.
  pose proof (@parseInt16_byte _ _ _ _ H3 H4) as Hg.
  pose proof (@parseInt16_byte _ _ _ _ H5 H6) as Hb.
  unfold draw_background, slice. rewrite Hbg.
  cbn [substring Nat.sub].
  replace (substring 0 0 rest) with EmptyString by (now destruct rest).
  now rewrite Hr, Hg, Hb.
Qed.

(** X12: when the background colour is a character followed by six
    hexadecimal digits (upper or lower case; anything after them is
    ignored), the fill style of the trail fade is built from the three
    bytes the digit pairs denote, each between 0 and 255: none of them is
    NaN. *)
Theorem background_colour_bytes (num : Type) (N : JsNumber num) (P : PathApi)
    (S : Settings num) (cw ch : num) (c0 c1 c2 c3 c4 c5 c6 : ascii)
    (rest : string) (r1 r2 g1 g2 b1 b2 : Z) :
  backgroundColor S
  = String c0 (String c1 (String c2 (String c3 (String c4 (String c5
      (String c6 rest)))))) ->
  hex_digit c1 = Some r1 -> hex_digit c2 = Some r2 ->
  hex_digit c3 = Some g1 -> hex_digit c4 = Some g2 ->
  hex_digit c5 = Some b1 -> hex_digit c6 = Some b2 ->
  draw_background S cw ch
  = [SetFillStyle (Rgba (Some (16 * r1 + r2)%Z) (Some (16 * g1 + g2)%Z)
                     (Some (16 * b1 + b2)%Z) (trailOpacity S));
     FillRect n0 n0 cw ch]
  /\ (0 <= 16 * r1 + r2 <= 255)%Z
  /\ (0 <= 16 * g1 + g2 <= 255)%Z
  /\ (0 <= 16 * b1 + b2 <= 255)%Z.
Proof.
  intros Hbg H1 H2 H3 H4 H5 H6.
  split; [now apply (draw_background_hex S cw ch Hbg) | ].
  apply hex_digit_range in H1, H2, H3, H4, H5, H6. lia.
Qed.

Lemma background_colour_bytes_witness :
  backgroundColor defaults
  = String "#" (String "0" (String "0" (String "0" (String "0" (String "0"
      (String "0" EmptyString))))))
  /\ draw_background defaults 800 600
     = [SetFillStyle (Rgba (Some 0%Z) (Some 0%Z) (Some 0%Z)
                        (trailOpacity defaults));
        FillRect 0 0 800 600].
Proof.
  assert (Hbg : backgroundColor defaults
                = String "#" (String "0" (String "0" (String "0" (String "0"
                    (String "0" (String "0" EmptyString)))))))
    by reflexivity.
  assert (H0 : hex_digit "0" = Some 0%Z) by reflexivity.
  split; [exact Hbg | ].
  exact (proj1 (@background_colour_bytes R RNumber SamplePath defaults 800 600
                  "#" "0" "0" "0" "0" "0" "0" EmptyString 0 0 0 0 0 0
                  Hbg H0 H0 H0 H0 H0 H0)).
Defined.

(** X13: a background colour in the three-digit form ([#abc]) is not
    read as [#aabbcc]: [draw] takes the first two digits as red, the third
    alone as green, and blue is NaN. *)
Theorem short_colour_has_no_blue (num : Type) (N : JsNumber num) (P : PathApi)
    (S : Settings num) (cw ch : num) (c0 c1 c2 c3 : ascii) (d1 d2 d3 : Z) :
  backgroundColor S = String c0 (String c1 (String c2 (String c3 EmptyString))) ->
  hex_digit c1 = Some d1 -> hex_digit c2 = Some d2 -> hex_digit c3 = Some d3 ->
  draw_background S cw ch
  = [SetFillStyle (Rgba (Some (16 * d1 + d2)%Z) (Some d3) None (trailOpacity S));
     FillRect n0 n0 cw ch].
Proof.
  intros Hbg H1 H2 H3.
  pose proof (@parseInt16_byte _ _ _ _ H1 H2) as Hr.
  pose proof (@parseInt16_digit _ _ H3) as Hg.
  unfold draw_background, slice. rewrite Hbg.
  cbn [substring Nat.sub]. now rewrite Hr, Hg.
Qed.

Lemma short_colour_has_no_blue_witness :
  draw_background
    (mkSettings 2%nat 1 40 120 1 1 0 0 1
       (String "#" (String "f" (String "8" (String "0" EmptyString))))
       (backgroundColor defaults) line (svgPathData defaults)) 800 600
  = [SetFillStyle (Rgba (Some 248%Z) (Some 0%Z) None 1); FillRect 0 0 800 600].
Proof.
  exact (@short_colour_has_no_blue R RNumber SamplePath
           (mkSettings 2%nat 1 40 120 1 1 0 0 1
              (String "#" (String "f" (String "8" (String "0" EmptyString))))
              (backgroundColor defaults) line (svgPathData defaults))
           800 600 "#" "f" "8" "0" 15 8 0 eq_refl eq_refl eq_refl eq_refl).
Defined.

(** * Randomize *)

Section RandomizeFacts.
Context {num : Type} `{JsNumber num} `{JsMath num} `{PathApi}.
Variable rnd : nat -> num.
Variable text_of : num -> string.

Lemma set_settings_settings (S : Settings num) (c : Component num) :
  settings (set_settings rnd S c) = S.
Proof.
  destruct (canvas_deps_same (settings c) S) eqn:Hdeps.
  - now rewrite (@set_settings_unchanged _ _ _ rnd S c Hdeps).
  - now destruct (@set_settings_particles _ _ _ rnd S c Hdeps) as (_ & _ & _ & ->).
Qed.

(** The settings [newSettings] builds, field by field. *)
Lemma newSettings_fields (o : RandomizerOptions) (S S' : Settings num)
    (k : nat) :
  fst (newSettings rnd text_of o S k) = Some S' ->
  exists k1 k2 k3 k4 k5 k6 k7 k8 k9 k10 k11 k12 k13 : nat,
    particleCount S'
    = fst (choose (opt_particleCount o)
             (rand_bind (random rnd)
                (fun r => rand_ret
                            (Z.to_nat (nfloor (nmul r (of_Z 4000)) + 1000))))
             (particleCount S) k1)
    /\ velocityCap S'
       = fst (choose (opt_velocityCap o)
                (rand_bind (random rnd)
                   (fun r => rand_ret (nadd (nmul r n2) nhalf)))
                (velocityCap S) k2)
    /\ repulsionRadius S'
       = fst (choose (opt_repulsionRadius o)
                (rand_bind (random rnd)
                   (fun r => rand_ret (nadd (nmul r (of_Z 80)) (of_Z 20))))
                (repulsionRadius S) k3)
    /\ attractionRadius S'
       = fst (choose (opt_attractionRadius o)
                (rand_bind (random rnd)
                   (fun r => rand_ret (nadd (nmul r (of_Z 200)) (of_Z 80))))
                (attractionRadius S) k4)
    /\ cohesionForce S'
       = fst (choose (opt_cohesionForce o)
                (rand_bind (random rnd)
                   (fun r => rand_ret (nadd (nmul r (lit 1 2)) (lit 1 3))))
                (cohesionForce S) k5)
    /\ friction S'
       = fst (choose (opt_friction o)
                (rand_bind (random rnd)
                   (fun r => rand_ret (nadd (nmul r (lit 1 1)) (lit 9 1))))
                (friction S) k6)
    /\ randomForce S'
       = fst (choose (opt_randomForce o)
                (rand_bind (random rnd)
                   (fun r => rand_ret (nadd (nmul r (lit 2 2)) (lit 5 3))))
                (randomForce S) k7)
    /\ rotationSpeed S'
       = fst (choose (opt_rotationSpeed o)
                (rand_bind (random rnd) (fun r => rand_ret (nmul r (lit 5 2))))
                (rotationSpeed S) k8)
    /\ trailOpacity S'
       = fst (choose (opt_trailOpacity o)
                (rand_bind (random rnd) (fun r => rand_ret (nmul r (lit 1 1))))
                (trailOpacity S) k9)
    /\ backgroundColor S'
       = fst (choose (opt_backgroundColor o) (randHex rnd) (backgroundColor S)
                k10)
    /\ swarmColor S'
       = fst (choose (opt_swarmColor o) (randHex rnd) (swarmColor S) k11)
    /\ Some (shape S')
       = fst (choose (opt_shape o) (random_shape rnd) (Some (shape S)) k12)
    /\ svgPathData S'
       = fst (choose (opt_svgPathData o) (random_path rnd text_of)
                (svgPathData S) k13).
Proof.
  unfold newSettings. cbn [rand_bind rand_ret fst snd].
  match goal with
  | |- option_map _ (fst (choose (opt_shape o) _ _ ?k)) = _ -> _ =>
      destruct (fst (choose (opt_shape o) (random_shape rnd)
                       (Some (shape S)) k)) as [s | ] eqn:Hs
  end; [ | discriminate].
  cbn [option_map]. intros HS. apply (inj Some) in HS. subst S'.
  cbn [particleCount velocityCap repulsionRadius attractionRadius
       cohesionForce friction randomForce rotationSpeed trailOpacity
       backgroundColor swarmColor shape svgPathData].
  rewrite <- Hs. do 13 eexists. repeat split.
Qed.

Lemma randomizeSettings_settings (o : RandomizerOptions)
    (c c' : Component num) :
  randomizeSettings rnd text_of o c = Some c' ->
  fst (newSettings rnd text_of o (settings c) (random_calls c))
  = Some (settings c').
Proof.
  unfold randomizeSettings.
  destruct (fst (newSettings rnd text_of o (settings c) (random_calls c)))
    as [S' | ]; [ | discriminate].
  cbn [option_map]. intros Hc. apply (inj Some) in Hc. subst c'.
  now rewrite set_settings_settings.
Qed.
End RandomizeFacts.

(** X14: [randomizeSettings] leaves every setting whose option is not
    ticked at its current value. *)
Theorem randomize_keeps_unticked (num : Type) (N : JsNumber num)
    (M : JsMath num) (P : PathApi) (rnd : nat -> num)
    (text_of : num -> string) (o : RandomizerOptions) (c c' : Component num) :
  randomizeSettings rnd text_of o c = Some c' ->
  (opt_particleCount o = false ->
   particleCount (settings c') = particleCount (settings c))
  /\ (opt_velocityCap o = false ->
      velocityCap (settings c') = velocityCap (settings c))
  /\ (opt_repulsionRadius o = false ->
      repulsionRadius (settings c') = repulsionRadius (settings c))
  /\ (opt_attractionRadius o = false ->
      attractionRadius (settings c') = attractionRadius (settings c))
  /\ (opt_cohesionForce o = false ->
      cohesionForce (settings c') = cohesionForce (settings c))
  /\ (opt_friction o = false -> friction (settings c') = friction (settings c))
  /\ (opt_randomForce o = false ->
      randomForce (settings c') = randomForce (settings c))
  /\ (opt_rotationSpeed o = false ->
      rotationSpeed (settings c') = rotationSpeed (settings c))
  /\ (opt_trailOpacity o = false ->
      trailOpacity (settings c') = trailOpacity (settings c))
  /\ (opt_backgroundColor o = false ->
      backgroundColor (settings c') = backgroundColor (settings c))
  /\ (opt_swarmColor o = false ->
      swarmColor (settings c') = swarmColor (settings c))
  /\ (opt_shape o = false -> shape (settings c') = shape (settings c))
  /\ (opt_svgPathData o = false ->
      svgPathData (settings c') = svgPathData (settings c)).
Proof.
  intros Hc. apply randomizeSettings_settings in Hc.
  destruct (newSettings_fields _ _ _ _ _ Hc)
    as (k1 & k2 & k3 & k4 & k5 & k6 & k7 & k8 & k9 & k10 & k11 & k12 & k13
        & H1 & H2 & H3 & H4 & H5 & H6 & H7 & H8 & H9 & H10 & H11 & H12 & H13).
  repeat match goal with |- _ /\ _ => split end;
    intros Hoff; rewrite Hoff in *; cbn [choose rand_ret fst] in *;
    try assumption.
  now apply (inj Some) in H12.
Qed.

Lemma randomize_keeps_unticked_witness :
  exists c' : Component R,
    randomizeSettings coin (fun _ => EmptyString) only_background
      two_body_scene = Some c'
    /\ friction (settings c') = friction (settings two_body_scene).
Proof.
  assert (Hex : exists c' : Component R,
             randomizeSettings coin (fun _ => EmptyString) only_background
               two_body_scene = Some c')
    by (eexists; reflexivity).
  destruct Hex as [c' Hc]. exists c'. split; [exact Hc | ].
  destruct (@randomize_keeps_unticked R RNumber RMath SamplePath coin
              (fun _ => EmptyString) only_background two_body_scene c' Hc)
    as (_ & _ & _ & _ & _ & Hf & _).
  exact (Hf eq_refl).
Defined.

Lemma same_shape_refl (s : Shape) : same_shape s s = true.
Proof. now destruct s. Qed.

Lemma canvas_deps_same_refl {num : Type} {N : JsNumber num}
    (S : Settings num) :
  (forall a : num, nsame a a = true) -> canvas_deps_same S S = true.
Proof.
  intros Hsame. unfold canvas_deps_same.
  now rewrite Nat.eqb_refl, !Hsame, !String.eqb_refl, same_shape_refl.
Qed.

(** X15: with no option ticked, [randomizeSettings] changes nothing at
    all: it calls [Math.random()] not once, no effect runs again, and the
    pool, the loop and the canvas stay as they are.  ([Object.is] holds
    of every number and itself.) *)
Theorem randomize_nothing_ticked (num : Type) (N : JsNumber num)
    (M : JsMath num) (P : PathApi) (rnd : nat -> num)
    (text_of : num -> string) (c : Component num) :
  (forall a : num, nsame a a = true) ->
  randomizeSettings rnd text_of no_options c = Some c.
Proof.
  intros Hsame. unfold randomizeSettings, newSettings.
  cbn [no_options opt_particleCount opt_velocityCap opt_repulsionRadius
       opt_attractionRadius opt_cohesionForce opt_friction opt_randomForce
       opt_rotationSpeed opt_trailOpacity opt_backgroundColor opt_swarmColor
       opt_shape opt_svgPathData choose rand_bind rand_ret fst snd
       option_map].
  f_equal. destruct c as [S e ps path id sf vp ls run pf fh rc cx].
  destruct S as [pc vc rr ar cf fr rf rs tr bg sw sh pd].
  unfold with_random_calls. cbn [settings svgError particles
    customSVGPath2D animationFrameId surface viewport listeners effect_run
    pending_frames frame_handles random_calls ctx particleCount velocityCap
    repulsionRadius attractionRadius cohesionForce friction randomForce
    rotationSpeed trailOpacity backgroundColor swarmColor shape svgPathData].
  rewrite set_settings_unchanged; [reflexivity | ].
  now apply canvas_deps_same_refl.
Qed.

Lemma randomize_nothing_ticked_witness :
  randomizeSettings coin (fun _ => EmptyString) no_options two_body_scene
  = Some two_body_scene.
Proof.
  exact (@randomize_nothing_ticked R RNumber RMath SamplePath coin
           (fun _ => EmptyString) two_body_scene Reqb_refl).
Defined.

(** ** Randomize over the real numbers *)

Lemma floor_range (r : R) (n : Z) :
  0 <= r < 1 -> (0 < n)%Z -> (0 <= Int_part (r * IZR n) <= n - 1)%Z.
Proof.
  intros Hr Hn. apply IZR_lt in Hn.
  destruct (base_Int_part (r * IZR n)) as [Hle Hgt].
  split.
  - assert (Hlt : IZR (-1) < IZR (Int_part (r * IZR n))) by nra.
    apply lt_IZR in Hlt. lia.
  - assert (Hlt : IZR (Int_part (r * IZR n)) < IZR n) by nra.
    apply lt_IZR in Hlt. lia.
Qed.

Section RandomizeReal.
Context {P : PathApi}.
Variable rnd : nat -> R.
Variable text_of : R -> string.
Hypothesis rnd_unit : forall k : nat, 0 <= rnd k < 1.

Lemma random_shape_defined (k : nat) :
  exists s : Shape, fst (random_shape rnd k) = Some s.
Proof.
  unfold random_shape. cbn [rand_bind random rand_ret fst snd].
  js_unfold. cbn [nfloor of_Z RMath].
  pose proof (floor_range (rnd_unit k) (n := 4) eq_refl) as Hf.
  destruct (Int_part (rnd k * 4)) as [ | p | p]; [ | | lia].
  - now exists circle.
  - assert (Hp : (p = 1 \/ p = 2 \/ p = 3)%positive) by lia.
    destruct Hp as [-> | [-> | ->]]; eexists; reflexivity.
Qed.

Lemma newSettings_defined (o : RandomizerOptions) (S : Settings R) (k : nat) :
  exists S' : Settings R, fst (newSettings rnd text_of o S k) = Some S'.
Proof.
  unfold newSettings. cbn [rand_bind rand_ret fst snd].
  match goal with
  | |- exists _, option_map _ (fst (choose (opt_shape o) _ _ ?k0)) = _ =>
      assert (Hs : exists s, fst (choose (opt_shape o) (random_shape rnd)
                                    (Some (shape S)) k0) = Some s)
  end.
  { destruct (opt_shape o); cbn [choose]; [apply random_shape_defined | ].
    now exists (shape S). }
  destruct Hs as [s ->]. cbn [option_map]. eexists. reflexivity.
Qed.
End RandomizeReal.

(** X16: [Math.random()] being in [[0, 1)], [randomizeSettings] always
    yields settings (the shape is never [undefined]), and each ticked
    numeric setting lands in its range: [particleCount] in 1000..4999,
    [velocityCap] in [[0.5, 2.5]], [repulsionRadius] in [[20, 100]],
    [attractionRadius] in [[80, 280]], [cohesionForce] in
    [[0.001, 0.011]], [friction] in [[0.9, 1]], [randomForce] in
    [[0.005, 0.025]], [rotationSpeed] in [[0, 0.05]] and [trailOpacity] in
    [[0, 0.1]]. *)
Theorem randomize_ranges (P : PathApi) (rnd : nat -> R)
    (text_of : R -> string) (o : RandomizerOptions) (c : Component R) :
  (forall k : nat, 0 <= rnd k < 1) ->
  exists c' : Component R,
    randomizeSettings rnd text_of o c = Some c'
    /\ (opt_particleCount o = true ->
        (1000 <= particleCount (settings c') <= 4999)%nat)
    /\ (opt_velocityCap o = true ->
        1 / 2 <= velocityCap (settings c') <= 5 / 2)
    /\ (opt_repulsionRadius o = true ->
        20 <= repulsionRadius (settings c') <= 100)
    /\ (opt_attractionRadius o = true ->
        80 <= attractionRadius (settings c') <= 280)
    /\ (opt_cohesionForce o = true ->
        1 / 1000 <= cohesionForce (settings c') <= 11 / 1000)
    /\ (opt_friction o = true -> 9 / 10 <= friction (settings c') <= 1)
    /\ (opt_randomForce o = true ->
        5 / 1000 <= randomForce (settings c') <= 25 / 1000)
    /\ (opt_rotationSpeed o = true ->
        0 <= rotationSpeed (settings c') <= 5 / 100)
    /\ (opt_trailOpacity o = true ->
        0 <= trailOpacity (settings c') <= 1 / 10).
Proof.
  intros Hrnd.
  destruct (@newSettings_defined rnd text_of Hrnd o (settings c)
              (random_calls c))
    as [S' HS'].
  exists (set_settings rnd S'
            (with_random_calls
               (snd (newSettings rnd text_of o (settings c) (random_calls c)))
               c)).
  split; [unfold randomizeSettings; now rewrite HS' | ].
  rewrite set_settings_settings.
  destruct (newSettings_fields _ _ _ _ _ HS')
    as (k1 & k2 & k3 & k4 & k5 & k6 & k7 & k8 & k9 & _ & _ & _ & _
        & H1 & H2 & H3 & H4 & H5 & H6 & H7 & H8 & H9 & _).
  rewrite H1, H2, H3, H4, H5, H6, H7, H8, H9.
  pose proof (floor_range (Hrnd k1) (n := 4000) eq_refl) as Hf.
  pose proof (Hrnd k2). pose proof (Hrnd k3). pose proof (Hrnd k4).
  pose proof (Hrnd k5). pose proof (Hrnd k6). pose proof (Hrnd k7).
  pose proof (Hrnd k8). pose proof (Hrnd k9).
  repeat match goal with |- _ /\ _ => split end;
    intros Hon; rewrite Hon;
    cbn [choose rand_bind random rand_ret fst snd];
    unfold lit; js_unfold; cbn [of_Z nfloor RMath];
    try (change (10 ^ Z.of_nat 1)%Z with 10%Z);
    try (change (10 ^ Z.of_nat 2)%Z with 100%Z);
    try (change (10 ^ Z.of_nat 3)%Z with 1000%Z);
    try lra; try lia.
Qed.

Lemma randomize_ranges_witness :
  (forall k : nat, 0 <= coin k < 1)
  /\ exists c' : Component R,
       randomizeSettings coin (fun _ => EmptyString) all_options two_body_scene
       = Some c'
       /\ (1000 <= particleCount (settings c') <= 4999)%nat.
Proof.
  assert (Hcoin : forall k : nat, 0 <= coin k < 1)
    by (intros k; unfold coin; lra).
  split; [exact Hcoin | ].
  destruct (@randomize_ranges SamplePath coin (fun _ => EmptyString)
              all_options two_body_scene Hcoin) as (c' & Hc' & Hpc & _).
  exists c'. split; [exact Hc' | exact (Hpc eq_refl)].
Defined.

(** ** The colour [randHex] writes and [draw] reads back *)

Lemma hex_digit_hex_char (d : Z) :
  (0 <= d <= 15)%Z -> hex_digit (hex_char d) = Some d.
Proof.
  intros Hd.
  assert (Hc : (d = 0 \/ d = 1 \/ d = 2 \/ d = 3 \/ d = 4 \/ d = 5 \/ d = 6
                \/ d = 7 \/ d = 8 \/ d = 9 \/ d = 10 \/ d = 11 \/ d = 12
                \/ d = 13 \/ d = 14 \/ d = 15)%Z) by lia.
  repeat (destruct Hc as [-> | Hc]; [reflexivity | ]). now subst d.
Qed.

Lemma to_hex_digits_fuel (m : nat) :
  forall (m' : nat) (n : Z) (acc : string),
    (0 <= n < 16 ^ Z.of_nat m)%Z -> (0 <= n < 16 ^ Z.of_nat m')%Z ->
    (1 <= m)%nat -> (1 <= m')%nat ->
    to_hex_digits m n acc = to_hex_digits m' n acc.
Proof.
  induction m as [ | m IH]; intros m' n acc Hn Hn' Hm Hm'; [lia | ].
  destruct m' as [ | m']; [lia | ]. cbn [to_hex_digits].
  destruct (Z.eqb_spec (n / 16) 0%Z) as [ | Hq]; [reflexivity | ].
  rewrite Nat2Z.inj_succ, Z.pow_succ_r in Hn, Hn' by lia.
  assert (Hd : (0 < n / 16)%Z)
    by (pose proof (Z.div_pos n 16%Z); lia).
  assert (Hb : (n / 16 < 16 ^ Z.of_nat m)%Z)
    by (apply Z.div_lt_upper_bound; lia).
  assert (Hb' : (n / 16 < 16 ^ Z.of_nat m')%Z)
    by (apply Z.div_lt_upper_bound; lia).
  apply IH; try lia.
  - destruct m; [cbn in Hb; lia | lia].
  - destruct m'; [cbn in Hb'; lia | lia].
Qed.

Lemma to_hex_fuel (n : Z) (m : nat) :
  (0 <= n < 16 ^ Z.of_nat m)%Z -> (1 <= m)%nat ->
  to_hex n = to_hex_digits m n EmptyString.
Proof.
  intros Hn Hm. unfold to_hex. apply to_hex_digits_fuel; try lia.
  rewrite Nat2Z.inj_succ, Z2Nat.id by apply Z.log2_nonneg.
  split; [lia | ].
  destruct (Z.eq_dec n 0%Z) as [-> | Hz]; [reflexivity | ].
  apply Z.lt_le_trans with (2 ^ Z.succ (Z.log2 n))%Z.
  - apply Z.log2_spec. lia.
  - apply Z.pow_le_mono_l. pose proof (Z.log2_nonneg n). lia.
Qed.

(** Below [16 ^ 6], the padded digits are the six digits of the number. *)
Lemma padStart_to_hex (n : Z) :
  (0 <= n < 16777216)%Z ->
  padStart 6 "0" (to_hex n)
  = String (hex_char (n / 1048576 mod 16))
      (String (hex_char (n / 65536 mod 16))
         (String (hex_char (n / 4096 mod 16))
            (String (hex_char (n / 256 mod 16))
               (String (hex_char (n / 16 mod 16))
                  (String (hex_char (n mod 16)) EmptyString))))).
Proof.
  intros Hn.
  rewrite (@to_hex_fuel n 6)
    by (try change (16 ^ Z.of_nat 6)%Z with 16777216%Z; lia).
  assert (E2 : (n / 16 / 16 = n / 256)%Z) by (now rewrite Z.div_div by lia).
  assert (E3 : (n / 256 / 16 = n / 4096)%Z) by (now rewrite Z.div_div by lia).
  assert (E4 : (n / 4096 / 16 = n / 65536)%Z) by (now rewrite Z.div_div by lia).
  assert (E5 : (n / 65536 / 16 = n / 1048576)%Z) by (now rewrite Z.div_div by lia).
  unfold padStart. cbn [to_hex_digits].
  rewrite E2, E3, E4, E5.
  destruct (Z.eqb_spec (n / 16) 0%Z) as [H1 | H1];
    [ | destruct (Z.eqb_spec (n / 256) 0%Z) as [H2 | H2];
        [ | destruct (Z.eqb_spec (n / 4096) 0%Z) as [H3 | H3];
            [ | destruct (Z.eqb_spec (n / 65536) 0%Z) as [H4 | H4];
                [ | destruct (Z.eqb_spec (n / 1048576) 0%Z) as [H5 | H5];
                    [ | destruct (Z.eqb_spec (n / 1048576 / 16) 0%Z)]]]]];
    cbn [String.length Nat.sub repeat_char];
    repeat f_equal;
    change "0"%char with (hex_char 0); f_equal;
    Z.div_mod_to_equations; lia.
Qed.

(** X17: the background colour [randHex] writes is read back by [draw]:
    it is [#] followed by the six-digit form of an integer [n] between 0
    and 16777214 (so never pure white), and the fill style of the trail
    fade gets exactly the three bytes of [n]. *)
Theorem randomized_colour_parses (P : PathApi) (rnd : nat -> R)
    (text_of : R -> string) (o : RandomizerOptions) (c c' : Component R)
    (cw ch : R) :
  (forall k : nat, 0 <= rnd k < 1) ->
  randomizeSettings rnd text_of o c = Some c' ->
  opt_backgroundColor o = true ->
  exists n : Z,
    (0 <= n <= 16777214)%Z
    /\ backgroundColor (settings c')
       = String "#" (padStart 6 "0" (to_hex n))
    /\ draw_background (settings c') cw ch
       = [SetFillStyle (Rgba (Some (n / 65536)%Z) (Some (n / 256 mod 256)%Z)
                          (Some (n mod 256)%Z) (trailOpacity (settings c')));
          FillRect 0 0 cw ch].
Proof.
  intros Hrnd Hc Hon. apply randomizeSettings_settings in Hc.
  destruct (newSettings_fields _ _ _ _ _ Hc)
    as (_ & _ & _ & _ & _ & _ & _ & _ & _ & k10 & _ & _ & _
        & _ & _ & _ & _ & _ & _ & _ & _ & _ & Hbg & _).
  rewrite Hon in Hbg. cbn [choose randHex rand_bind random rand_ret fst snd]
    in Hbg.
  js_unfold. cbn [nfloor of_Z RMath] in Hbg.
  pose proof (floor_range (Hrnd k10) (n := 16777215) eq_refl) as Hn.
  set (n := Int_part (rnd k10 * 16777215)) in *.
  exists n. split; [lia | ]. split; [exact Hbg | ].
  rewrite padStart_to_hex in Hbg by lia.
  rewrite (draw_background_hex (settings c') cw ch Hbg
             (r1 := (n / 1048576 mod 16)%Z) (r2 := (n / 65536 mod 16)%Z)
             (g1 := (n / 4096 mod 16)%Z) (g2 := (n / 256 mod 16)%Z)
             (b1 := (n / 16 mod 16)%Z) (b2 := (n mod 16)%Z))
    by (apply hex_digit_hex_char; Z.div_mod_to_equations; lia).
  js_unfold. repeat f_equal; Z.div_mod_to_equations; lia.
Qed.

Lemma randomized_colour_parses_witness :
  (forall k : nat, 0 <= coin k < 1)
  /\ exists (c' : Component R) (n : Z),
       randomizeSettings coin (fun _ => EmptyString) only_background
         two_body_scene = Some c'
       /\ (0 <= n <= 16777214)%Z
       /\ draw_background (settings c') 800 600
          = [SetFillStyle (Rgba (Some (n / 65536)%Z) (Some (n / 256 mod 256)%Z)
                             (Some (n mod 256)%Z) (trailOpacity (settings c')));
             FillRect 0 0 800 600].
Proof.
  assert (Hcoin : forall k : nat, 0 <= coin k < 1)
    by (intros k; unfold coin; lra).
  split; [exact Hcoin | ].
  assert (Hex : exists c' : Component R,
             randomizeSettings coin (fun _ => EmptyString) only_background
               two_body_scene = Some c')
    by (eexists; reflexivity).
  destruct Hex as [c' Hc].
  destruct (@randomized_colour_parses SamplePath coin (fun _ => EmptyString)
              only_background two_body_scene c' 800 600 Hcoin Hc eq_refl)
    as (n & Hn & _ & Hd).
  exists c', n. split; [exact Hc | split; [exact Hn | exact Hd]].
Defined.

(** ** Randomize on the mounted component *)

Lemma with_random_calls_well_formed {num : Type} {N : JsNumber num}
    {P : PathApi} (k : nat) (c : Component num) :
  well_formed c -> well_formed (with_random_calls k c).
Proof. intros Hwf. exact Hwf. Qed.

(** X18: a click on Randomize, at any time after the mount, leaves
    exactly one "resize" listener (that of the current run of the canvas
    effect) and exactly one scheduled frame (the one whose handle is in
    [animationFrameId.current]) and, for the custom shape, the path
    compiled from the new path string. *)
Theorem randomize_keeps_one_loop (num : Type) (N : JsNumber num)
    (M : JsMath num) (P : PathApi) (rnd : nat -> num)
    (text_of : num -> string) (S : Settings num) (vp : Viewport num)
    (es : list (Event num)) (o : RandomizerOptions) (c' : Component num) :
  randomizeSettings rnd text_of o (after rnd es (mount rnd S vp)) = Some c' ->
  listeners c' = [resizeCanvas_of (effect_run c')]
  /\ animationFrameId c' = Some (frame_handles c')
  /\ pending_frames c' = [frame_handles c']
  /\ (shape (settings c') = customSVG ->
      customSVGPath2D c' = new_Path2D (svgPathData (settings c'))).
Proof.
  intros Hc.
  destruct (mount_well_formed rnd S vp) as (Hwf0 & _).
  pose proof (@after_well_formed _ _ _ rnd es _ Hwf0) as Hwf.
  set (c := after rnd es (mount rnd S vp)) in *.
  unfold randomizeSettings in Hc.
  destruct (fst (newSettings rnd text_of o (settings c) (random_calls c)))
    as [S' | ]; [ | discriminate].
  cbn [option_map] in Hc. apply (inj Some) in Hc. subst c'.
  set (k := snd (newSettings rnd text_of o (settings c) (random_calls c))).
  destruct (@set_settings_well_formed _ _ _ rnd S' (with_random_calls k c)
              (with_random_calls_well_formed k Hwf))
    as (((Hl & Hid & Hp) & _ & _ & Hpath) & _).
  repeat match goal with |- _ /\ _ => split end; try assumption.
  intros Hshape. specialize (Hpath Hshape). unfold compiled in Hpath.
  destruct (new_Path2D _); now apply (f_equal fst) in Hpath.
Qed.

Lemma randomize_keeps_one_loop_witness :
  exists c' : Component R,
    randomizeSettings ramp (fun _ => EmptyString) only_background
      (after ramp busy_day (mount ramp custom viewport_800x600)) = Some c'
    /\ pending_frames c' = [frame_handles c'].
Proof.
  assert (Hex : exists c' : Component R,
             randomizeSettings ramp (fun _ => EmptyString) only_background
               (after ramp busy_day (mount ramp custom viewport_800x600))
             = Some c')
    by (eexists; reflexivity).
  destruct Hex as [c' Hc]. exists c'. split; [exact Hc | ].
  exact (proj1 (proj2 (proj2
           (@randomize_keeps_one_loop R RNumber RMath SamplePath ramp
              (fun _ => EmptyString) custom viewport_800x600 busy_day
              only_background c' Hc)))).
Defined.

(** The same definitions run on binary64. *)
Lemma newSettings_float :
  newSettings steps (fun _ => EmptyString)
    (mkRandomizerOptions true true true true true true true true true true
       true true false) two_body_float 1%nat
  = (Some (mkSettings 1062%nat 0.5625%float 23.75%float 92.5%float
             0x1.d2f1a9fbe76c9p-10%float 0x1.d19999999999ap-1%float
             0x1.d70a3d70a3d71p-8%float 0x1.999999999999ap-8%float
             0x1.ccccccccccccdp-7%float "#27ffff" "#2bffff" circle "M0 -1 L1 0 L0 1"),
     13%nat).
Proof. vm_compute. reflexivity. Qed.
